(** * Multicall3 Go example (examples/go/main.go): a shallow embedding

    The program is one linear pipeline: load the configuration, dial the
    RPC endpoint, pack three DAI calls, pack them into one
    [Multicall3.aggregate] call, submit it with [CallContract], unpack the
    answer, divide the balance by [10^decimals] with [math/big] and print
    four lines.

    The development has three layers:
    - [BigFloat]: the part of Go's [math/big] that line 165 and line 171 of
      main.go call ([Int.BitLen], [Int.Exp], [Float.SetInt], [Float.Quo],
      [Float.Text] with format ['f']), following float.go, decimal.go and
      ftoa.go of the Go standard library, on 64-bit words; the library is
      not part of the repository, its functions are modelled at the level
      of mantissa words, exponents and decimal digits;
    - [Runtime]: a small trace-and-abort monad for [log.Fatalf] ([os.Exit 1],
      deferred calls are skipped), run-time panics (deferred calls run) and
      [defer];
    - [Program]: [main] itself, over a record [World] of the external
      collaborators (environment, [.env] file, RPC node, ABI codec). *)

From Stdlib Require Import ZArith Lia Ascii String DecimalString.
From Stdlib Require DecimalFacts DecimalN.
From Stdlib.Strings Require Import Byte.
From stdpp Require Import base option list strings gmap.

Open Scope Z_scope.

(** ** math/big *)

Module BigFloat.

(** [_W]: the size of a [big.Word] on a 64-bit platform. *)
Definition _W : Z := 64.

(** [Int.BitLen]: the length of the absolute value in bits; 0 for 0. *)
Definition bitLen (x : Z) : Z :=
  if Z.abs x =? 0 then 0 else Z.log2 (Z.abs x) + 1.

(** A [nat] is a normalised slice of words, least significant word first;
    it is modelled by its value, and its length in words is recovered from
    the value. Mantissas of [Float]s always have their top bit set, so for
    them too the slice length is [nat_len]. *)
Definition nat_len (m : Z) : Z := (bitLen m + (_W - 1)) / _W.

(** [nat.sticky i]: 1 if one of the [i] least significant bits is set. *)
Definition sticky (x : Z) (i : Z) : Z :=
  if x mod 2 ^ i =? 0 then 0 else 1.

(** [nat.trailingZeroBits]. *)
Fixpoint pos_ctz (p : positive) : Z :=
  match p with
  | xO p' => 1 + pos_ctz p'
  | _ => 0
  end.

Definition trailingZeroBits (x : Z) : Z :=
  match x with
  | Zpos p => pos_ctz p
  | _ => 0
  end.

(** [fnorm m]: shift [m] left until the top bit of its top word is set;
    returns the shifted mantissa and the shift. *)
Definition fnorm (m : Z) : Z * Z :=
  if 0 <? nat_len m then
    let s := nat_len m * _W - bitLen m in
    (if 0 <? s then Z.shiftl m s else m, s)
  else (m, 0).

Inductive form := zero | finite | inf.

Definition form_eqb (a b : form) : bool :=
  match a, b with
  | zero, zero | finite, finite | inf, inf => true
  | _, _ => false
  end.

(** [big.Float]: x = sign * 0.mant * 2^exp with the top bit of [mant] set.
    The rounding mode is left out: the program never calls [SetMode], so it
    is the zero value [ToNearestEven] throughout. The accuracy field [acc]
    is never read by the program and is left out too. *)
Record Float := mkFloat {
  prec : Z;
  neg : bool;
  fform : form;
  mant : Z;
  exp : Z
}.

Definition MaxExp : Z := 2147483647.
Definition MinExp : Z := -2147483648.

(** [new(big.Float)] *)
Definition newFloat : Float := mkFloat 0 false zero 0 0.

(** [Float.round], mode [ToNearestEven]. *)
Definition round (z : Float) (sbit : Z) : Float :=
  if negb (form_eqb (fform z) finite) then z else
  let m := nat_len (mant z) in
  let bits := m * _W in
  if bits <=? prec z then z else
  let r := bits - prec z - 1 in
  let rbit := Z.land (Z.b2z (Z.testbit (mant z) r)) 1 in
  let sbit := if sbit =? 0 then sticky (mant z) r else sbit in
  let sbit := Z.land sbit 1 in
  let n := (prec z + (_W - 1)) / _W in
  let mant1 := if n <? m then Z.shiftr (mant z) ((m - n) * _W) else mant z in
  let ntz := n * _W - prec z in
  let lsb := Z.shiftl 1 ntz in
  let inc :=
    negb (Z.lor rbit sbit =? 0) &&
    (negb (rbit =? 0) && (negb (sbit =? 0) || negb (Z.land mant1 lsb =? 0))) in
  let sum := mant1 + lsb in
  let carry := inc && (2 ^ (n * _W) <=? sum) in
  if carry && (MaxExp <=? exp z) then
    (* exponent overflow *)
    mkFloat (prec z) (neg z) inf (sum mod 2 ^ (n * _W)) (exp z)
  else
    let mant2 :=
      if carry then Z.lor (Z.shiftr (sum mod 2 ^ (n * _W)) 1) (2 ^ (n * _W - 1))
      else if inc then sum
      else mant1 in
    let exp2 := if carry then exp z + 1 else exp z in
    mkFloat (prec z) (neg z) finite (Z.ldiff mant2 (lsb - 1)) exp2.

(** [Float.setExpAndRound] *)
Definition setExpAndRound (z : Float) (e : Z) (sbit : Z) : Float :=
  if e <? MinExp then mkFloat (prec z) (neg z) zero (mant z) (exp z)
  else if MaxExp <? e then mkFloat (prec z) (neg z) inf (mant z) (exp z)
  else round (mkFloat (prec z) (neg z) finite (mant z) e) sbit.

(** [Float.SetInt]; [bits] is a [uint32]. *)
Definition SetInt (z : Float) (x : Z) : Float :=
  let bits := bitLen x mod 2 ^ 32 in
  let p := if prec z =? 0 then Z.max bits 64 else prec z in
  if x =? 0 then mkFloat p (x <? 0) zero (mant z) (exp z)
  else
    setExpAndRound (mkFloat p (x <? 0) (fform z) (fst (fnorm (Z.abs x))) (exp z))
                   bits 0.

(** [Float.uquo]: z = x / y for finite, non-zero x and y, sign ignored. *)
Definition uquo (z x y : Float) : Float :=
  let n := prec z / _W + 1 in
  let d := n - nat_len (mant x) + nat_len (mant y) in
  let xadj := if 0 <? d then Z.shiftl (mant x) (d * _W) else mant x in
  let d' := nat_len xadj - nat_len (mant y) in
  let q := xadj / mant y in
  let r := xadj mod mant y in
  let e := exp x - exp y - (d' - nat_len q) * _W in
  let sbit := if r =? 0 then 0 else 1 in
  let '(qn, s) := fnorm q in
  setExpAndRound (mkFloat (prec z) (neg z) (fform z) qn (exp z)) (e - s) sbit.

(** [Float.Quo]; [None] is the [ErrNaN] panic of 0/0 and Inf/Inf. *)
Definition Quo (z x y : Float) : option Float :=
  let p := if prec z =? 0 then Z.max (prec x) (prec y) else prec z in
  let z := mkFloat p (xorb (neg x) (neg y)) (fform z) (mant z) (exp z) in
  if form_eqb (fform x) finite && form_eqb (fform y) finite then
    Some (uquo z x y)
  else if (form_eqb (fform x) zero && form_eqb (fform y) zero)
       || (form_eqb (fform x) inf && form_eqb (fform y) inf) then
    None
  else if form_eqb (fform x) zero || form_eqb (fform y) inf then
    Some (mkFloat p (neg z) zero (mant z) (exp z))
  else
    Some (mkFloat p (neg z) inf (mant z) (exp z)).

(** *** decimal.go *)

(** [nat.utoa 10]: the decimal digits of a natural number, ["0"] for 0. *)
Definition utoa (m : Z) : list ascii :=
  list_ascii_of_string (NilZero.string_of_uint (N.to_uint (Z.to_N m))).

Definition digit_val (c : ascii) : Z := Z.of_N (N_of_ascii c) - 48.

Definition digits_val (ds : list ascii) : Z :=
  fold_left (fun acc c => acc * 10 + digit_val c) ds 0.

(** [decimal]: 0.mant * 10^exp, [mant] holding ASCII digits without
    trailing zeros. *)
Record decimal := mkDecimal {
  dmant : list ascii;
  dexp : Z
}.

Definition zlen {A} (l : list A) : Z := Z.of_nat (length l).

(** [decimal.at] *)
Definition dat (d : decimal) (i : Z) : ascii :=
  if (0 <=? i) && (i <? zlen (dmant d)) then
    default "0"%char (dmant d !! Z.to_nat i)
  else "0"%char.

Fixpoint trim_zeros_rev (l : list ascii) : list ascii :=
  match l with
  | c :: l' => if Ascii.eqb c "0" then trim_zeros_rev l' else l
  | [] => []
  end.

(** the loop [for i > 0 && mant[i-1] == '0' { i-- }] *)
Definition strip_trailing_zeros (l : list ascii) : list ascii :=
  rev (trim_zeros_rev (rev l)).

(** [trim] *)
Definition trim (x : decimal) : decimal :=
  let m := strip_trailing_zeros (dmant x) in
  mkDecimal m (if zlen m =? 0 then 0 else dexp x).

(** [shr x s]: x / 2^s, exactly. The library divides digit by digit
    (shift and subtract); the result is the trimmed decimal of the exact
    quotient, which is what is computed here: with D the integer written by
    the digits, D / 2^s = D * 5^s / 10^s. *)
Definition shr (x : decimal) (s : Z) : decimal :=
  if zlen (dmant x) =? 0 then mkDecimal [] (dexp x)
  else
    let ds := utoa (digits_val (dmant x) * 5 ^ s) in
    trim (mkDecimal ds (dexp x + (zlen ds - zlen (dmant x)) - s)).

(** [decimal.init m shift]: x = m * 2^shift, exactly. *)
Definition dinit (m : Z) (shift : Z) : decimal :=
  if m =? 0 then mkDecimal [] 0 else
  let s := if shift <? 0 then Z.min (- shift) (trailingZeroBits m) else 0 in
  let m := Z.shiftr m s in
  let shift := shift + s in
  let m := if 0 <? shift then Z.shiftl m shift else m in
  let shift := if 0 <? shift then 0 else shift in
  let s := utoa m in
  let x := mkDecimal (strip_trailing_zeros s) (zlen s) in
  if shift <? 0 then shr x (- shift) else x.

(** [shouldRoundUp] *)
Definition shouldRoundUp (x : decimal) (n : Z) : bool :=
  if Ascii.eqb (dat x n) "5" && (n + 1 =? zlen (dmant x)) then
    (0 <? n) && Z.odd (digit_val (dat x (n - 1)))
  else
    Z.of_N (N_of_ascii "5") <=? Z.of_N (N_of_ascii (dat x n)).

(** the loop [for n > 0 && mant[n-1] >= '9' { n-- }] of [roundUp], on the
    reversed prefix: drops the trailing nines. *)
Fixpoint drop_nines_rev (l : list ascii) : list ascii :=
  match l with
  | c :: l' =>
      if Z.of_N (N_of_ascii "9") <=? Z.of_N (N_of_ascii c)
      then drop_nines_rev l' else l
  | [] => []
  end.

Definition ascii_succ (c : ascii) : ascii := ascii_of_N (N_of_ascii c + 1).

(** [decimal.roundUp] *)
Definition roundUp (x : decimal) (n : Z) : decimal :=
  if (n <? 0) || (zlen (dmant x) <=? n) then x else
  match drop_nines_rev (rev (take (Z.to_nat n) (dmant x))) with
  | [] => mkDecimal ["1"%char] (dexp x + 1)
  | c :: l' => mkDecimal (rev (ascii_succ c :: l')) (dexp x)
  end.

(** [decimal.roundDown] *)
Definition roundDown (x : decimal) (n : Z) : decimal :=
  if (n <? 0) || (zlen (dmant x) <=? n) then x else
  trim (mkDecimal (take (Z.to_nat n) (dmant x)) (dexp x)).

(** [decimal.round] *)
Definition dround (x : decimal) (n : Z) : decimal :=
  if (n <? 0) || (zlen (dmant x) <=? n) then x
  else if shouldRoundUp x n then roundUp x n
  else roundDown x n.

(** *** ftoa.go *)

(** [fmtF]: ddddddd.ddddd *)
Definition fmtF (prec : Z) (d : decimal) : list ascii :=
  (if 0 <? dexp d then
     let m := Z.min (zlen (dmant d)) (dexp d) in
     take (Z.to_nat m) (dmant d) ++ replicate (Z.to_nat (dexp d - m)) "0"%char
   else ["0"%char])
  ++
  (if 0 <? prec then
     "."%char :: map (fun i => dat d (dexp d + Z.of_nat i)) (seq 0 (Z.to_nat prec))
   else []).

(** [Float.Text 'f' prec] for [prec >= 0] (the program passes 18). *)
Definition Text_f (x : Float) (prec : Z) : string :=
  string_of_list_ascii (
    (if neg x then ["-"%char] else []) ++
    match fform x with
    | inf => (if neg x then [] else ["+"%char]) ++ list_ascii_of_string "Inf"
    | f =>
        let d := match f with
                 | finite => dinit (mant x) (exp x - bitLen (mant x))
                 | _ => mkDecimal [] 0
                 end in
        fmtF prec (dround d (dexp d + prec))
    end).

(** [Int.String] *)
Definition Int_String (x : Z) : string :=
  string_of_list_ascii ((if x <? 0 then ["-"%char] else []) ++ utoa (Z.abs x)).

(** [new(big.Int).Exp(x, y, nil)]: x^y, and 1 for y <= 0. *)
Definition Int_Exp (x y : Z) : Z := if y <=? 0 then 1 else x ^ y.

(** ASCII decimal digits. *)
Definition is_digit (c : ascii) : bool :=
  (48 <=? N_of_ascii c)%N && (N_of_ascii c <=? 57)%N.

(** A list of ASCII digits. *)
Abbreviation digits l := (Forall (fun c => is_digit c = true) l).

(** [Float_is x num den]: the value of [x] is exactly the fraction
    [num / den] (for [den > 0]); an infinity is no fraction. *)
Definition Float_is (x : Float) (num den : Z) : bool :=
  match fform x with
  | zero => num =? 0
  | inf => false
  | finite =>
      let sh := exp x - bitLen (mant x) in
      let m := if neg x then - mant x else mant x in
      if 0 <=? sh then m * 2 ^ sh * den =? num
      else m * den =? num * 2 ^ (- sh)
  end.

(** [Float_near x num den]: the value of [x] is within half a unit in the
    last place of [x] of the fraction [num / den] (for [den > 0]): with
    [x = mant * 2^sh] and one unit in the last place being
    [2^(bitLen mant - prec) * 2^sh], twice the distance is at most one
    unit, both sides scaled to integers. *)
Definition Float_near (x : Float) (num den : Z) : bool :=
  match fform x with
  | zero => num =? 0
  | inf => false
  | finite =>
      let sh := exp x - bitLen (mant x) in
      let ulp := 2 ^ (bitLen (mant x) - prec x) in
      let m := if neg x then - mant x else mant x in
      if 0 <=? sh
      then 2 * Z.abs (m * 2 ^ sh * den - num) <=? ulp * 2 ^ sh * den
      else 2 * Z.abs (m * den - num * 2 ^ (- sh)) <=? ulp * den
  end.

(** *** Numerals and their values *)

(** A numeral without leading zero: digits, the first of them not 0. *)
Definition canon (l : list ascii) : Prop :=
  digits l /\ exists c l', l = c :: l' /\ c <> "0"%char.

(** [Dec I t]: the trimmed [decimal] of [I / 10^t]. *)
Definition Dec (I t : Z) : decimal :=
  mkDecimal (strip_trailing_zeros (utoa I)) (zlen (utoa I) - t).

(** [fixed18 N]: the number [N / 10^18] written in full, with a point and
    exactly eighteen fraction digits: the integer quotient, then the
    remainder padded with zeros on the left. *)
Definition pad18 (r : Z) : list ascii :=
  replicate (18 - length (utoa r)) "0"%char ++ utoa r.

Definition fixed18_list (N : Z) : list ascii :=
  utoa (N / 10 ^ 18) ++ "."%char :: pad18 (N mod 10 ^ 18).

Definition fixed18 (N : Z) : string :=
  string_of_list_ascii (fixed18_list N).

(** [Text_near x N]: the integer [N], counted in units of [10^-18], is
    within half a unit of the value of the non-negative [x]; with
    [x = mant * 2^sh], both sides are scaled to integers. *)
Definition Text_near (x : Float) (N : Z) : bool :=
  match fform x with
  | zero => N =? 0
  | inf => false
  | finite =>
      let sh := exp x - bitLen (mant x) in
      if 0 <=? sh then N =? mant x * 2 ^ sh * 10 ^ 18
      else 2 * Z.abs (N * 2 ^ (- sh) - mant x * 10 ^ 18) <=? 2 ^ (- sh)
  end.

End BigFloat.

(** ** Go run time: traces, [log.Fatal], panics and [defer] *)

Module Runtime.

Definition bytes := list byte.
Definition address := Z.
Definition Client := nat.

(** [ethereum.CallMsg], the fields that the zero value leaves empty
    included where a claim reads them. *)
Record CallMsg := mkCallMsg {
  From : address;
  To : option address;
  Gas : Z;
  Value : option Z;
  Data : bytes
}.

(** What the process does to the outside, in order. *)
Inductive Event :=
| EvLog (line : string)
| EvDial (rawurl : string)
| EvCallContract (c : Client) (msg : CallMsg) (blockNumber : option Z)
| EvClose (c : Client)
| EvPrint (out : string).

(** Why a goroutine stops before the end of [main]: [os.Exit] (from
    [log.Fatal] and [log.Fatalf]) or a run-time panic. *)
Inductive Stop :=
| Exited (code : Z)
| Panicked (msg : string).

Record State := mkState {
  trace : list Event;
  deferred : list Event
}.

Definition M (A : Type) : Type := State -> State * (A + Stop).

Definition ret {A} (a : A) : M A := fun s => (s, inl a).

Definition bind {A B} (m : M A) (k : A -> M B) : M B :=
  fun s =>
    match m s with
    | (s', inl a) => k a s'
    | (s', inr e) => (s', inr e)
    end.

Definition emit (e : Event) : M unit :=
  fun s => (mkState (trace s ++ [e]) (deferred s), inl tt).

(** [defer f()]: the call is pushed; the last pushed runs first. *)
Definition defer (e : Event) : M unit :=
  fun s => (mkState (trace s) (e :: deferred s), inl tt).

Definition stop {A} (e : Stop) : M A := fun s => (s, inr e).

Declare Scope go_scope.
Delimit Scope go_scope with go.
Notation "x <- m ;; k" := (bind m (fun x => k))
  (at level 100, m at next level, right associativity) : go_scope.
Notation "m ;;; k" := (bind m (fun _ => k))
  (at level 100, right associativity) : go_scope.

Open Scope go_scope.

(** [log.Println] *)
Definition log_Println (line : string) : M unit := emit (EvLog line).

(** [log.Fatal], [log.Fatalf]: print, then [os.Exit(1)]. The process ends
    at once; deferred functions are not run. *)
Definition log_Fatal {A} (line : string) : M A :=
  emit (EvLog line) ;;; stop (Exited 1).

(** [fmt.Printf] *)
Definition fmt_Printf (out : string) : M unit := emit (EvPrint out).

(** [s[i]] on a slice: a run-time panic when [i] is out of range. *)
Definition index {A} (s : list A) (i : nat) : M A :=
  match s !! i with
  | Some a => ret a
  | None => stop (Panicked "index out of range")
  end.

(** The result of a process. *)
Record Outcome := mkOutcome {
  events : list Event;
  status : Z;
  panic : option string
}.

(** Run [main] as the main goroutine: a normal return runs the deferred
    calls and exits with status 0; a panic runs them too while it unwinds,
    then the run time exits with status 2; [os.Exit] ends the process with
    its code and runs nothing. *)
Definition run_main (m : M unit) : Outcome :=
  match m (mkState [] []) with
  | (s, inl _) => mkOutcome (trace s ++ deferred s) 0 None
  | (s, inr (Panicked msg)) => mkOutcome (trace s ++ deferred s) 2 (Some msg)
  | (s, inr (Exited c)) => mkOutcome (trace s) c None
  end.

End Runtime.

Import BigFloat Runtime.
Open Scope go_scope.

(** ** examples/go/main.go *)

Module Program.

Open Scope string_scope.

(** A Go [(T, error)] pair. *)
Inductive result (A : Type) :=
| Ok (a : A)
| Err (e : string).
Arguments Ok {A} a.
Arguments Err {A} e.

(** The content of the two ABI constants, [multicall3ABI] and [daiABI]:
    the JSON text, read as data. *)
#[warnings="-register-all"]
Inductive abiType :=
| TAddress
| TBytes
| TString
| TUint (bits : Z)
| TTuple (names : list string) (fields : list abiType)
| TSlice (elem : abiType).

Record Method := mkMethod {
  mname : string;
  inputs : list (string * abiType);
  outputs : list (string * abiType);
  stateMutability : string
}.

Definition multicall3ABI : list Method :=
  [ mkMethod "aggregate"
      [("calls", TSlice (TTuple ["target"; "callData"] [TAddress; TBytes]))]
      [("blockNumber", TUint 256); ("returnData", TSlice TBytes)]
      "payable" ].

Definition daiABI : list Method :=
  [ mkMethod "symbol" [] [("", TString)] "view";
    mkMethod "decimals" [] [("", TUint 8)] "view";
    mkMethod "balanceOf" [("", TAddress)] [("", TUint 256)] "view" ].

(** Known contract addresses *)
Definition multicall3Address : address := 0xcA11bde05977b3631167028862bE2a173976CA11.
Definition daiAddress : address := 0x6B175474E89094C44Da98b954EedeAC495271d0F.
Definition vitalikAddress : address := 0xd8dA6BF26964aF9D7eEd9e03E53415D37aA96045.

(** Call represents a single call in the multicall *)
Record Call := mkCall {
  Target : address;
  CallData : bytes
}.

(** AggregateResult represents the result of a multicall aggregate *)
Record AggregateResult := mkAggregateResult {
  BlockNumber : Z;
  ReturnData : list bytes
}.

(** A parsed [abi.ABI]. *)
Record ABI := mkABI { Methods : list Method }.

(** The arguments that the program passes to [Pack]. *)
Inductive Arg :=
| ArgAddress (a : address)
| ArgCalls (cs : list Call).

(** The external collaborators: the process environment, the [.env] file
    as [godotenv.Load] reads it, the RPC node behind [ethclient], and the
    ABI codec of go-ethereum. [UnpackIntoInterface] is given once per type
    of the variable it fills. *)
Record World := mkWorld {
  environ : gmap string string;
  dotenv : result (gmap string string);
  ethclient_Dial : string -> result Client;
  abi_JSON : list Method -> result ABI;
  abi_Pack : ABI -> string -> list Arg -> result bytes;
  client_CallContract : Client -> CallMsg -> option Z -> result bytes;
  unpack_AggregateResult : ABI -> string -> bytes -> result AggregateResult;
  unpack_string : ABI -> string -> bytes -> result string;
  unpack_uint8 : ABI -> string -> bytes -> result byte;
  unpack_bigInt : ABI -> string -> bytes -> result Z
}.

(** [godotenv.Load]: the pairs of the file are added to the environment;
    a variable that is already set keeps its value. *)
Definition godotenv_Load (w : World) : gmap string string :=
  match dotenv w with
  | Ok file => environ w ∪ file
  | Err _ => environ w
  end.

(** [os.Getenv]: the empty string when the variable is not set. *)
Definition os_Getenv (env : gmap string string) (key : string) : string :=
  default "" (env !! key).

(** [if err != nil { log.Fatalf(ctx + ": %v", err) }] *)
Definition orFatal {A} (r : result A) (ctx : string) : M A :=
  match r with
  | Ok a => ret a
  | Err e => log_Fatal (ctx ++ e)
  end.

Definition nl : string := String "010"%char "".

(** [int64(decimals)] for [decimals : uint8] *)
Definition int64_of_uint8 (b : byte) : Z := Z.of_N (Byte.to_N b).

(** [uint8(n)] *)
Definition uint8 (n : Z) : byte :=
  default x00 (Byte.of_N (Z.to_N (n mod 256))).

(** Line 165: the quotient of the balance by [10^decimals] as a
    [big.Float]; [None] is the panic of [Quo]. *)
Definition daiBalanceFloat (daiBalance : Z) (decimals : byte) : option Float :=
  Quo newFloat (SetInt newFloat daiBalance)
               (SetInt newFloat (Int_Exp 10 (int64_of_uint8 decimals))).

(** Line 171: [daiBalanceFloat.Text('f', 18)]. *)
Definition balanceText (daiBalance : Z) (decimals : byte) : option string :=
  (fun f => Text_f f 18) <$> daiBalanceFloat daiBalance decimals.

(** [main], lines 75 to 145: configuration, connection, the three packed
    calls, the packed batch, the remote call and the decoding of its
    answer. The block hands the two locals that the rest of [main] reads,
    [daiABIParsed] and [aggregateResult], to the next one. *)
Definition main_aggregate (w : World) : M (ABI * AggregateResult) :=
  (* Load environment variables *)
  let env := godotenv_Load w in
  match dotenv w with
  | Err _ => log_Println "No .env file found, using system environment variables"
  | Ok _ => ret tt
  end ;;;
  (* Get RPC URL from environment *)
  let rpcURL := os_Getenv env "MAINNET_RPC_URL" in
  (if String.eqb rpcURL "" then
     log_Fatal "MAINNET_RPC_URL environment variable is required"
   else ret tt) ;;;
  (* Connect to Ethereum client *)
  emit (EvDial rpcURL) ;;;
  client <- orFatal (ethclient_Dial w rpcURL)
              "Failed to connect to the Ethereum client: " ;;
  defer (EvClose client) ;;;
  (* Parse ABIs *)
  multicallABI <- orFatal (abi_JSON w multicall3ABI)
                    "Failed to parse Multicall3 ABI: " ;;
  daiABIParsed <- orFatal (abi_JSON w daiABI) "Failed to parse DAI ABI: " ;;
  (* Prepare calls *)
  let calls : list Call := [] in
  symbolData <- orFatal (abi_Pack w daiABIParsed "symbol" [])
                  "Failed to pack symbol call: " ;;
  let calls := (calls ++ [mkCall daiAddress symbolData])%list in
  decimalsData <- orFatal (abi_Pack w daiABIParsed "decimals" [])
                    "Failed to pack decimals call: " ;;
  let calls := (calls ++ [mkCall daiAddress decimalsData])%list in
  balanceData <- orFatal (abi_Pack w daiABIParsed "balanceOf" [ArgAddress vitalikAddress])
                   "Failed to pack balanceOf call: " ;;
  let calls := (calls ++ [mkCall daiAddress balanceData])%list in
  (* Pack the multicall *)
  multicallData <- orFatal (abi_Pack w multicallABI "aggregate" [ArgCalls calls])
                     "Failed to pack multicall: " ;;
  (* Execute the multicall *)
  let msg := mkCallMsg 0 (Some multicall3Address) 0 None multicallData in
  emit (EvCallContract client msg None) ;;;
  result <- orFatal (client_CallContract w client msg None)
              "Failed to execute multicall: " ;;
  (* Unpack the result *)
  aggregateResult <- orFatal (unpack_AggregateResult w multicallABI "aggregate" result)
                       "Failed to unpack multicall result: " ;;
  ret (daiABIParsed, aggregateResult).

(** [main], lines 147 to 171: the three per-call decodes, the division and
    the four output lines. *)
Definition main_display (w : World) (daiABIParsed : ABI)
    (aggregateResult : AggregateResult) : M unit :=
  r0 <- index (ReturnData aggregateResult) 0 ;;
  symbol <- orFatal (unpack_string w daiABIParsed "symbol" r0)
              "Failed to unpack symbol: " ;;
  r1 <- index (ReturnData aggregateResult) 1 ;;
  decimals <- orFatal (unpack_uint8 w daiABIParsed "decimals" r1)
                "Failed to unpack decimals: " ;;
  r2 <- index (ReturnData aggregateResult) 2 ;;
  daiBalance <- orFatal (unpack_bigInt w daiABIParsed "balanceOf" r2)
                  "Failed to unpack balance: " ;;
  (* Convert DAI balance to human readable format *)
  daiBalanceFloat <- match daiBalanceFloat daiBalance decimals with
                     | Some f => ret f
                     | None => stop (Panicked "division of zero by zero or infinity by infinity")
                     end ;;
  (* display results *)
  fmt_Printf ("Block Number: " ++ Int_String (BlockNumber aggregateResult) ++ nl) ;;;
  fmt_Printf ("DAI Symbol: " ++ symbol ++ nl) ;;;
  fmt_Printf ("DAI Decimals: " ++ Int_String (int64_of_uint8 decimals) ++ nl) ;;;
  fmt_Printf ("Vitalik's " ++ symbol ++ " balance: " ++ Text_f daiBalanceFloat 18 ++ nl).

(** [func main()]: the two blocks in sequence. *)
Definition main (w : World) : M unit :=
  r <- main_aggregate w ;;
  main_display w (fst r) (snd r).

(** The process: [main] run as the main goroutine. *)
Definition run (w : World) : Outcome := run_main (main w).

(** The four lines of a normal completion. *)
Definition output (blockNumber : Z) (symbol : string) (decimals : byte)
    (balance : string) : list Event :=
  [ EvPrint ("Block Number: " ++ Int_String blockNumber ++ nl);
    EvPrint ("DAI Symbol: " ++ symbol ++ nl);
    EvPrint ("DAI Decimals: " ++ Int_String (int64_of_uint8 decimals) ++ nl);
    EvPrint ("Vitalik's " ++ symbol ++ " balance: " ++ balance ++ nl) ].

Definition is_print (e : Event) : bool :=
  match e with EvPrint _ => true | _ => false end.

Definition is_network (e : Event) : bool :=
  match e with EvDial _ | EvCallContract _ _ _ => true | _ => false end.

Definition is_call (e : Event) : bool :=
  match e with EvCallContract _ _ _ => true | _ => false end.

Definition is_close (e : Event) : bool :=
  match e with EvClose _ => true | _ => false end.

Definition is_ok {A} (r : result A) : bool :=
  match r with Ok _ => true | Err _ => false end.

(** The three calls of the batch, in the order of the [append]s. *)
Definition batch (symbolData decimalsData balanceData : bytes) : list Call :=
  [ mkCall daiAddress symbolData;
    mkCall daiAddress decimalsData;
    mkCall daiAddress balanceData ].

(** The decode that [main] applies to entry [i] of [ReturnData]: the method
    name and whether the codec accepts the entry under that method. *)
Definition shape_name (i : nat) : string :=
  match i with
  | O => "symbol"
  | S O => "decimals"
  | _ => "balanceOf"
  end.

Definition entry_decodes (w : World) (daiABIParsed : ABI) (i : nat) (r : bytes) : bool :=
  match i with
  | O => is_ok (unpack_string w daiABIParsed (shape_name i) r)
  | S O => is_ok (unpack_uint8 w daiABIParsed (shape_name i) r)
  | _ => is_ok (unpack_bigInt w daiABIParsed (shape_name i) r)
  end.

(** The arguments of the [i]-th packed call. *)
Definition call_args (i : nat) : list Arg :=
  match i with
  | S (S _) => [ArgAddress vitalikAddress]
  | _ => []
  end.

(** *** Where a run can stop

    The locals of [main], and how far a run has got: each predicate says
    that the steps up to a point returned without error and names what
    they returned. *)
Record Locals := mkLocals {
  rpcURL : string;
  client : Client;
  multicallABI : ABI;
  daiABIParsed : ABI;
  symbolData : bytes;
  decimalsData : bytes;
  balanceData : bytes;
  multicallData : bytes;
  result_ : bytes;
  aggregateResult : AggregateResult
}.

(** The message of line 131. *)
Definition callMsg (multicallData : bytes) : CallMsg :=
  mkCallMsg 0 (Some multicall3Address) 0 None multicallData.

Definition configured (w : World) (l : Locals) : Prop :=
  os_Getenv (godotenv_Load w) "MAINNET_RPC_URL" = rpcURL l /\ rpcURL l <> "".

Definition connected (w : World) (l : Locals) : Prop :=
  configured w l /\ ethclient_Dial w (rpcURL l) = Ok (client l).

Definition parsed (w : World) (l : Locals) : Prop :=
  connected w l /\
  abi_JSON w multicall3ABI = Ok (multicallABI l) /\
  abi_JSON w daiABI = Ok (daiABIParsed l).

Definition prepared (w : World) (l : Locals) : Prop :=
  parsed w l /\
  abi_Pack w (daiABIParsed l) "symbol" [] = Ok (symbolData l) /\
  abi_Pack w (daiABIParsed l) "decimals" [] = Ok (decimalsData l) /\
  abi_Pack w (daiABIParsed l) "balanceOf" [ArgAddress vitalikAddress]
    = Ok (balanceData l).

Definition packed (w : World) (l : Locals) : Prop :=
  prepared w l /\
  abi_Pack w (multicallABI l) "aggregate"
    [ArgCalls (batch (symbolData l) (decimalsData l) (balanceData l))]
    = Ok (multicallData l).

Definition decoded (w : World) (l : Locals) : Prop :=
  packed w l /\
  client_CallContract w (client l) (callMsg (multicallData l)) None
    = Ok (result_ l) /\
  unpack_AggregateResult w (multicallABI l) "aggregate" (result_ l)
    = Ok (aggregateResult l).

(** The log line of a failed [godotenv.Load], if any. *)
Definition loadlog (w : World) : list Event :=
  match dotenv w with
  | Err _ => [EvLog "No .env file found, using system environment variables"]
  | Ok _ => []
  end.

(** The trace up to the connection and up to the remote call. *)
Definition dialled (w : World) (l : Locals) : list Event :=
  (loadlog w ++ [EvDial (rpcURL l)])%list.

Definition called (w : World) (l : Locals) : list Event :=
  (dialled w l ++ [EvCallContract (client l) (callMsg (multicallData l)) None])%list.

(** [Fatal w evs]: some step of [main] other than [godotenv.Load] returns
    an error (or the URL is empty) after all earlier steps succeeded, and
    [evs] is the trace up to and including the log line of that step. One
    constructor per [log.Fatal] and [log.Fatalf] of the source. *)
Inductive Fatal (w : World) : list Event -> Prop :=
| fatal_config :
    os_Getenv (godotenv_Load w) "MAINNET_RPC_URL" = "" ->
    Fatal w (loadlog w ++ [EvLog "MAINNET_RPC_URL environment variable is required"])
| fatal_dial l err :
    configured w l -> ethclient_Dial w (rpcURL l) = Err err ->
    Fatal w (dialled w l ++ [EvLog ("Failed to connect to the Ethereum client: " ++ err)])
| fatal_parse_multicall l err :
    connected w l -> abi_JSON w multicall3ABI = Err err ->
    Fatal w (dialled w l ++ [EvLog ("Failed to parse Multicall3 ABI: " ++ err)])
| fatal_parse_dai l err :
    connected w l -> abi_JSON w multicall3ABI = Ok (multicallABI l) ->
    abi_JSON w daiABI = Err err ->
    Fatal w (dialled w l ++ [EvLog ("Failed to parse DAI ABI: " ++ err)])
| fatal_pack_symbol l err :
    parsed w l ->
    abi_Pack w (daiABIParsed l) "symbol" [] = Err err ->
    Fatal w (dialled w l ++ [EvLog ("Failed to pack symbol call: " ++ err)])
| fatal_pack_decimals l err :
    parsed w l ->
    abi_Pack w (daiABIParsed l) "symbol" [] = Ok (symbolData l) ->
    abi_Pack w (daiABIParsed l) "decimals" [] = Err err ->
    Fatal w (dialled w l ++ [EvLog ("Failed to pack decimals call: " ++ err)])
| fatal_pack_balanceOf l err :
    parsed w l ->
    abi_Pack w (daiABIParsed l) "symbol" [] = Ok (symbolData l) ->
    abi_Pack w (daiABIParsed l) "decimals" [] = Ok (decimalsData l) ->
    abi_Pack w (daiABIParsed l) "balanceOf" [ArgAddress vitalikAddress] = Err err ->
    Fatal w (dialled w l ++ [EvLog ("Failed to pack balanceOf call: " ++ err)])
| fatal_pack_multicall l err :
    prepared w l ->
    abi_Pack w (multicallABI l) "aggregate"
      [ArgCalls (batch (symbolData l) (decimalsData l) (balanceData l))] = Err err ->
    Fatal w (dialled w l ++ [EvLog ("Failed to pack multicall: " ++ err)])
| fatal_execute l err :
    packed w l ->
    client_CallContract w (client l) (callMsg (multicallData l)) None = Err err ->
    Fatal w (called w l ++ [EvLog ("Failed to execute multicall: " ++ err)])
| fatal_unpack_result l err :
    packed w l ->
    client_CallContract w (client l) (callMsg (multicallData l)) None = Ok (result_ l) ->
    unpack_AggregateResult w (multicallABI l) "aggregate" (result_ l) = Err err ->
    Fatal w (called w l ++ [EvLog ("Failed to unpack multicall result: " ++ err)])
| fatal_unpack_symbol l r0 err :
    decoded w l ->
    ReturnData (aggregateResult l) !! 0%nat = Some r0 ->
    unpack_string w (daiABIParsed l) "symbol" r0 = Err err ->
    Fatal w (called w l ++ [EvLog ("Failed to unpack symbol: " ++ err)])
| fatal_unpack_decimals l r0 symbol r1 err :
    decoded w l ->
    ReturnData (aggregateResult l) !! 0%nat = Some r0 ->
    unpack_string w (daiABIParsed l) "symbol" r0 = Ok symbol ->
    ReturnData (aggregateResult l) !! 1%nat = Some r1 ->
    unpack_uint8 w (daiABIParsed l) "decimals" r1 = Err err ->
    Fatal w (called w l ++ [EvLog ("Failed to unpack decimals: " ++ err)])
| fatal_unpack_balance l r0 symbol r1 decimals r2 err :
    decoded w l ->
    ReturnData (aggregateResult l) !! 0%nat = Some r0 ->
    unpack_string w (daiABIParsed l) "symbol" r0 = Ok symbol ->
    ReturnData (aggregateResult l) !! 1%nat = Some r1 ->
    unpack_uint8 w (daiABIParsed l) "decimals" r1 = Ok decimals ->
    ReturnData (aggregateResult l) !! 2%nat = Some r2 ->
    unpack_bigInt w (daiABIParsed l) "balanceOf" r2 = Err err ->
    Fatal w (called w l ++ [EvLog ("Failed to unpack balance: " ++ err)]).

(** [Success w evs]: every step after [godotenv.Load] returned without
    error, the three entries were in range, and [evs] is the trace of the
    whole run. *)
Inductive Success (w : World) : list Event -> Prop :=
| success_all l r0 symbol r1 decimals r2 daiBalance f :
    decoded w l ->
    ReturnData (aggregateResult l) !! 0%nat = Some r0 ->
    unpack_string w (daiABIParsed l) "symbol" r0 = Ok symbol ->
    ReturnData (aggregateResult l) !! 1%nat = Some r1 ->
    unpack_uint8 w (daiABIParsed l) "decimals" r1 = Ok decimals ->
    ReturnData (aggregateResult l) !! 2%nat = Some r2 ->
    unpack_bigInt w (daiABIParsed l) "balanceOf" r2 = Ok daiBalance ->
    daiBalanceFloat daiBalance decimals = Some f ->
    Success w (called w l
               ++ output (BlockNumber (aggregateResult l)) symbol decimals (Text_f f 18)
               ++ [EvClose (client l)]).

(** *** The aggregation contract *)

(** Modelled from the spec: the remote aggregation contract
    ([Multicall3.aggregate]), which the Go example calls and which is not
    among its sources. The spec's data model and glossary: it accepts a
    list of (target, payload) calls, executes them all within one
    invocation and returns the sequence number and one byte sequence per
    call, in the same order; a single failing inner call fails the entire
    batch. [exec] is the execution of one read-only call. *)
Definition aggregate (exec : Call -> option bytes) (blockNumber : Z)
    (calls : list Call) : option AggregateResult :=
  mkAggregateResult blockNumber <$> mapM exec calls.

(** Reordering a list by a list of positions. *)
Definition reorder {A} (positions : list nat) (l : list A) : option (list A) :=
  mapM (fun i => l !! i) positions.

(** [node_runs_aggregate w exec blockNumber]: the node behind
    [CallContract] answers every packed batch as the aggregation contract
    does, with [exec] for the inner calls, and the codec decodes the answer
    to what the contract returned; a failing inner call fails the call. *)
Definition node_runs_aggregate (w : World) (exec : Call -> option bytes)
    (blockNumber : Z) : Prop :=
  forall c mc calls data,
    abi_Pack w mc "aggregate" [ArgCalls calls] = Ok data ->
    match aggregate exec blockNumber calls with
    | Some agg =>
        exists raw,
          client_CallContract w c (callMsg data) None = Ok raw /\
          unpack_AggregateResult w mc "aggregate" raw = Ok agg
    | None => exists err, client_CallContract w c (callMsg data) None = Err err
    end.

(** *** Worlds to run the program in *)

Definition bytes_of_string (s : string) : bytes := list_byte_of_string s.

(** A node and a codec that answer with canned values: [Pack] returns the
    method name as bytes, the node returns [answer] for every call,
    [unpack_AggregateResult] decodes it to [agg], and the entries decode
    to [sym], [dec] and [bal]. *)
Definition canned (env : gmap string string) (file : result (gmap string string))
    (answer : result bytes) (agg : result AggregateResult)
    (sym : result string) (dec : result byte) (bal : result Z) : World :=
  mkWorld env file
    (fun _ => Ok 1%nat)
    (fun ms => Ok (mkABI ms))
    (fun _ name _ => Ok (bytes_of_string name))
    (fun _ _ _ => answer)
    (fun _ _ _ => agg)
    (fun _ _ _ => sym)
    (fun _ _ _ => dec)
    (fun _ _ _ => bal).

Definition env_with_url : gmap string string :=
  {[ "MAINNET_RPC_URL" := "https://rpc.example" ]}.

Definition no_file : result (gmap string string) :=
  Err "open .env: no such file or directory".

(** Everything succeeds; there is no [.env] file. *)
Definition happy : World :=
  canned env_with_url no_file
    (Ok [x01])
    (Ok (mkAggregateResult 12345678 [[x0a]; [x0b]; [x0c]]))
    (Ok "DAI") (Ok (uint8 18)) (Ok 1234567890123456789).

(** The variable is set nowhere. *)
Definition unconfigured : World :=
  canned ∅ no_file (Ok []) (Err "") (Err "") (Err "") (Err "").

(** The remote aggregated call reverts. *)
Definition reverting : World :=
  canned env_with_url (Ok ∅)
    (Err "execution reverted: Multicall3: call failed")
    (Err "") (Err "") (Err "") (Err "").

(** The answer decodes to a single entry, which is not a string. *)
Definition short_undecodable : World :=
  canned env_with_url (Ok ∅)
    (Ok [x01])
    (Ok (mkAggregateResult 12345678 [[]]))
    (Err "abi: attempting to unmarshal an empty string while arguments are expected")
    (Ok (uint8 18)) (Ok 0).

(** The answer decodes to two entries, both well formed. *)
Definition short_decodable : World :=
  canned env_with_url (Ok ∅)
    (Ok [x01])
    (Ok (mkAggregateResult 12345678 [[x0a]; [x0b]]))
    (Ok "DAI") (Ok (uint8 18)) (Ok 0).

(** Equality of batches, to compute with. *)
Fixpoint bytes_eqb (a b : bytes) : bool :=
  match a, b with
  | [], [] => true
  | x :: a', y :: b' => Byte.eqb x y && bytes_eqb a' b'
  | _, _ => false
  end.

Definition call_eqb (a b : Call) : bool :=
  (Target a =? Target b)%Z && bytes_eqb (CallData a) (CallData b).

Fixpoint calls_eqb (a b : list Call) : bool :=
  match a, b with
  | [], [] => true
  | x :: a', y :: b' => call_eqb x y && calls_eqb a' b'
  | _, _ => false
  end.

(** A node that runs the aggregation contract over inner calls that echo
    their call data, behind a codec that packs a method to its name and
    knows the one batch of the program. *)
Definition echo_exec (c : Call) : option bytes := Some (CallData c).

Definition echo_batch : list Call :=
  batch (bytes_of_string "symbol") (bytes_of_string "decimals")
        (bytes_of_string "balanceOf").

Definition echo_node : World :=
  mkWorld env_with_url (Ok ∅)
    (fun _ => Ok 1%nat)
    (fun ms => Ok (mkABI ms))
    (fun _ name args =>
       match args with
       | [ArgCalls cs] =>
           if calls_eqb cs echo_batch then Ok [x01] else Err "unknown batch"
       | _ => Ok (bytes_of_string name)
       end)
    (fun _ _ _ => Ok [x02])
    (fun _ _ _ =>
       Ok (mkAggregateResult 12345678
             [bytes_of_string "symbol"; bytes_of_string "decimals";
              bytes_of_string "balanceOf"]))
    (fun _ _ _ => Ok "DAI")
    (fun _ _ _ => Ok (uint8 18))
    (fun _ _ _ => Ok 1234567890123456789).

(** The locals of [main] in the canned worlds, up to the remote call and
    after the decoding of its answer. *)
Definition reverting_locals : Locals :=
  mkLocals "https://rpc.example" 1%nat (mkABI multicall3ABI) (mkABI daiABI)
    (bytes_of_string "symbol") (bytes_of_string "decimals")
    (bytes_of_string "balanceOf") (bytes_of_string "aggregate")
    [] (mkAggregateResult 0 []).

Definition short_locals (agg : AggregateResult) : Locals :=
  mkLocals "https://rpc.example" 1%nat (mkABI multicall3ABI) (mkABI daiABI)
    (bytes_of_string "symbol") (bytes_of_string "decimals")
    (bytes_of_string "balanceOf") (bytes_of_string "aggregate")
    [x01] agg.

(** *** More to observe in a trace *)

Definition is_dial (e : Event) : bool :=
  match e with EvDial _ => true | _ => false end.

Definition is_log (e : Event) : bool :=
  match e with EvLog _ => true | _ => false end.

(** [Panics w evs]: the answer was decoded, the entries before position
    [i] decoded under their methods, and position [i] of [ReturnData] is
    out of range; [evs] is the trace of the whole run, the deferred
    [Close] included. One constructor per indexing of the source. *)
Inductive Panics (w : World) : list Event -> Prop :=
| panics_at_0 l :
    decoded w l ->
    ReturnData (aggregateResult l) !! 0%nat = None ->
    Panics w (called w l ++ [EvClose (client l)])
| panics_at_1 l r0 symbol :
    decoded w l ->
    ReturnData (aggregateResult l) !! 0%nat = Some r0 ->
    unpack_string w (daiABIParsed l) "symbol" r0 = Ok symbol ->
    ReturnData (aggregateResult l) !! 1%nat = None ->
    Panics w (called w l ++ [EvClose (client l)])
| panics_at_2 l r0 symbol r1 decimals :
    decoded w l ->
    ReturnData (aggregateResult l) !! 0%nat = Some r0 ->
    unpack_string w (daiABIParsed l) "symbol" r0 = Ok symbol ->
    ReturnData (aggregateResult l) !! 1%nat = Some r1 ->
    unpack_uint8 w (daiABIParsed l) "decimals" r1 = Ok decimals ->
    ReturnData (aggregateResult l) !! 2%nat = None ->
    Panics w (called w l ++ [EvClose (client l)]).


(** Worlds where every collaborator answers and only the configuration
    differs: the variable set in both places, in the file only, and set
    to the empty string in the environment. *)
Definition answering (env : gmap string string)
    (file : result (gmap string string)) : World :=
  canned env file
    (Ok [x01])
    (Ok (mkAggregateResult 12345678 [[x0a]; [x0b]; [x0c]]))
    (Ok "DAI") (Ok (uint8 18)) (Ok 1234567890123456789).

Definition both_set : World :=
  answering {[ "MAINNET_RPC_URL" := "https://env.example" ]}
            (Ok {[ "MAINNET_RPC_URL" := "https://file.example" ]}).

Definition file_only : World :=
  answering ∅ (Ok {[ "MAINNET_RPC_URL" := "https://file.example" ]}).

Definition shadowed : World :=
  answering {[ "MAINNET_RPC_URL" := "" ]}
            (Ok {[ "MAINNET_RPC_URL" := "https://file.example" ]}).

End Program.

Import Program.

(** * Arithmetic and formatting of the balance *)

Section Balance.

Open Scope Z_scope.

Lemma bitLen_pos x : 0 < x -> bitLen x = Z.log2 x + 1.
Proof.
  intros H. unfold bitLen. rewrite Z.abs_eq by lia.
  destruct (Z.eqb_spec x 0); lia.
Qed.

Lemma bitLen_0 : bitLen 0 = 0.
Proof. reflexivity. Qed.

Lemma bitLen_nonneg x : 0 <= bitLen x.
Proof.
  unfold bitLen. destruct (Z.eqb_spec (Z.abs x) 0); [lia|].
  pose proof (Z.log2_nonneg (Z.abs x)). lia.
Qed.

Lemma bitLen_bounds x : 0 < x -> 2 ^ (bitLen x - 1) <= x < 2 ^ bitLen x.
Proof.
  intros H. rewrite bitLen_pos by exact H.
  replace (Z.log2 x + 1 - 1) with (Z.log2 x) by lia.
  replace (Z.log2 x + 1) with (Z.succ (Z.log2 x)) by lia.
  apply Z.log2_spec. exact H.
Qed.

Lemma bitLen_shift x k : 0 < x -> 0 <= k -> bitLen (x * 2 ^ k) = bitLen x + k.
Proof.
  intros Hx Hk. rewrite !bitLen_pos; [|exact Hx|].
  - rewrite Z.log2_mul_pow2 by lia. lia.
  - apply Z.mul_pos_pos; [exact Hx|]. apply Z.pow_pos_nonneg; lia.
Qed.

Lemma bitLen_le_pow2 x n : 0 <= x < 2 ^ n -> 0 <= n -> bitLen x <= n.
Proof.
  intros [H0 H1] Hn. destruct (Z.eq_dec x 0) as [->|Hne]; [rewrite bitLen_0; lia|].
  rewrite bitLen_pos by lia.
  apply Z.log2_lt_pow2 in H1; lia.
Qed.

Lemma bitLen_mono x y : 0 <= x <= y -> bitLen x <= bitLen y.
Proof.
  intros [H0 H1]. destruct (Z.eq_dec x 0) as [->|Hne].
  - rewrite bitLen_0. apply bitLen_nonneg.
  - rewrite !bitLen_pos by lia. pose proof (Z.log2_le_mono x y H1). lia.
Qed.

Lemma nat_len_bounds x : bitLen x <= nat_len x * _W < bitLen x + _W.
Proof.
  unfold nat_len, _W. pose proof (bitLen_nonneg x).
  change (64 - 1) with 63.
  pose proof (Z.div_mod (bitLen x + 63) 64 ltac:(lia)).
  pose proof (Z.mod_pos_bound (bitLen x + 63) 64 ltac:(lia)). lia.
Qed.

Lemma nat_len_normal x n : bitLen x = n * 64 -> nat_len x = n.
Proof.
  intros H. unfold nat_len, _W. rewrite H.
  replace (n * 64 + (64 - 1)) with (63 + n * 64) by lia.
  rewrite Z.div_add by lia. reflexivity.
Qed.

Lemma pow2_split t j : 0 <= j <= t -> 2 ^ t = 2 ^ (t - j) * 2 ^ j.
Proof. intros H. rewrite <- Z.pow_add_r by lia. f_equal. lia. Qed.

Lemma mod_shift c t j : 0 <= j <= t -> (c * 2 ^ t) mod 2 ^ j = 0.
Proof.
  intros H. rewrite (pow2_split t j H), Z.mul_assoc. apply Z.mod_mul.
  apply Z.pow_nonzero; lia.
Qed.

Lemma shiftr_shift c t j : 0 <= j <= t -> Z.shiftr (c * 2 ^ t) j = c * 2 ^ (t - j).
Proof.
  intros H. rewrite Z.shiftr_div_pow2 by lia.
  rewrite (pow2_split t j H), Z.mul_assoc. apply Z.div_mul.
  apply Z.pow_nonzero; lia.
Qed.

Lemma ldiff_shift c t j : 0 <= j <= t -> Z.ldiff (c * 2 ^ t) (2 ^ j - 1) = c * 2 ^ t.
Proof.
  intros H. apply Z.bits_inj'. intros i Hi.
  rewrite Z.ldiff_spec. replace (2 ^ j - 1) with (Z.ones j)
    by (rewrite Z.ones_equiv; lia).
  destruct (Z.lt_ge_cases i j) as [Hlt|Hge].
  - rewrite Z.mul_pow2_bits_low by lia. reflexivity.
  - rewrite Z.ones_spec_high by lia. apply andb_true_r.
Qed.

(** Rounding a mantissa whose significant bits fit the precision changes
    nothing but the number of trailing zeros. *)
Lemma round_exact p sg c k e m :
  0 < c -> 0 <= k -> bitLen c <= p -> bitLen c + k = m * 64 ->
  round (mkFloat p sg finite (c * 2 ^ k) e) 0
  = mkFloat p sg finite
      (c * 2 ^ (if m * 64 <=? p then k else (p + 63) / 64 * 64 - bitLen c)) e.
Proof.
  intros Hc Hk Hp Hm.
  assert (Hbl : bitLen (c * 2 ^ k) = m * 64) by (rewrite bitLen_shift; lia).
  unfold round. cbn [fform form_eqb negb mant prec neg exp].
  rewrite (nat_len_normal _ _ Hbl). unfold _W. change (64 - 1) with 63.
  destruct (Z.leb_spec (m * 64) p) as [Hfit|Hbig]; [reflexivity|].
  set (n := (p + 63) / 64).
  assert (Hn : p <= n * 64 < p + 64).
  { unfold n. pose proof (Z.div_mod (p + 63) 64 ltac:(lia)).
    pose proof (Z.mod_pos_bound (p + 63) 64 ltac:(lia)). lia. }
  assert (Hnm : n <= m) by lia.
  pose proof (bitLen_nonneg c) as Hbc.
  rewrite Z.mul_pow2_bits_low by lia.
  unfold sticky. rewrite mod_shift by lia.
  cbn [Z.b2z]. change (0 =? 0) with true. cbv iota.
  change (Z.land 0 1) with 0. change (Z.lor 0 0) with 0.
  change (0 =? 0) with true. cbn [negb andb].
  assert (Hm1 : (if n <? m then Z.shiftr (c * 2 ^ k) ((m - n) * 64) else c * 2 ^ k)
                = c * 2 ^ (n * 64 - bitLen c)).
  { destruct (Z.ltb_spec n m).
    - rewrite shiftr_shift by lia. f_equal. f_equal. lia.
    - f_equal. f_equal. lia. }
  rewrite Hm1. rewrite Z.shiftl_1_l. rewrite ldiff_shift by lia. reflexivity.
Qed.

Lemma nat_len_pos x : 0 < x -> 0 < nat_len x.
Proof.
  intros H. pose proof (nat_len_bounds x). pose proof (bitLen_bounds x H).
  assert (0 < bitLen x).
  { rewrite bitLen_pos by exact H. pose proof (Z.log2_nonneg x). lia. }
  unfold _W in *. lia.
Qed.

Lemma fnorm_pos x :
  0 < x -> fnorm x = (x * 2 ^ (nat_len x * 64 - bitLen x), nat_len x * 64 - bitLen x).
Proof.
  intros H. unfold fnorm. pose proof (nat_len_pos x H) as Hl.
  pose proof (nat_len_bounds x) as Hb. unfold _W in *.
  destruct (Z.ltb_spec 0 (nat_len x)); [|lia].
  destruct (Z.ltb_spec 0 (nat_len x * 64 - bitLen x)) as [Hs|Hs].
  - rewrite Z.shiftl_mul_pow2 by lia. reflexivity.
  - replace (nat_len x * 64 - bitLen x) with 0 by lia. rewrite Z.mul_1_r. reflexivity.
Qed.

(** [SetInt] of a positive integer is exact: the mantissa is the integer,
    shifted to the top of its words, the exponent is its bit length and
    the precision is the larger of the bit length and 64. *)
Lemma SetInt_pos x :
  0 < x -> bitLen x <= MaxExp ->
  SetInt newFloat x
  = mkFloat (Z.max (bitLen x) 64) false finite
      (x * 2 ^ (nat_len x * 64 - bitLen x)) (bitLen x).
Proof.
  intros Hx Hb. pose proof (bitLen_nonneg x) as H0.
  pose proof (nat_len_bounds x) as Hl. unfold _W, MaxExp in *.
  unfold SetInt, newFloat. cbn [prec mant exp fform neg].
  change (0 =? 0) with true. cbv iota.
  rewrite Z.mod_small by lia.
  destruct (Z.eqb_spec x 0); [lia|].
  destruct (Z.ltb_spec x 0); [lia|].
  rewrite Z.abs_eq by lia. rewrite fnorm_pos by exact Hx. cbn [fst].
  unfold setExpAndRound, MinExp, MaxExp. cbn [prec mant exp fform neg].
  destruct (Z.ltb_spec (bitLen x) (-2147483648)); [lia|].
  destruct (Z.ltb_spec 2147483647 (bitLen x)); [lia|].
  rewrite (round_exact _ _ x _ _ (nat_len x)) by lia.
  f_equal. f_equal. f_equal.
  destruct (Z.leb_spec (nat_len x * 64) (Z.max (bitLen x) 64)) as [|Hbig]; [reflexivity|].
  assert (Hmax : Z.max (bitLen x) 64 = bitLen x) by lia.
  rewrite Hmax. unfold nat_len, _W. change (64 - 1) with 63. reflexivity.
Qed.

Lemma SetInt_one : SetInt newFloat 1 = mkFloat 64 false finite (2 ^ 63) 1.
Proof. reflexivity. Qed.

(** Dividing by one is exact. *)
Lemma Quo_by_one b :
  0 < b -> bitLen b <= 2 ^ 30 ->
  Quo newFloat (SetInt newFloat b) (SetInt newFloat 1)
  = Some (mkFloat (Z.max (bitLen b) 64) false finite
            (b * 2 ^ ((Z.max (bitLen b) 64 + 63) / 64 * 64 - bitLen b))
            (bitLen b)).
Proof.
  intros Hb HL. pose proof (bitLen_nonneg b) as H0.
  pose proof (nat_len_bounds b) as Hl. unfold _W in Hl.
  pose proof (nat_len_pos b Hb) as Hlp.
  rewrite SetInt_pos by (unfold MaxExp; lia). rewrite SetInt_one.
  set (L := bitLen b) in *. set (lx := nat_len b) in *.
  set (p := Z.max L 64).
  unfold Quo, newFloat. cbn [prec mant exp fform neg form_eqb andb xorb].
  change (0 =? 0) with true. cbv iota.
  replace (Z.max p 64) with p by lia.
  f_equal. unfold uquo. cbn [prec mant exp fform neg].
  assert (HbX : bitLen (b * 2 ^ (lx * 64 - L)) = lx * 64)
    by (rewrite bitLen_shift by lia; fold L; lia).
  rewrite (nat_len_normal _ _ HbX).
  assert (HbY : bitLen (2 ^ 63) = 1 * 64) by reflexivity.
  rewrite (nat_len_normal _ _ HbY). unfold _W.
  set (n := p / 64 + 1).
  assert (Hn : p < n * 64 <= p + 64).
  { unfold n. pose proof (Z.div_mod p 64 ltac:(lia)).
    pose proof (Z.mod_pos_bound p 64 ltac:(lia)). lia. }
  assert (Hd : 0 < n - lx + 1) by lia.
  destruct (Z.ltb_spec 0 (n - lx + 1)); [|lia].
  rewrite Z.shiftl_mul_pow2 by lia.
  rewrite <- Z.mul_assoc, <- Z.pow_add_r by lia.
  set (t := lx * 64 - L + (n - lx + 1) * 64).
  assert (Ht : t = (n + 1) * 64 - L) by (unfold t; lia).
  assert (HbA : bitLen (b * 2 ^ t) = (n + 1) * 64)
    by (rewrite bitLen_shift by lia; fold L; lia).
  rewrite (nat_len_normal _ _ HbA).
  assert (Hq : b * 2 ^ t / 2 ^ 63 = b * 2 ^ (t - 63)).
  { rewrite (pow2_split t 63) by lia. rewrite Z.mul_assoc.
    apply Z.div_mul. lia. }
  rewrite Hq. rewrite mod_shift by lia.
  change (0 =? 0) with true. cbv iota.
  assert (HbQ : bitLen (b * 2 ^ (t - 63)) = (n + 1) * 64 - 63)
    by (rewrite bitLen_shift by lia; fold L; lia).
  assert (HlQ : nat_len (b * 2 ^ (t - 63)) = n + 1).
  { unfold nat_len, _W. rewrite HbQ. change (64 - 1) with 63.
    replace ((n + 1) * 64 - 63 + 63) with ((n + 1) * 64) by lia.
    apply Z.div_mul. lia. }
  rewrite HlQ.
  rewrite fnorm_pos by (apply Z.mul_pos_pos; [lia|apply Z.pow_pos_nonneg; lia]).
  rewrite HlQ, HbQ.
  rewrite <- Z.mul_assoc, <- Z.pow_add_r by lia.
  replace (t - 63 + ((n + 1) * 64 - ((n + 1) * 64 - 63))) with t by lia.
  replace (L - 1 - (n + 1 - 1 - (n + 1)) * 64 - ((n + 1) * 64 - ((n + 1) * 64 - 63)))
    with L by lia.
  unfold setExpAndRound, MinExp, MaxExp. cbn [prec mant exp fform neg].
  destruct (Z.ltb_spec L (-2147483648)); [lia|].
  destruct (Z.ltb_spec 2147483647 L); [lia|].
  rewrite (round_exact _ _ b _ _ (n + 1)) by (fold L; lia).
  destruct (Z.leb_spec ((n + 1) * 64) p); [lia|]. reflexivity.
Qed.

(** ** The decimal conversion *)

Lemma string_of_uint_digits d :
  Forall (fun c => is_digit c = true)
         (list_ascii_of_string (NilEmpty.string_of_uint d)).
Proof. induction d; cbn; constructor; auto. Qed.

Lemma utoa_digits m : Forall (fun c => is_digit c = true) (utoa m).
Proof.
  unfold utoa, NilZero.string_of_uint.
  destruct (N.to_uint (Z.to_N m)) eqn:E;
    try (rewrite <- E; apply string_of_uint_digits).
  cbn. constructor; auto.
Qed.

Lemma utoa_nonempty m : (0 < length (utoa m))%nat.
Proof.
  unfold utoa, NilZero.string_of_uint.
  destruct (N.to_uint (Z.to_N m)); cbn; lia.
Qed.

Lemma trim_zeros_rev_spec l :
  exists k, l = (replicate k "0"%char ++ trim_zeros_rev l)%list.
Proof.
  induction l as [|c l [k IH]]; [exists 0%nat; reflexivity|].
  cbn. destruct (Ascii.eqb_spec c "0") as [->|Hne].
  - exists (S k). cbn. f_equal. exact IH.
  - exists 0%nat. reflexivity.
Qed.

Lemma strip_trailing_zeros_spec l :
  exists k, l = (strip_trailing_zeros l ++ replicate k "0"%char)%list.
Proof.
  unfold strip_trailing_zeros.
  destruct (trim_zeros_rev_spec (rev l)) as [k Hk]. exists k.
  rewrite <- (rev_involutive l) at 1. rewrite Hk at 1.
  rewrite rev_app_distr. f_equal.
  clear. induction k; [reflexivity|]. cbn. rewrite IHk.
  clear. induction k; [reflexivity|]. cbn. f_equal. exact IHk.
Qed.

Lemma strip_trailing_zeros_digits l :
  Forall (fun c => is_digit c = true) l ->
  Forall (fun c => is_digit c = true) (strip_trailing_zeros l).
Proof.
  intros H. destruct (strip_trailing_zeros_spec l) as [k Hk].
  rewrite Hk in H. apply Forall_app in H. apply H.
Qed.

Lemma strip_trailing_zeros_length l :
  (length (strip_trailing_zeros l) <= length l)%nat.
Proof.
  destruct (strip_trailing_zeros_spec l) as [k Hk].
  rewrite Hk at 2. rewrite length_app. lia.
Qed.

Lemma string_of_list_ascii_app l1 l2 :
  string_of_list_ascii (l1 ++ l2)
  = (string_of_list_ascii l1 ++ string_of_list_ascii l2)%string.
Proof. induction l1; cbn; [reflexivity|]. now rewrite IHl1. Qed.

Lemma trailingZeroBits_nonneg x : 0 <= trailingZeroBits x.
Proof. destruct x as [|p|p]; cbn; try lia. induction p; cbn; lia. Qed.

Lemma trailingZeroBits_double x :
  0 < x -> trailingZeroBits (2 * x) = 1 + trailingZeroBits x.
Proof. destruct x; try lia. reflexivity. Qed.

Lemma trailingZeroBits_shift x k :
  0 < x -> 0 <= k -> k <= trailingZeroBits (x * 2 ^ k).
Proof.
  intros Hx Hk. pattern k. apply natlike_ind; [| |exact Hk].
  - apply trailingZeroBits_nonneg.
  - intros j Hj IH. rewrite Z.pow_succ_r by lia.
    replace (x * (2 * 2 ^ j)) with (2 * (x * 2 ^ j)) by lia.
    rewrite trailingZeroBits_double; [lia|].
    apply Z.mul_pos_pos; [lia|]. apply Z.pow_pos_nonneg; lia.
Qed.

Lemma dinit_integer b k :
  0 < b -> 0 <= k ->
  dinit (b * 2 ^ k) (- k)
  = mkDecimal (strip_trailing_zeros (utoa b)) (zlen (utoa b)).
Proof.
  intros Hb Hk. unfold dinit.
  assert (Hpos : 0 < b * 2 ^ k)
    by (apply Z.mul_pos_pos; [lia|apply Z.pow_pos_nonneg; lia]).
  destruct (Z.eqb_spec (b * 2 ^ k) 0); [lia|].
  pose proof (trailingZeroBits_shift b k Hb Hk) as Htz.
  destruct (Z.ltb_spec (- k) 0) as [Hneg|Hz].
  - rewrite Z.min_l by lia. replace (- k + - - k) with 0 by lia.
    rewrite shiftr_shift by lia. replace (k - - - k) with 0 by lia.
    change (0 <? 0) with false. cbv iota. change (0 <? 0) with false. cbv iota.
    rewrite Z.mul_1_r. reflexivity.
  - assert (k = 0) by lia. subst k. cbn [Z.opp Z.add Z.ltb Z.compare].
    rewrite Z.shiftr_0_r, Z.mul_1_r. reflexivity.
Qed.

Lemma zeros_after_point d n :
  zlen (dmant d) <= dexp d ->
  map (fun i => dat d (dexp d + Z.of_nat i)) (seq 0 n) = replicate n "0"%char.
Proof.
  intros H. generalize 0%nat. induction n as [|n IH]; intros s; [reflexivity|].
  cbn [seq map replicate]. rewrite IH. f_equal.
  unfold dat. destruct (Z.ltb_spec (dexp d + Z.of_nat s) (zlen (dmant d))); [lia|].
  now rewrite andb_false_r.
Qed.

(** The text of a [Float] that holds a positive integer exactly. *)
Lemma Text_f_integer p b k :
  0 < b -> 0 <= k ->
  Text_f (mkFloat p false finite (b * 2 ^ k) (bitLen b)) 18
  = (Int_String b ++ ".000000000000000000")%string.
Proof.
  intros Hb Hk. unfold Text_f. cbn [neg fform mant exp].
  rewrite bitLen_shift by lia.
  replace (bitLen b - (bitLen b + k)) with (- k) by lia.
  rewrite dinit_integer by lia. cbn [dexp dmant].
  set (s := utoa b).
  pose proof (utoa_nonempty b) as Hne. fold s in Hne.
  pose proof (strip_trailing_zeros_length s) as Hle.
  destruct (strip_trailing_zeros_spec s) as [z Hz].
  unfold dround. cbn [dexp dmant]. unfold zlen.
  destruct (Z.ltb_spec (Z.of_nat (length s) + 18) 0); [lia|].
  destruct (Z.leb_spec (Z.of_nat (length (strip_trailing_zeros s)))
              (Z.of_nat (length s) + 18)); [|lia].
  cbn [orb]. unfold fmtF. cbn [dexp dmant].
  rewrite zeros_after_point by (cbn [dexp dmant]; unfold zlen; lia).
  unfold zlen.
  destruct (Z.ltb_spec 0 (Z.of_nat (length s))); [|lia].
  rewrite Z.min_l by lia. rewrite Nat2Z.id.
  rewrite firstn_all.
  assert (Hpad : Z.to_nat (Z.of_nat (length s)
                           - Z.of_nat (length (strip_trailing_zeros s))) = z).
  { rewrite Hz at 1. rewrite length_app, length_replicate. lia. }
  rewrite Hpad, <- Hz.
  change (0 <? 18) with true. cbv iota.
  unfold Int_String. destruct (Z.ltb_spec b 0); [lia|].
  rewrite Z.abs_eq by lia. fold s. cbn [app].
  rewrite string_of_list_ascii_app. reflexivity.
Qed.

(** C4, as stated, fails: with [decimals = 0] the text is not the plain
    integer. For a balance of 5 the program prints 5.000000000000000000. *)
Lemma zero_decimals_has_a_point :
  ~ (forall b, 0 <= b < 2 ^ 256 ->
       balanceText b (uint8 0) = Some (Int_String b)).
Proof.
  intros H. specialize (H 5 ltac:(split; [discriminate|reflexivity])).
  vm_compute in H. discriminate H.
Qed.

(** C4, amended. For [decimals = 0] and every balance of the [uint256]
    range, the text is the balance written as a decimal integer, followed
    by a point and eighteen zeros. *)
Theorem zero_decimals_keeps_18_zeros b :
  0 <= b < 2 ^ 256 ->
  balanceText b (uint8 0) = Some (Int_String b ++ ".000000000000000000")%string.
Proof.
  intros [H0 H1]. destruct (Z.eq_dec b 0) as [->|Hne]; [reflexivity|].
  unfold balanceText, daiBalanceFloat.
  change (Int_Exp 10 (int64_of_uint8 (uint8 0))) with 1.
  pose proof (bitLen_le_pow2 b 256 ltac:(lia) ltac:(lia)) as HL.
  rewrite Quo_by_one by lia. cbn [fmap option_fmap option_map].
  rewrite Text_f_integer; [reflexivity|lia|].
  pose proof (Z.div_mod (Z.max (bitLen b) 64 + 63) 64 ltac:(lia)).
  pose proof (Z.mod_pos_bound (Z.max (bitLen b) 64 + 63) 64 ltac:(lia)). lia.
Qed.

Lemma zero_decimals_witness :
  balanceText 1234567890123456789 (uint8 0)
  = Some (Int_String 1234567890123456789 ++ ".000000000000000000")%string.
Proof.
  apply (zero_decimals_keeps_18_zeros 1234567890123456789).
  split; [discriminate|reflexivity].
Defined.

(** ** No infinity *)

Lemma round_keeps z sbit :
  prec (round z sbit) = prec z /\ neg (round z sbit) = neg z /\
  (fform (round z sbit) = inf -> fform z = inf \/ MaxExp <= exp z).
Proof.
  unfold round.
  destruct (fform z) eqn:Hf; cbn [form_eqb negb]; try (rewrite Hf; auto).
  destruct (_ <=? prec z); [rewrite Hf; repeat split; auto; discriminate|].
  match goal with |- context [if ?c && (MaxExp <=? exp z) then _ else _] =>
    destruct c; cbn [andb] end.
  - destruct (Z.leb_spec MaxExp (exp z)); cbn [prec neg fform];
      repeat split; auto; discriminate.
  - cbn [prec neg fform]. repeat split; auto; discriminate.
Qed.

Lemma setExpAndRound_keeps z e sbit :
  prec (setExpAndRound z e sbit) = prec z /\
  neg (setExpAndRound z e sbit) = neg z /\
  (e < MaxExp -> fform (setExpAndRound z e sbit) <> inf).
Proof.
  unfold setExpAndRound.
  destruct (Z.ltb_spec e MinExp); [cbn; repeat split; auto; discriminate|].
  destruct (Z.ltb_spec MaxExp e); [cbn; repeat split; auto; lia|].
  destruct (round_keeps (mkFloat (prec z) (neg z) finite (mant z) e) sbit)
    as [Hp [Hn Hf]].
  repeat split; auto. intros He Hinf. destruct (Hf Hinf) as [H1|H1].
  - discriminate H1.
  - cbn in H1. lia.
Qed.

(** The quotient of two mantissas is never infinite while the exponents
    stay far from [MaxExp]. *)
Lemma uquo_keeps z x y :
  0 <= mant x -> 0 < mant y ->
  exp x - exp y + nat_len (mant y) * 64 < MaxExp ->
  prec (uquo z x y) = prec z /\ neg (uquo z x y) = neg z /\
  fform (uquo z x y) <> inf.
Proof.
  intros Hx Hy Hexp. unfold uquo.
  set (n := prec z / _W + 1).
  set (d := n - nat_len (mant x) + nat_len (mant y)).
  set (xadj := if 0 <? d then Z.shiftl (mant x) (d * _W) else mant x).
  set (q := xadj / mant y).
  assert (Hxadj : 0 <= xadj).
  { unfold xadj. destruct (0 <? d); [apply Z.shiftl_nonneg|]; lia. }
  assert (Hq : 0 <= q <= xadj).
  { unfold q. split; [apply Z.div_pos; lia|].
    apply Z.div_le_upper_bound; [lia|]. nia. }
  pose proof (bitLen_mono q xadj Hq) as Hbq.
  pose proof (nat_len_bounds xadj) as Hlx.
  pose proof (nat_len_bounds q) as Hlq.
  pose proof (bitLen_nonneg q) as Hq0.
  unfold _W in *.
  destruct (fnorm q) as [qn s] eqn:Hfn.
  assert (Hs : nat_len q * 64 - s <= bitLen q).
  { unfold fnorm in Hfn. destruct (Z.ltb_spec 0 (nat_len q)).
    - injection Hfn as _ <-. unfold _W. lia.
    - injection Hfn as _ <-. lia. }
  match goal with |- context [setExpAndRound ?z' ?e ?sb] =>
    destruct (setExpAndRound_keeps z' e sb) as [Hp [Hn Hf]] end.
  cbn [prec neg] in *. repeat split; auto. apply Hf. lia.
Qed.

(** ** The shape of the text *)

Lemma trim_digits x : digits (dmant x) -> digits (dmant (trim x)).
Proof. intros H. cbn. now apply strip_trailing_zeros_digits. Qed.

Lemma dinit_digits m shift : digits (dmant (dinit m shift)).
Proof.
  unfold dinit. destruct (m =? 0); [constructor|].
  match goal with |- context [utoa ?v] => set (u := utoa v) end.
  assert (Hu : digits (strip_trailing_zeros u))
    by apply strip_trailing_zeros_digits, utoa_digits.
  match goal with |- context [if ?c then shr _ _ else _] => destruct c end;
    [|exact Hu].
  unfold shr. cbn [dmant dexp].
  destruct (_ =? 0); [constructor|].
  apply trim_digits. cbn. apply utoa_digits.
Qed.

Lemma drop_nines_rev_spec l :
  digits l ->
  match drop_nines_rev l with
  | [] => True
  | c :: l' => is_digit (ascii_succ c) = true /\ digits l'
  end.
Proof.
  induction 1 as [|c l Hc Hl IH]; cbn [drop_nines_rev]; [exact I|].
  destruct (Z.leb_spec (Z.of_N (N_of_ascii "9")) (Z.of_N (N_of_ascii c))) as [H9|H9];
    [exact IH|].
  split; [|exact Hl].
  unfold is_digit in *. apply andb_true_iff in Hc as [Hlo Hhi].
  apply N.leb_le in Hlo, Hhi. change (Z.of_N (N_of_ascii "9")) with 57 in H9.
  unfold ascii_succ. rewrite N_ascii_embedding by lia.
  apply andb_true_iff. split; apply N.leb_le; lia.
Qed.

Lemma dround_digits x n : digits (dmant x) -> digits (dmant (dround x n)).
Proof.
  intros H. unfold dround.
  destruct ((n <? 0) || (zlen (dmant x) <=? n)); [exact H|].
  assert (Ht : digits (take (Z.to_nat n) (dmant x))) by now apply Forall_take.
  destruct (shouldRoundUp x n).
  - unfold roundUp. destruct ((n <? 0) || (zlen (dmant x) <=? n)); [exact H|].
    pose proof (drop_nines_rev_spec (rev (take (Z.to_nat n) (dmant x)))
                  ltac:(now apply Forall_rev)) as Hd.
    destruct (drop_nines_rev _) as [|c l']; cbn [dmant].
    + repeat constructor.
    + destruct Hd as [Hc Hl]. apply Forall_rev. constructor; assumption.
  - unfold roundDown. destruct ((n <? 0) || (zlen (dmant x) <=? n)); [exact H|].
    now apply trim_digits.
Qed.

Lemma dat_digit d i : digits (dmant d) -> is_digit (dat d i) = true.
Proof.
  intros H. unfold dat. destruct (_ && _); [|reflexivity].
  destruct (dmant d !! Z.to_nat i) as [c|] eqn:Hc; [|reflexivity].
  cbn. eapply Forall_lookup_1 in H; eauto.
Qed.

Lemma fmtF_shape d :
  digits (dmant d) ->
  exists ip fp,
    fmtF 18 d = (ip ++ "."%char :: fp)%list /\
    ip <> [] /\ digits ip /\ length fp = 18%nat /\ digits fp.
Proof.
  intros H. unfold fmtF. change (0 <? 18) with true. cbv iota.
  eexists _, _. split; [reflexivity|]. split; [|split; [|split]].
  - destruct (Z.ltb_spec 0 (dexp d)); [|discriminate].
    intros Hnil. apply (f_equal (@length ascii)) in Hnil.
    rewrite length_app, length_take, length_replicate in Hnil. cbn in Hnil.
    unfold zlen in *. lia.
  - destruct (0 <? dexp d); [|repeat constructor].
    apply Forall_app. split; [now apply Forall_take|].
    apply Forall_replicate. reflexivity.
  - now rewrite length_map, length_seq.
  - apply Forall_map. apply Forall_forall. intros i _. now apply dat_digit.
Qed.

Lemma Text_f_shape x :
  fform x <> inf -> neg x = false ->
  exists ip fp,
    Text_f x 18 = string_of_list_ascii (ip ++ "."%char :: fp) /\
    ip <> [] /\ digits ip /\ length fp = 18%nat /\ digits fp.
Proof.
  intros Hf Hn. unfold Text_f. rewrite Hn. cbn [app].
  destruct (fform x) eqn:E; [| |contradiction].
  - destruct (fmtF_shape (dround (mkDecimal [] 0) (dexp (mkDecimal [] 0) + 18)))
      as [ip [fp [Heq Hrest]]]; [apply dround_digits; constructor|].
    exists ip, fp. rewrite Heq. auto.
  - match goal with |- context [fmtF 18 ?d] =>
      destruct (fmtF_shape d) as [ip [fp [Heq Hrest]]] end;
      [apply dround_digits, dinit_digits|].
    exists ip, fp. rewrite Heq. auto.
Qed.

Lemma ten_pow_bounds (dec : byte) :
  0 < Int_Exp 10 (int64_of_uint8 dec) < 2 ^ 1024.
Proof.
  unfold Int_Exp, int64_of_uint8.
  pose proof (Byte.to_N_bounded dec) as Hb.
  set (d := Z.of_N (Byte.to_N dec)). assert (Hd : 0 <= d <= 255) by lia.
  destruct (Z.leb_spec d 0); [split; [lia|reflexivity]|].
  split; [apply Z.pow_pos_nonneg; lia|].
  apply Z.le_lt_trans with (10 ^ 255); [apply Z.pow_le_mono_r; lia|reflexivity].
Qed.

(** The quotient of line 165 always exists, is zero or finite, is not
    negative, and has the precision that [Quo] takes from its operands. *)
Lemma daiBalanceFloat_finite b dec :
  0 <= b < 2 ^ 256 ->
  exists q,
    daiBalanceFloat b dec = Some q /\ fform q <> inf /\ neg q = false /\
    prec q = Z.max (Z.max (bitLen b) 64)
                   (Z.max (bitLen (Int_Exp 10 (int64_of_uint8 dec))) 64).
Proof.
  intros [H0 H1]. unfold daiBalanceFloat.
  pose proof (ten_pow_bounds dec) as [HY0 HY1].
  set (Y := Int_Exp 10 (int64_of_uint8 dec)) in *.
  pose proof (bitLen_le_pow2 Y 1024 ltac:(lia) ltac:(lia)) as HLY.
  pose proof (bitLen_nonneg Y) as HLY0.
  pose proof (nat_len_bounds Y) as HlY. unfold _W in HlY.
  rewrite (SetInt_pos Y) by (unfold MaxExp; lia).
  destruct (Z.eq_dec b 0) as [->|Hne].
  - change (SetInt newFloat 0) with (mkFloat 64 false zero 0 0).
    unfold Quo, newFloat. cbn [prec mant exp fform neg form_eqb andb orb xorb].
    change (0 =? 0) with true. cbv iota.
    eexists. split; [reflexivity|]. cbn [prec neg fform].
    split; [discriminate|]. split; [reflexivity|].
    change (bitLen 0) with 0. lia.
  - pose proof (bitLen_le_pow2 b 256 ltac:(lia) ltac:(lia)) as HLb.
    pose proof (bitLen_nonneg b) as HLb0.
    rewrite (SetInt_pos b) by (unfold MaxExp; lia).
    unfold Quo, newFloat. cbn [prec mant exp fform neg form_eqb andb xorb].
    change (0 =? 0) with true. cbv iota.
    eexists. split; [reflexivity|].
    match goal with |- context [uquo ?z ?x ?y] =>
      destruct (uquo_keeps z x y) as [Hp [Hn Hf]] end.
    + cbn [mant]. apply Z.mul_nonneg_nonneg; [lia|apply Z.pow_nonneg; lia].
    + cbn [mant]. apply Z.mul_pos_pos; [lia|apply Z.pow_pos_nonneg; lia].
    + cbn [mant exp].
      assert (HbY : bitLen (Y * 2 ^ (nat_len Y * 64 - bitLen Y)) = nat_len Y * 64)
        by (rewrite bitLen_shift by lia; lia).
      rewrite (nat_len_normal _ _ HbY). unfold MaxExp. lia.
    + repeat split; auto.
Qed.

(** C9. For every balance of the [uint256] range and every [decimals],
    the text of the balance is a non-empty run of digits, a decimal point
    and exactly 18 digits: [Text('f', 18)] fixes the number of fraction
    digits whatever [decimals] is. *)
Theorem balance_text_has_18_fraction_digits b dec :
  0 <= b < 2 ^ 256 ->
  exists ip fp,
    balanceText b dec = Some (string_of_list_ascii (ip ++ "."%char :: fp)) /\
    ip <> [] /\ digits ip /\ length fp = 18%nat /\ digits fp.
Proof.
  intros Hb. destruct (daiBalanceFloat_finite b dec Hb) as [q [Hq [Hf [Hn _]]]].
  destruct (Text_f_shape q Hf Hn) as [ip [fp [Ht Hrest]]].
  exists ip, fp. unfold balanceText. rewrite Hq. cbn. rewrite Ht. auto.
Qed.

Lemma balance_text_witness :
  exists ip fp,
    balanceText 123456 (uint8 6)
    = Some (string_of_list_ascii (ip ++ "."%char :: fp)) /\
    ip <> [] /\ digits ip /\ length fp = 18%nat /\ digits fp.
Proof.
  apply (balance_text_has_18_fraction_digits 123456 (uint8 6)).
  split; [discriminate|reflexivity].
Defined.

(** C2. A balance of 1234567890123456789 with 18 decimals is printed as
    1.234567890123456789, digit for digit, by the division of line 165 and
    the formatting of line 171; [happy] prints it as its last line. *)
Theorem balance_text_example :
  balanceText 1234567890123456789 (uint8 18)
  = Some "1.234567890123456789"%string /\
  List.filter is_print (events (run happy))
  = output 12345678 "DAI" (uint8 18) "1.234567890123456789".
Proof. split; vm_compute; reflexivity. Qed.

Lemma SetInt_exact x :
  0 <= x -> bitLen x <= MaxExp -> Float_is (SetInt newFloat x) x 1 = true.
Proof.
  intros Hx Hb. destruct (Z.eq_dec x 0) as [->|Hne]; [reflexivity|].
  rewrite SetInt_pos by lia. unfold Float_is. cbn [fform neg mant exp].
  pose proof (nat_len_bounds x) as Hl. unfold _W in Hl.
  pose proof (bitLen_nonneg x).
  rewrite bitLen_shift by lia.
  set (s := nat_len x * 64 - bitLen x) in *.
  replace (bitLen x - (bitLen x + s)) with (- s) by lia.
  destruct (Z.leb_spec 0 (- s)).
  - assert (s = 0) by lia. replace s with 0 by lia. cbn. apply Z.eqb_eq. lia.
  - apply Z.eqb_eq. rewrite Z.opp_involutive. lia.
Qed.

(** ** The quotient is correctly rounded *)

Lemma testbit_mod M k :
  0 <= M -> 0 <= k -> Z.testbit M k = (2 ^ k <=? M mod 2 ^ (k + 1)).
Proof.
  intros HM Hk.
  assert (H2k : 0 < 2 ^ k) by (apply Z.pow_pos_nonneg; lia).
  replace (2 ^ (k + 1)) with (2 ^ k * 2) by (rewrite Z.pow_add_r by lia; lia).
  rewrite Z.rem_mul_r by lia.
  pose proof (Z.mod_pos_bound M (2 ^ k) H2k) as Hlow.
  pose proof (Z.mod_pos_bound (M / 2 ^ k) 2 ltac:(lia)) as Hb.
  destruct (Z.testbit M k) eqn:E.
  - apply Z.testbit_true in E; [|lia]. rewrite E. symmetry. apply Z.leb_le. lia.
  - apply Z.testbit_false in E; [|lia]. rewrite E. symmetry. apply Z.leb_gt. lia.
Qed.

Lemma ldiff_low a k : 0 <= k -> Z.ldiff a (2 ^ k - 1) = a / 2 ^ k * 2 ^ k.
Proof.
  intros Hk. replace (2 ^ k - 1) with (Z.ones k) by (rewrite Z.ones_equiv; lia).
  rewrite Z.ldiff_ones_r by lia.
  rewrite Z.shiftl_mul_pow2, Z.shiftr_div_pow2 by lia. reflexivity.
Qed.

Lemma lor_pow2_high x k : 0 <= x < 2 ^ k -> 0 <= k -> Z.lor x (2 ^ k) = x + 2 ^ k.
Proof.
  intros Hx Hk. assert (Hl : Z.land x (2 ^ k) = 0).
  { apply Z.bits_inj'. intros i Hi. rewrite Z.land_spec, Z.bits_0.
    rewrite Z.pow2_bits_eqb by lia. destruct (Z.eqb_spec k i) as [<-|]; [|apply andb_false_r].
    destruct (Z.eq_dec x 0) as [->|Hne]; [rewrite Z.bits_0; reflexivity|].
    rewrite Z.bits_above_log2; [reflexivity|lia|].
    apply Z.log2_lt_pow2; lia. }
  rewrite <- Z.lxor_lor by exact Hl. symmetry. apply Z.add_nocarry_lxor. exact Hl.
Qed.

(** [round] on a normalised mantissa that is longer than the precision:
    with [u] the number of dropped bits, [T] the kept part and [W] the
    dropped part, the result is [T] or [T + 1] at the same scale, the
    choice is never on the far side of the half, and a carry out of the
    top renormalises. *)
Lemma round_inexact p sg M e m sbit :
  0 < M -> bitLen M = m * 64 -> 0 < p < m * 64 -> e < MaxExp ->
  sbit = 0 \/ sbit = 1 ->
  let u := m * 64 - p in
  let T := M / 2 ^ u in
  let W := M mod 2 ^ u in
  let n' := (p + 63) / 64 in
  let ntz := n' * 64 - p in
  exists inc,
    (inc = 0 /\ (2 * W < 2 ^ u \/ (2 * W = 2 ^ u /\ sbit = 0)) \/
     inc = 1 /\ 2 ^ u <= 2 * W) /\
    round (mkFloat p sg finite M e) sbit
    = if T + inc <? 2 ^ p
      then mkFloat p sg finite ((T + inc) * 2 ^ ntz) e
      else mkFloat p sg finite (2 ^ (n' * 64 - 1)) (e + 1).
Proof.
  intros HM Hbl Hp He Hsb u T W n' ntz.
  assert (Hu : 1 <= u) by (unfold u; lia).
  assert (Hn' : p <= n' * 64 < p + 64).
  { unfold n'. pose proof (Z.div_mod (p + 63) 64 ltac:(lia)).
    pose proof (Z.mod_pos_bound (p + 63) 64 ltac:(lia)). lia. }
  assert (Hntz : 0 <= ntz < 64) by (unfold ntz; lia).
  assert (Hnm : n' <= m) by lia.
  assert (H2u : 0 < 2 ^ u) by (apply Z.pow_pos_nonneg; lia).
  assert (H2n : 0 < 2 ^ ntz) by (apply Z.pow_pos_nonneg; lia).
  assert (H2p : 0 < 2 ^ p) by (apply Z.pow_pos_nonneg; lia).
  pose proof (bitLen_bounds M HM) as HMb. rewrite Hbl in HMb.
  assert (HMW : M = T * 2 ^ u + W)
    by (unfold T, W; pose proof (Z.div_mod M (2 ^ u) ltac:(lia)); lia).
  assert (HW : 0 <= W < 2 ^ u) by (apply Z.mod_pos_bound; lia).
  assert (HTlt : T < 2 ^ p).
  { unfold T. apply Z.div_lt_upper_bound; [lia|].
    rewrite <- Z.pow_add_r by lia. replace (u + p) with (m * 64) by (unfold u; lia). lia. }
  assert (HT0 : 0 <= T) by (unfold T; apply Z.div_pos; lia).
  (* the mantissa cut to n' words *)
  set (c := (m - n') * 64).
  assert (Hc : 0 <= c) by (unfold c; lia).
  assert (Hcu : u = c + ntz) by (unfold u, c, ntz; lia).
  assert (Hm1 : (if n' <? m then Z.shiftr M ((m - n') * 64) else M) = M / 2 ^ c).
  { destruct (Z.ltb_spec n' m).
    - rewrite Z.shiftr_div_pow2 by lia. reflexivity.
    - assert (c = 0) by (unfold c; lia). replace c with 0 by lia.
      rewrite Z.pow_0_r, Z.div_1_r. reflexivity. }
  set (mant1 := M / 2 ^ c) in *.
  assert (H2c : 0 < 2 ^ c) by (apply Z.pow_pos_nonneg; lia).
  assert (Hm1T : mant1 / 2 ^ ntz = T).
  { unfold mant1, T. rewrite Z.div_div by lia.
    rewrite <- Z.pow_add_r by lia. rewrite Hcu. reflexivity. }
  assert (Hm10 : 0 <= mant1) by (unfold mant1; apply Z.div_pos; lia).
  set (g := mant1 mod 2 ^ ntz).
  assert (Hg : 0 <= g < 2 ^ ntz) by (apply Z.mod_pos_bound; lia).
  assert (Hm1g : mant1 = T * 2 ^ ntz + g).
  { rewrite <- Hm1T. unfold g. pose proof (Z.div_mod mant1 (2 ^ ntz) ltac:(lia)). lia. }
  assert (H2n' : 2 ^ (n' * 64) = 2 ^ p * 2 ^ ntz).
  { rewrite <- Z.pow_add_r by lia. f_equal. unfold ntz. lia. }
  (* the rounding bit *)
  assert (Hrbit : Z.testbit M (u - 1) = (2 ^ (u - 1) <=? W)).
  { rewrite testbit_mod by lia. replace (u - 1 + 1) with u by lia. reflexivity. }
  assert (H2u1 : 2 ^ u = 2 * 2 ^ (u - 1)).
  { replace u with (Z.succ (u - 1)) at 1 by lia. rewrite Z.pow_succ_r by lia. lia. }
  assert (Hstick : M mod 2 ^ (u - 1) = W mod 2 ^ (u - 1)).
  { unfold W. rewrite H2u1. rewrite Z.mul_comm.
    rewrite Z.rem_mul_r by (try apply Z.pow_nonzero; lia).
    rewrite Z.mul_comm, Z.mod_add by (apply Z.pow_nonzero; lia).
    rewrite Z.mod_mod by (apply Z.pow_nonzero; lia). reflexivity. }
  unfold round. cbn [fform form_eqb negb mant prec neg exp].
  rewrite (nat_len_normal _ _ Hbl). unfold _W. change (64 - 1) with 63.
  fold n'. destruct (Z.leb_spec (m * 64) p) as [|_]; [lia|].
  replace (m * 64 - p - 1) with (u - 1) by (unfold u; lia).
  rewrite Hm1. fold ntz. rewrite Z.shiftl_1_l.
  rewrite Hrbit. unfold sticky. rewrite Hstick.
  set (lowbit := negb (Z.land mant1 (2 ^ ntz) =? 0)).
  (* what is left is a case analysis on the three bits *)
  assert (Hfinal : forall inc : bool,
    (if inc && (2 ^ (n' * 64) <=? mant1 + 2 ^ ntz) && (MaxExp <=? e)
     then mkFloat p sg inf ((mant1 + 2 ^ ntz) mod 2 ^ (n' * 64)) e
     else mkFloat p sg finite
            (Z.ldiff
               (if inc && (2 ^ (n' * 64) <=? mant1 + 2 ^ ntz)
                then Z.lor (Z.shiftr ((mant1 + 2 ^ ntz) mod 2 ^ (n' * 64)) 1)
                           (2 ^ (n' * 64 - 1))
                else if inc then mant1 + 2 ^ ntz else mant1)
               (2 ^ ntz - 1))
            (if inc && (2 ^ (n' * 64) <=? mant1 + 2 ^ ntz) then e + 1 else e))
    = if T + Z.b2z inc <? 2 ^ p
      then mkFloat p sg finite ((T + Z.b2z inc) * 2 ^ ntz) e
      else mkFloat p sg finite (2 ^ (n' * 64 - 1)) (e + 1)).
  { intros [|]; cbn [andb Z.b2z].
    - destruct (Z.leb_spec (2 ^ (n' * 64)) (mant1 + 2 ^ ntz)) as [Hcarry|Hnc].
      + assert (HT1 : T + 1 = 2 ^ p) by nia.
        destruct (Z.leb_spec MaxExp e); [lia|]. cbn [andb].
        destruct (Z.ltb_spec (T + 1) (2 ^ p)); [lia|].
        f_equal.
        assert (Hsum : (mant1 + 2 ^ ntz) mod 2 ^ (n' * 64) = g).
        { replace (mant1 + 2 ^ ntz) with (g + 1 * 2 ^ (n' * 64)) by nia.
          rewrite Z.mod_add by lia. apply Z.mod_small. nia. }
        rewrite Hsum. rewrite Z.shiftr_div_pow2 by lia.
        change (2 ^ 1) with 2.
        assert (Hg2 : 0 <= g / 2 < 2 ^ ntz).
        { split; [apply Z.div_pos; lia|]. apply Z.div_lt_upper_bound; lia. }
        assert (Hspl : 2 ^ (n' * 64 - 1) = 2 ^ (n' * 64 - 1 - ntz) * 2 ^ ntz).
        { rewrite <- Z.pow_add_r by lia. f_equal. lia. }
        rewrite lor_pow2_high.
        * rewrite ldiff_low by lia. rewrite Hspl at 1.
          rewrite Z.div_add by lia. rewrite (Z.div_small (g / 2)) by lia.
          rewrite Hspl. lia.
        * split; [lia|]. rewrite Hspl.
          assert (0 < 2 ^ (n' * 64 - 1 - ntz)) by (apply Z.pow_pos_nonneg; lia). nia.
        * lia.
      + cbn [andb]. destruct (Z.ltb_spec (T + 1) (2 ^ p)); [|nia].
        f_equal. rewrite ldiff_low by lia.
        replace (mant1 + 2 ^ ntz) with (g + (T + 1) * 2 ^ ntz) by lia.
        rewrite Z.div_add by lia. rewrite Z.div_small by lia. lia.
    - rewrite Z.add_0_r. destruct (Z.ltb_spec T (2 ^ p)); [|lia].
      f_equal. rewrite ldiff_low by lia. rewrite Hm1T. reflexivity. }
  assert (Hw1 : 0 <= W mod 2 ^ (u - 1) < 2 ^ (u - 1))
    by (apply Z.mod_pos_bound; apply Z.pow_pos_nonneg; lia).
  assert (HWsplit : W = 2 ^ (u - 1) * (W / 2 ^ (u - 1)) + W mod 2 ^ (u - 1))
    by (apply Z.div_mod; apply Z.pow_nonzero; lia).
  destruct (Z.leb_spec (2 ^ (u - 1)) W) as [Hr1|Hr0]; cbn [Z.b2z].
  - (* rounding bit set *)
    change (Z.land 1 1) with 1.
    set (sb := Z.land (if sbit =? 0 then if W mod 2 ^ (u - 1) =? 0 then 0 else 1 else sbit) 1).
    assert (Hsbv : sb = 0 /\ sbit = 0 /\ W mod 2 ^ (u - 1) = 0 \/ sb = 1).
    { unfold sb. destruct Hsb as [->| ->]; cbn [Z.eqb].
      - destruct (Z.eqb_spec (W mod 2 ^ (u - 1)) 0); [left; auto|right; reflexivity].
      - right. reflexivity. }
    destruct Hsbv as [[Hs0 [Hs1 Hs2]]| Hs1'].
    + rewrite Hs0. change (Z.lor 1 0) with 1.
      change (1 =? 0) with false. change (0 =? 0) with true. cbn [negb andb orb].
      fold lowbit. exists (Z.b2z lowbit). split; [|apply Hfinal].
      assert (W / 2 ^ (u - 1) = 1).
      { assert (W / 2 ^ (u - 1) < 2)
          by (apply Z.div_lt_upper_bound; [apply Z.pow_pos_nonneg|]; lia).
        assert (1 <= W / 2 ^ (u - 1))
          by (apply Z.div_le_lower_bound; [apply Z.pow_pos_nonneg|]; lia).
        lia. }
      destruct lowbit; cbn [Z.b2z]; [right|left]; split; try reflexivity; [lia|].
      right. split; [nia|assumption].
    + rewrite Hs1'. change (Z.lor 1 1) with 1.
      change (1 =? 0) with false. cbn [negb andb orb].
      exists 1. split; [right; split; [reflexivity|lia]|]. apply (Hfinal true).
  - (* rounding bit clear *)
    change (Z.land 0 1) with 0.
    exists 0. split; [left; split; [reflexivity|left; lia]|].
    change (0 =? 0) with true.
    match goal with |- context [Z.lor 0 ?s] => destruct (Z.lor 0 s =? 0) end;
      cbn [negb andb]; apply (Hfinal false).
Qed.

Lemma bitLen_between q k :
  0 <= k -> 2 ^ k <= 2 * q -> q < 2 * 2 ^ k -> k <= bitLen q <= k + 1.
Proof.
  intros Hk Hlo Hhi.
  assert (H2k : 0 < 2 ^ k) by (apply Z.pow_pos_nonneg; lia).
  assert (Hq : 0 < q) by lia.
  rewrite bitLen_pos by lia. split.
  - destruct (Z.eq_dec k 0) as [->|Hne]; [pose proof (Z.log2_nonneg q); lia|].
    assert (2 ^ (k - 1) <= q).
    { replace k with (Z.succ (k - 1)) in Hlo by lia.
      rewrite Z.pow_succ_r in Hlo by lia. lia. }
    apply Z.log2_le_pow2 in H; lia.
  - assert (q < 2 ^ (k + 1)) by (rewrite Z.pow_add_r by lia; lia).
    apply Z.log2_lt_pow2 in H; lia.
Qed.

(** The quotient of two normalised mantissas loses at most one bit. *)
Lemma quotient_bits A my la ly :
  0 < A -> 0 < my -> bitLen A = la * 64 -> bitLen my = ly * 64 -> 0 < ly < la ->
  (la - ly) * 64 <= bitLen (A / my) <= (la - ly) * 64 + 1.
Proof.
  intros HA Hmy HbA Hbm Hl.
  pose proof (bitLen_bounds A HA) as HAb. rewrite HbA in HAb.
  pose proof (bitLen_bounds my Hmy) as Hmb. rewrite Hbm in Hmb.
  set (k := (la - ly) * 64).
  assert (Hk : 0 < k) by (unfold k; lia).
  assert (H2k : 0 < 2 ^ k) by (apply Z.pow_pos_nonneg; lia).
  assert (HA1 : 2 ^ (la * 64 - 1) = 2 ^ (k - 1) * 2 ^ (ly * 64)).
  { rewrite <- Z.pow_add_r by lia. f_equal. unfold k. lia. }
  assert (HA2 : 2 ^ (la * 64) = 2 * 2 ^ k * 2 ^ (ly * 64 - 1)).
  { replace (2 * 2 ^ k) with (2 ^ (k + 1)) by (rewrite Z.pow_add_r by lia; lia).
    rewrite <- Z.pow_add_r by lia. f_equal. unfold k. lia. }
  assert (Hk2 : 2 ^ k = 2 * 2 ^ (k - 1)).
  { replace k with (Z.succ (k - 1)) at 1 by lia. rewrite Z.pow_succ_r by lia. lia. }
  assert (H2k1 : 0 < 2 ^ (k - 1)) by (apply Z.pow_pos_nonneg; lia).
  apply bitLen_between; [lia| |].
  - assert (2 ^ (k - 1) <= A / my); [|lia].
    apply Z.div_le_lower_bound; [lia|]. nia.
  - apply Z.div_lt_upper_bound; [lia|].
    assert (0 < 2 ^ (ly * 64 - 1)) by (apply Z.pow_pos_nonneg; lia). nia.
Qed.

(** Moving a bound between two scalings of the same comparison. *)
Lemma rescale X Y b G1 G2 E1 E2 :
  0 <= G1 -> 0 <= G2 -> 0 <= E1 -> 0 <= E2 -> E1 - E2 = G1 - G2 ->
  2 * Z.abs (X * 2 ^ G1 * Y - b * 2 ^ G2) <= 2 ^ G1 * Y ->
  2 * Z.abs (X * 2 ^ E1 * Y - b * 2 ^ E2) <= 2 ^ E1 * Y.
Proof.
  intros HG1 HG2 HE1 HE2 Heq H.
  destruct (Z.le_ge_cases G1 E1) as [Hle|Hge].
  - set (k := E1 - G1). assert (Hk : 0 <= k) by (unfold k; lia).
    replace E1 with (G1 + k) by (unfold k; lia).
    replace E2 with (G2 + k) by (unfold k; lia).
    rewrite !Z.pow_add_r by lia.
    assert (H2k : 0 < 2 ^ k) by (apply Z.pow_pos_nonneg; lia).
    replace (X * (2 ^ G1 * 2 ^ k) * Y - b * (2 ^ G2 * 2 ^ k))
      with ((X * 2 ^ G1 * Y - b * 2 ^ G2) * 2 ^ k) by ring.
    rewrite Z.abs_mul, (Z.abs_eq (2 ^ k)) by lia. nia.
  - set (k := G1 - E1). assert (Hk : 0 <= k) by (unfold k; lia).
    replace G1 with (E1 + k) in H by (unfold k; lia).
    replace G2 with (E2 + k) in H by (unfold k; lia).
    rewrite !Z.pow_add_r in H by lia.
    assert (H2k : 0 < 2 ^ k) by (apply Z.pow_pos_nonneg; lia).
    replace (X * (2 ^ E1 * 2 ^ k) * Y - b * (2 ^ E2 * 2 ^ k))
      with ((X * 2 ^ E1 * Y - b * 2 ^ E2) * 2 ^ k) in H by ring.
    rewrite Z.abs_mul, (Z.abs_eq (2 ^ k)) in H by lia. nia.
Qed.

Lemma nearest_core q my r v T w inc :
  0 < my -> 0 <= r < my -> 1 <= v -> q = T * 2 ^ v + w -> 0 <= w < 2 ^ v ->
  (inc = 0 /\ (2 * w < 2 ^ v \/ (2 * w = 2 ^ v /\ r = 0)) \/
   inc = 1 /\ 2 ^ v <= 2 * w) ->
  2 * Z.abs ((T + inc) * 2 ^ v * my - (q * my + r)) <= 2 ^ v * my.
Proof.
  intros Hmy Hr Hv Hq Hw Hinc.
  assert (H2v : 2 ^ v = 2 * 2 ^ (v - 1)).
  { replace v with (Z.succ (v - 1)) at 1 by lia. rewrite Z.pow_succ_r by lia. lia. }
  assert (H2v1 : 0 < 2 ^ (v - 1)) by (apply Z.pow_pos_nonneg; lia).
  set (h := 2 ^ (v - 1)) in *. rewrite H2v in *. subst q.
  destruct Hinc as [[-> [Hlt|[Heq ->]]]|[-> Hge]].
  - replace ((T + 0) * (2 * h) * my - ((T * (2 * h) + w) * my + r))
      with (- (w * my + r)) by ring.
    rewrite Z.abs_opp, Z.abs_eq by nia. nia.
  - replace ((T + 0) * (2 * h) * my - ((T * (2 * h) + w) * my + 0))
      with (- (w * my)) by ring.
    rewrite Z.abs_opp, Z.abs_eq by nia. nia.
  - replace ((T + 1) * (2 * h) * my - ((T * (2 * h) + w) * my + r))
      with ((2 * h - w) * my - r) by ring.
    rewrite Z.abs_eq by nia. nia.
Qed.

Lemma shift_div_mod q s v :
  0 <= s -> 0 <= v ->
  (q * 2 ^ s) / 2 ^ (v + s) = q / 2 ^ v /\
  (q * 2 ^ s) mod 2 ^ (v + s) = (q mod 2 ^ v) * 2 ^ s.
Proof.
  intros Hs Hv. rewrite Z.pow_add_r by lia.
  assert (2 ^ s <> 0) by (apply Z.pow_nonzero; lia).
  assert (2 ^ v <> 0) by (apply Z.pow_nonzero; lia).
  split; [apply Z.div_mul_cancel_r; lia|apply Z.mul_mod_distr_r; lia].
Qed.

Lemma bitLen_exact X p : 0 < p -> 2 ^ (p - 1) <= X < 2 ^ p -> bitLen X = p.
Proof.
  intros Hp HX. assert (0 < 2 ^ (p - 1)) by (apply Z.pow_pos_nonneg; lia).
  rewrite bitLen_pos by lia.
  rewrite (Z.log2_unique X (p - 1)); [lia|lia|].
  replace (Z.succ (p - 1)) with p by lia. exact HX.
Qed.

(** A [p]-bit integer mantissa [X] at exponent [e] is within half a unit
    in the last place of [b / Y] when it is so at any common scaling. *)
Lemma near_from_scaled p X Y b e G1 G2 :
  0 < p -> 2 ^ (p - 1) <= X < 2 ^ p ->
  0 <= G1 -> 0 <= G2 -> G1 - G2 = e - p ->
  2 * Z.abs (X * 2 ^ G1 * Y - b * 2 ^ G2) <= 2 ^ G1 * Y ->
  Float_near (mkFloat p false finite (X * 2 ^ ((p + 63) / 64 * 64 - p)) e) b Y = true.
Proof.
  intros Hp HX HG1 HG2 HG Hcore.
  set (n' := (p + 63) / 64).
  assert (Hn' : p <= n' * 64 < p + 64).
  { unfold n'. pose proof (Z.div_mod (p + 63) 64 ltac:(lia)).
    pose proof (Z.mod_pos_bound (p + 63) 64 ltac:(lia)). lia. }
  set (ntz := n' * 64 - p). assert (Hntz : 0 <= ntz) by (unfold ntz; lia).
  assert (HX0 : 0 < X) by (assert (0 < 2 ^ (p - 1)) by (apply Z.pow_pos_nonneg; lia); lia).
  unfold Float_near. cbn [fform neg mant exp prec].
  rewrite bitLen_shift by lia. rewrite (bitLen_exact X p Hp HX).
  replace (p + ntz - p) with ntz by lia.
  replace (p + ntz) with (n' * 64) by (unfold ntz; lia).
  destruct (Z.leb_spec 0 (e - n' * 64)) as [Hsh|Hsh]; apply Z.leb_le.
  - pose proof (rescale X Y b G1 G2 (ntz + (e - n' * 64)) 0 HG1 HG2
                  ltac:(lia) ltac:(lia) ltac:(unfold ntz; lia) Hcore) as H.
    rewrite Z.pow_add_r in H by lia. rewrite Z.pow_0_r, Z.mul_1_r in H.
    rewrite <- (Z.mul_assoc X). exact H.
  - pose proof (rescale X Y b G1 G2 ntz (- (e - n' * 64)) HG1 HG2
                  ltac:(lia) ltac:(lia) ltac:(unfold ntz; lia) Hcore) as H.
    exact H.
Qed.

(** The quotient of two positive integers is a normalised mantissa of
    [p] bits, [p] the larger of the operands' precisions, and it is within
    half a unit in the last place of the exact quotient. *)
Lemma Quo_rounded b Y :
  0 < b -> 0 < Y -> bitLen b <= 2 ^ 20 -> bitLen Y <= 2 ^ 20 ->
  let p := Z.max (Z.max (bitLen b) 64) (Z.max (bitLen Y) 64) in
  exists X e,
    Quo newFloat (SetInt newFloat b) (SetInt newFloat Y)
    = Some (mkFloat p false finite (X * 2 ^ ((p + 63) / 64 * 64 - p)) e) /\
    2 ^ (p - 1) <= X < 2 ^ p /\
    Float_near (mkFloat p false finite (X * 2 ^ ((p + 63) / 64 * 64 - p)) e) b Y
    = true.
Proof.
  intros Hb HY HLb HLY p0.
  pose proof (bitLen_nonneg b) as HLb0. pose proof (bitLen_nonneg Y) as HLY0.
  pose proof (nat_len_bounds b) as Hlx. pose proof (nat_len_bounds Y) as Hly.
  pose proof (nat_len_pos b Hb) as Hlxp. pose proof (nat_len_pos Y HY) as Hlyp.
  unfold _W in Hlx, Hly.
  rewrite !SetInt_pos by (unfold MaxExp; lia).
  set (Lb := bitLen b) in *. set (LY := bitLen Y) in *.
  set (lx := nat_len b) in *. set (ly := nat_len Y) in *.
  set (sx := lx * 64 - Lb). set (sy := ly * 64 - LY).
  set (p := Z.max (Z.max Lb 64) (Z.max LY 64)).
  assert (Hp64 : 64 <= p) by (unfold p; lia).
  unfold Quo, newFloat. cbn [prec mant exp fform neg form_eqb andb xorb].
  change (0 =? 0) with true. cbv iota. fold p. subst p0. fold p.
  match goal with |- exists X e, Some ?u = Some _ /\ _ =>
    enough (Hform : exists X e,
              u = mkFloat p false finite (X * 2 ^ ((p + 63) / 64 * 64 - p)) e /\
              2 ^ (p - 1) <= X < 2 ^ p /\
              Float_near (mkFloat p false finite (X * 2 ^ ((p + 63) / 64 * 64 - p)) e)
                         b Y = true)
  end.
  { destruct Hform as [X [e [Hq Hrest]]]. exists X, e. rewrite Hq. auto. }
  unfold uquo. cbn [prec mant exp fform neg].
  set (mx := b * 2 ^ sx). set (my := Y * 2 ^ sy).
  assert (Hbx : bitLen mx = lx * 64)
    by (unfold mx; rewrite bitLen_shift by (unfold sx; lia); unfold sx; fold Lb; lia).
  assert (Hby : bitLen my = ly * 64)
    by (unfold my; rewrite bitLen_shift by (unfold sy; lia); unfold sy; fold LY; lia).
  assert (Hmx : 0 < mx)
    by (unfold mx; apply Z.mul_pos_pos; [lia|apply Z.pow_pos_nonneg; unfold sx; lia]).
  assert (Hmy : 0 < my)
    by (unfold my; apply Z.mul_pos_pos; [lia|apply Z.pow_pos_nonneg; unfold sy; lia]).
  rewrite (nat_len_normal _ _ Hbx), (nat_len_normal _ _ Hby). unfold _W.
  set (n := p / 64 + 1).
  assert (Hn : p < n * 64 <= p + 64).
  { unfold n. pose proof (Z.div_mod p 64 ltac:(lia)).
    pose proof (Z.mod_pos_bound p 64 ltac:(lia)). lia. }
  set (d := n - lx + ly).
  set (dd := Z.max d 0).
  assert (Hxadj : (if 0 <? d then Z.shiftl mx (d * 64) else mx) = b * 2 ^ (sx + dd * 64)).
  { unfold mx. destruct (Z.ltb_spec 0 d).
    - rewrite Z.shiftl_mul_pow2 by lia. rewrite <- Z.mul_assoc, <- Z.pow_add_r
        by (unfold sx; lia). f_equal. f_equal. unfold dd. lia.
    - f_equal. f_equal. unfold dd. lia. }
  rewrite Hxadj. set (a := sx + dd * 64). set (A := b * 2 ^ a).
  set (la := lx + dd).
  assert (Ha : 0 <= a) by (unfold a, sx, dd; lia).
  assert (HbA : bitLen A = la * 64)
    by (unfold A; rewrite bitLen_shift by lia; unfold a, la, sx; fold Lb; lia).
  assert (HA : 0 < A)
    by (unfold A; apply Z.mul_pos_pos; [lia|apply Z.pow_pos_nonneg; lia]).
  rewrite (nat_len_normal _ _ HbA).
  set (d' := la - ly).
  assert (Hd' : n <= d') by (unfold d', la, dd, d; lia).
  set (q := A / my). set (r := A mod my).
  assert (HAqr : A = q * my + r)
    by (unfold q, r; pose proof (Z.div_mod A my ltac:(lia)); lia).
  assert (Hr : 0 <= r < my) by (apply Z.mod_pos_bound; lia).
  pose proof (quotient_bits A my la ly HA Hmy HbA Hby ltac:(unfold d' in Hd'; lia)) as HLq.
  fold d' q in HLq. set (Lq := bitLen q) in *.
  assert (Hq : 0 < q).
  { destruct (Z.eq_dec q 0) as [E|E].
    - unfold Lq in HLq. rewrite E, bitLen_0 in HLq. lia.
    - assert (0 <= q) by (unfold q; apply Z.div_pos; lia). lia. }
  pose proof (nat_len_bounds q) as Hlq. unfold _W in Hlq. fold Lq in Hlq.
  set (lq := nat_len q) in *.
  rewrite fnorm_pos by exact Hq. fold lq Lq.
  set (s := lq * 64 - Lq).
  assert (Hs : 0 <= s) by (unfold s; lia).
  set (e := Lb - LY - (d' - lq) * 64 - s).
  set (sbit := if r =? 0 then 0 else 1).
  unfold setExpAndRound, MinExp, MaxExp. cbn [prec mant exp fform neg].
  assert (Hd'b : d' <= 2 ^ 21) by (unfold d', la, dd, d; lia).
  assert (He : -2 ^ 30 <= e <= 2 ^ 30) by (unfold e, s; lia).
  destruct (Z.ltb_spec e (-2147483648)); [lia|].
  destruct (Z.ltb_spec 2147483647 e); [lia|].
  (* the rounding *)
  assert (Hqn : 0 < q * 2 ^ s)
    by (apply Z.mul_pos_pos; [lia|apply Z.pow_pos_nonneg; lia]).
  assert (Hbqn : bitLen (q * 2 ^ s) = lq * 64)
    by (rewrite bitLen_shift by lia; fold Lq; unfold s; lia).
  assert (Hlqn : n <= lq) by lia.
  destruct (round_inexact p false (q * 2 ^ s) e lq sbit Hqn Hbqn
              ltac:(lia) ltac:(unfold MaxExp; lia)
              ltac:(unfold sbit; destruct (r =? 0); auto))
    as [inc [Hinc Hround]].
  rewrite Hround. clear Hround.
  set (u := lq * 64 - p) in *.
  set (v := Lq - p).
  assert (Hv : 1 <= v) by (unfold v; lia).
  assert (Huv : u = v + s) by (unfold u, v, s; lia).
  destruct (shift_div_mod q s v Hs ltac:(lia)) as [HTq HWq].
  rewrite Huv in Hinc. rewrite Huv. rewrite HTq in *. rewrite HWq in Hinc.
  set (T := q / 2 ^ v) in *. set (w := q mod 2 ^ v) in *.
  assert (H2s : 0 < 2 ^ s) by (apply Z.pow_pos_nonneg; lia).
  assert (H2v : 0 < 2 ^ v) by (apply Z.pow_pos_nonneg; lia).
  assert (Hw : 0 <= w < 2 ^ v) by (apply Z.mod_pos_bound; lia).
  assert (HqT : q = T * 2 ^ v + w)
    by (unfold T, w; pose proof (Z.div_mod q (2 ^ v) ltac:(lia)); lia).
  assert (Hinc' : inc = 0 /\ (2 * w < 2 ^ v \/ 2 * w = 2 ^ v /\ r = 0) \/
                  inc = 1 /\ 2 ^ v <= 2 * w).
  { rewrite Z.pow_add_r in Hinc by lia.
    destruct Hinc as [[Hi [Hlt|[Heq Hsb]]]|[Hi Hge]].
    - left. split; [exact Hi|]. left. clear - Hlt H2s. nia.
    - left. split; [exact Hi|]. right. split; [clear - Heq H2s; nia|].
      unfold sbit in Hsb. destruct (Z.eqb_spec r 0); [assumption|discriminate].
    - right. split; [exact Hi|]. clear - Hge H2s. nia. }
  pose proof (nearest_core q my r v T w inc Hmy Hr Hv HqT Hw Hinc') as Hcore.
  rewrite <- HAqr in Hcore.
  assert (Hsy : 0 <= sy) by (unfold sy; lia).
  assert (HG : 2 * Z.abs ((T + inc) * 2 ^ (v + sy) * Y - b * 2 ^ a)
               <= 2 ^ (v + sy) * Y).
  { unfold my, A in Hcore. rewrite Z.pow_add_r by lia.
    replace ((T + inc) * (2 ^ v * 2 ^ sy) * Y) with ((T + inc) * 2 ^ v * (Y * 2 ^ sy))
      by ring.
    replace (2 ^ v * 2 ^ sy * Y) with (2 ^ v * (Y * 2 ^ sy)) by ring. exact Hcore. }
  assert (Hexp : v + sy - a = e - p)
    by (unfold v, sy, a, e, s, d', la, sx; lia).
  pose proof (bitLen_bounds q Hq) as Hqb. fold Lq in Hqb.
  assert (HTb : 2 ^ (p - 1) <= T < 2 ^ p).
  { unfold T. split.
    - apply Z.div_le_lower_bound; [lia|]. rewrite <- Z.pow_add_r by lia.
      replace (v + (p - 1)) with (Lq - 1) by (unfold v; lia). lia.
    - apply Z.div_lt_upper_bound; [lia|]. rewrite <- Z.pow_add_r by lia.
      replace (v + p) with Lq by (unfold v; lia). lia. }
  assert (Hincb : inc = 0 \/ inc = 1) by (destruct Hinc' as [[? _]|[? _]]; auto).
  destruct (Z.ltb_spec (T + inc) (2 ^ p)) as [Hnc|Hcarry].
  - exists (T + inc), e. split; [reflexivity|].
    split; [clear - HTb Hnc Hincb; lia|].
    apply (near_from_scaled p (T + inc) Y b e (v + sy) a);
      [clear - Hp64; lia | clear - HTb Hnc Hincb; lia | clear - Hv Hsy; lia
      | exact Ha | exact Hexp | exact HG].
  - assert (HX : T + inc = 2 ^ p) by (clear - HTb Hcarry Hincb; lia).
    rewrite HX in HG.
    assert (H2p : 2 ^ p = 2 ^ (p - 1) * 2).
    { clear - Hp64. replace p with (Z.succ (p - 1)) at 1 by lia.
      rewrite Z.pow_succ_r by lia. lia. }
    assert (H2p1 : 0 < 2 ^ (p - 1)) by (clear - Hp64; apply Z.pow_pos_nonneg; lia).
    exists (2 ^ (p - 1)), (e + 1).
    replace (2 ^ ((p + 63) / 64 * 64 - 1))
      with (2 ^ (p - 1) * 2 ^ ((p + 63) / 64 * 64 - p)).
    2: { clear - Hp64.
         pose proof (Z.div_mod (p + 63) 64 ltac:(lia)).
         pose proof (Z.mod_pos_bound (p + 63) 64 ltac:(lia)).
         rewrite <- Z.pow_add_r; [f_equal; lia|lia|lia]. }
    split; [reflexivity|]. split; [clear - H2p H2p1; lia|].
    apply (near_from_scaled p (2 ^ (p - 1)) Y b (e + 1) (v + sy + 1) a);
      [clear - Hp64; lia | clear - H2p H2p1; lia | clear - Hv Hsy; lia
      | exact Ha | clear - Hexp; lia | ].
    rewrite (Z.pow_add_r 2 (v + sy) 1) by (clear - Hv Hsy; lia). change (2 ^ 1) with 2.
    replace (2 ^ (p - 1) * (2 ^ (v + sy) * 2) * Y) with (2 ^ (p - 1) * 2 * 2 ^ (v + sy) * Y)
      by ring.
    rewrite <- H2p.
    assert (H2G : 0 < 2 ^ (v + sy)) by (clear - Hv Hsy; apply Z.pow_pos_nonneg; lia).
    clear - HG H2G HY. nia.
Qed.

Lemma Quo_nearest b Y :
  0 < b -> 0 < Y -> bitLen b <= 2 ^ 20 -> bitLen Y <= 2 ^ 20 ->
  exists q,
    Quo newFloat (SetInt newFloat b) (SetInt newFloat Y) = Some q /\
    Float_near q b Y = true.
Proof.
  intros Hb HY HLb HLY.
  destruct (Quo_rounded b Y Hb HY HLb HLY) as [X [e [Hq [_ Hnear]]]].
  eexists. split; [exact Hq|exact Hnear].
Qed.

(** C3, as stated, fails: the division is carried out in [big.Float], a
    binary floating-point number of finite precision, and its result is
    rounded. For a balance of 2^64 - 1 and 18 decimals the quotient is not
    the exact fraction, and the printed text ends in ...616 where the
    exact decimal expansion ends in ...615. *)
Lemma quotient_is_rounded :
  ~ (forall b dec, 0 <= b < 2 ^ 256 ->
       exists q, daiBalanceFloat b dec = Some q /\
                 Float_is q b (10 ^ int64_of_uint8 dec) = true) /\
  balanceText 18446744073709551615 (uint8 18) = Some "18.446744073709551616"%string.
Proof.
  split; [|vm_compute; reflexivity].
  intros H. destruct (H 18446744073709551615 (uint8 18)) as [q [Hq Hex]].
  - split; [discriminate|reflexivity].
  - vm_compute in Hq. injection Hq as <-. vm_compute in Hex. discriminate.
Qed.

(** C3, amended. Both operands are converted without loss for every
    integer of the [uint256] range ([SetInt] takes a mantissa of
    max(bit length, 64) bits), but the division itself is a [big.Float]
    division: its result exists, is zero or finite, and is a binary
    floating-point number whose precision is the larger of the operands'
    precisions, max(bitLen(balance), bitLen(10^decimals), 64) bits,
    rounded to that precision: it lies within half a unit in its last
    place of the exact quotient. It is exact when [decimals] is 0. *)
Theorem quotient_is_a_rounded_big_Float b dec :
  0 <= b < 2 ^ 256 ->
  Float_is (SetInt newFloat b) b 1 = true /\
  Float_is (SetInt newFloat (Int_Exp 10 (int64_of_uint8 dec)))
           (Int_Exp 10 (int64_of_uint8 dec)) 1 = true /\
  exists q,
    daiBalanceFloat b dec = Some q /\ fform q <> inf /\
    prec q = Z.max (Z.max (bitLen b) 64)
                   (Z.max (bitLen (Int_Exp 10 (int64_of_uint8 dec))) 64) /\
    Float_near q b (Int_Exp 10 (int64_of_uint8 dec)) = true /\
    (int64_of_uint8 dec = 0 -> Float_is q b 1 = true).
Proof.
  intros Hb. pose proof (ten_pow_bounds dec) as HY.
  pose proof (bitLen_le_pow2 b 256 ltac:(lia) ltac:(lia)) as HLb.
  pose proof (bitLen_le_pow2 (Int_Exp 10 (int64_of_uint8 dec)) 1024
                ltac:(lia) ltac:(lia)) as HLY.
  split; [apply SetInt_exact; unfold MaxExp; lia|].
  split; [apply SetInt_exact; unfold MaxExp; lia|].
  destruct (daiBalanceFloat_finite b dec Hb) as [q [Hq [Hf [Hn Hp]]]].
  exists q. split; [exact Hq|]. split; [exact Hf|]. split; [exact Hp|]. split.
  { destruct (Z.eq_dec b 0) as [->|Hne].
    - unfold daiBalanceFloat in Hq.
      rewrite (SetInt_pos (Int_Exp 10 (int64_of_uint8 dec))) in Hq
        by (unfold MaxExp; lia).
      vm_compute in Hq. injection Hq as <-. reflexivity.
    - destruct (Quo_nearest b (Int_Exp 10 (int64_of_uint8 dec)))
        as [q' [Hq' Hnear]]; [lia|lia|lia|lia|].
      unfold daiBalanceFloat in Hq. rewrite Hq' in Hq. injection Hq as <-.
      exact Hnear. }
  intros Hd. unfold daiBalanceFloat in Hq. rewrite Hd in Hq.
  change (Int_Exp 10 0) with 1 in Hq.
  destruct (Z.eq_dec b 0) as [->|Hne].
  - vm_compute in Hq. injection Hq as <-. reflexivity.
  - rewrite Quo_by_one in Hq; [|lia|clear - HLb; lia]. injection Hq as <-.
    unfold Float_is. cbn [fform neg mant exp].
    pose proof (bitLen_nonneg b).
    set (k := (Z.max (bitLen b) 64 + 63) / 64 * 64 - bitLen b).
    assert (0 <= k).
    { unfold k. pose proof (Z.div_mod (Z.max (bitLen b) 64 + 63) 64 ltac:(lia)).
      pose proof (Z.mod_pos_bound (Z.max (bitLen b) 64 + 63) 64 ltac:(lia)). lia. }
    rewrite bitLen_shift by lia.
    replace (bitLen b - (bitLen b + k)) with (- k) by lia.
    destruct (Z.leb_spec 0 (- k)).
    + replace k with 0 by lia. cbn. apply Z.eqb_eq. lia.
    + apply Z.eqb_eq. rewrite Z.opp_involutive. lia.
Qed.

Lemma quotient_witness :
  Float_is (SetInt newFloat 18446744073709551615) 18446744073709551615 1 = true /\
  Float_is (SetInt newFloat (Int_Exp 10 (int64_of_uint8 (uint8 18))))
           (Int_Exp 10 (int64_of_uint8 (uint8 18))) 1 = true /\
  exists q,
    daiBalanceFloat 18446744073709551615 (uint8 18) = Some q /\
    fform q <> inf /\
    prec q = Z.max (Z.max (bitLen 18446744073709551615) 64)
                   (Z.max (bitLen (Int_Exp 10 (int64_of_uint8 (uint8 18)))) 64) /\
    Float_near q 18446744073709551615 (Int_Exp 10 (int64_of_uint8 (uint8 18))) = true /\
    (int64_of_uint8 (uint8 18) = 0 -> Float_is q 18446744073709551615 1 = true).
Proof.
  apply (quotient_is_a_rounded_big_Float 18446744073709551615 (uint8 18)).
  split; [discriminate|reflexivity].
Defined.

End Balance.

(** * The decimal text of the balance *)

Section Rendering.

Open Scope Z_scope.
Open Scope list_scope.

(** ** Numerals *)

(** The value of a numeral, digit by digit and part by part. *)
Lemma fold_digits_acc l a :
  fold_left (fun acc c => acc * 10 + digit_val c) l a
  = a * 10 ^ zlen l + digits_val l.
Proof.
  unfold digits_val, zlen. revert a. induction l as [|c l IH]; intros a.
  - cbn. lia.
  - cbn [fold_left length]. rewrite IH. rewrite (IH (0 * 10 + digit_val c)).
    rewrite Nat2Z.inj_succ, Z.pow_succ_r by lia. ring.
Qed.

Lemma digits_val_app l1 l2 :
  digits_val (l1 ++ l2) = digits_val l1 * 10 ^ zlen l2 + digits_val l2.
Proof.
  unfold digits_val at 1. rewrite fold_left_app. apply fold_digits_acc.
Qed.

Lemma digits_val_cons c l :
  digits_val (c :: l) = digit_val c * 10 ^ zlen l + digits_val l.
Proof.
  unfold digits_val at 1. cbn [fold_left]. rewrite fold_digits_acc. lia.
Qed.

Lemma digit_val_range c : is_digit c = true -> 0 <= digit_val c <= 9.
Proof.
  unfold is_digit, digit_val. intros H. apply andb_true_iff in H as [H1 H2].
  apply N.leb_le in H1, H2. lia.
Qed.

Lemma digit_val_inj c1 c2 :
  digit_val c1 = digit_val c2 -> c1 = c2.
Proof.
  unfold digit_val. intros H.
  rewrite <- (ascii_N_embedding c1), <- (ascii_N_embedding c2). f_equal. lia.
Qed.

Lemma digit_val_nonzero c : is_digit c = true -> c <> "0"%char -> 1 <= digit_val c.
Proof.
  intros Hd Hne. pose proof (digit_val_range c Hd).
  destruct (Z.eq_dec (digit_val c) 0) as [E|E]; [|lia].
  exfalso. apply Hne. apply digit_val_inj. rewrite E. reflexivity.
Qed.

Lemma zlen_nonneg {A} (l : list A) : 0 <= zlen l.
Proof. unfold zlen. lia. Qed.

Lemma zlen_cons {A} (c : A) l : zlen (c :: l) = zlen l + 1.
Proof. unfold zlen. cbn [length]. lia. Qed.

Lemma zlen_app {A} (l1 l2 : list A) : zlen (l1 ++ l2) = zlen l1 + zlen l2.
Proof. unfold zlen. rewrite length_app. lia. Qed.

Lemma zlen_replicate {A} n (c : A) : zlen (replicate n c) = Z.of_nat n.
Proof. unfold zlen. now rewrite length_replicate. Qed.

Lemma digits_val_bounds l : digits l -> 0 <= digits_val l < 10 ^ zlen l.
Proof.
  induction 1 as [|c l Hc Hl IH].
  - change (0 <= 0 < 1). lia.
  - rewrite digits_val_cons, zlen_cons.
    pose proof (digit_val_range c Hc). pose proof (zlen_nonneg l).
    rewrite Z.pow_add_r by lia. change (10 ^ 1) with 10.
    assert (0 < 10 ^ zlen l) by (apply Z.pow_pos_nonneg; lia).
    destruct IH as [IH1 IH2].
    assert (digit_val c * 10 ^ zlen l <= 9 * 10 ^ zlen l)
      by (apply Z.mul_le_mono_nonneg_r; lia).
    assert (0 <= digit_val c * 10 ^ zlen l) by (apply Z.mul_nonneg_nonneg; lia).
    lia.
Qed.

(** Numerals of the same length that denote the same number are equal. *)
Lemma digits_val_inj l1 l2 :
  digits l1 -> digits l2 -> length l1 = length l2 ->
  digits_val l1 = digits_val l2 -> l1 = l2.
Proof.
  intros H1. revert l2. induction H1 as [|c1 l1 Hc1 Hl1 IH]; intros l2 H2 Hlen Hv.
  - destruct l2; [reflexivity|discriminate].
  - destruct H2 as [|c2 l2 Hc2 Hl2]; [discriminate|].
    injection Hlen as Hlen.
    rewrite !digits_val_cons in Hv.
    assert (Hz : zlen l1 = zlen l2) by (unfold zlen; lia).
    rewrite Hz in Hv.
    pose proof (digits_val_bounds l1 Hl1) as B1. rewrite Hz in B1.
    pose proof (digits_val_bounds l2 Hl2) as B2.
    pose proof (digit_val_range c1 Hc1). pose proof (digit_val_range c2 Hc2).
    assert (digit_val c1 = digit_val c2) by nia.
    assert (digits_val l1 = digits_val l2) by nia.
    f_equal; [now apply digit_val_inj | now apply IH].
Qed.

Lemma canon_bounds l :
  canon l -> 10 ^ (zlen l - 1) <= digits_val l < 10 ^ zlen l.
Proof.
  intros [Hd [c [l' [-> Hc]]]]. split; [|now apply digits_val_bounds].
  inversion Hd as [|? ? Hdc Hdl]; subst.
  rewrite digits_val_cons, zlen_cons. replace (zlen l' + 1 - 1) with (zlen l') by lia.
  pose proof (digit_val_nonzero c Hdc Hc). pose proof (digits_val_bounds l' Hdl).
  pose proof (zlen_nonneg l').
  assert (0 < 10 ^ zlen l') by (apply Z.pow_pos_nonneg; lia). nia.
Qed.

(** So are numerals without leading zero, of any length. *)
Lemma canon_eq l1 l2 :
  canon l1 -> canon l2 -> digits_val l1 = digits_val l2 -> l1 = l2.
Proof.
  intros C1 C2 Hv. pose proof (canon_bounds l1 C1) as B1.
  pose proof (canon_bounds l2 C2) as B2. rewrite Hv in B1.
  assert (Hz : zlen l1 = zlen l2).
  { pose proof (zlen_nonneg l1). pose proof (zlen_nonneg l2).
    destruct (Z.lt_trichotomy (zlen l1) (zlen l2)) as [Hlt|[E|Hgt]]; [|exact E|].
    - assert (10 ^ zlen l1 <= 10 ^ (zlen l2 - 1)) by (apply Z.pow_le_mono_r; lia). lia.
    - assert (10 ^ zlen l2 <= 10 ^ (zlen l1 - 1)) by (apply Z.pow_le_mono_r; lia). lia. }
  apply digits_val_inj; [apply C1|apply C2|unfold zlen in Hz; lia|exact Hv].
Qed.

(** The conversion of the Standard Library, digit by digit. *)
Lemma of_uint_acc_val d acc :
  fold_left (fun a c => a * 10 + digit_val c)
            (list_ascii_of_string (NilEmpty.string_of_uint d)) (Z.pos acc)
  = Z.pos (Pos.of_uint_acc d acc).
Proof.
  revert acc. induction d; intros acc; cbn [NilEmpty.string_of_uint
    list_ascii_of_string fold_left Pos.of_uint_acc];
    try reflexivity; rewrite <- IHd; f_equal; unfold digit_val; cbn; lia.
Qed.

Lemma of_uint_val d :
  digits_val (list_ascii_of_string (NilEmpty.string_of_uint d))
  = Z.of_N (Pos.of_uint d).
Proof.
  unfold digits_val.
  induction d; cbn [NilEmpty.string_of_uint list_ascii_of_string fold_left Pos.of_uint];
    try reflexivity; try exact IHd;
    match goal with |- fold_left _ _ ?a = _ =>
      let v := eval cbv in a in change a with v end;
    rewrite of_uint_acc_val; reflexivity.
Qed.

(** [utoa] writes its argument, without leading zero, and it is the
    only such numeral. *)
Lemma utoa_val n : 0 <= n -> digits_val (utoa n) = n.
Proof.
  intros Hn. unfold utoa, NilZero.string_of_uint.
  pose proof (DecimalN.Unsigned.of_to (Z.to_N n)) as Hof.
  destruct (N.to_uint (Z.to_N n)) eqn:E;
    try (rewrite of_uint_val; unfold N.of_uint in Hof; rewrite Hof; lia).
  cbn in Hof. change (0 = n). lia.
Qed.

Lemma utoa_0 : utoa 0 = ["0"%char].
Proof. reflexivity. Qed.

Lemma utoa_canon n : 0 < n -> canon (utoa n).
Proof.
  intros Hn. split; [apply utoa_digits|].
  pose proof (utoa_val n ltac:(lia)) as Hv.
  unfold utoa, NilZero.string_of_uint in *.
  pose proof (DecimalN.Unsigned.to_of (N.to_uint (Z.to_N n))) as Hto.
  rewrite DecimalN.Unsigned.of_to in Hto.
  set (d := N.to_uint (Z.to_N n)) in *.
  assert (Hnz : forall u, Decimal.unorm (Decimal.D0 u) = Decimal.D0 u ->
                          u = Decimal.Nil).
  { intros u Hu. rewrite DecimalFacts.unorm_D0 in Hu.
    destruct (Decimal.uint_eq_dec u Decimal.Nil) as [E|E]; [exact E|].
    pose proof (DecimalFacts.nb_digits_unorm u E) as Hnb.
    rewrite Hu in Hnb. cbn in Hnb. lia. }
  destruct d eqn:E; symmetry in Hto.
  - change (0 = n) in Hv. lia.
  - rewrite (Hnz u Hto) in Hv. change (0 = n) in Hv. lia.
  - cbn. eexists _, _. split; [reflexivity|discriminate].
  - cbn. eexists _, _. split; [reflexivity|discriminate].
  - cbn. eexists _, _. split; [reflexivity|discriminate].
  - cbn. eexists _, _. split; [reflexivity|discriminate].
  - cbn. eexists _, _. split; [reflexivity|discriminate].
  - cbn. eexists _, _. split; [reflexivity|discriminate].
  - cbn. eexists _, _. split; [reflexivity|discriminate].
  - cbn. eexists _, _. split; [reflexivity|discriminate].
  - cbn. eexists _, _. split; [reflexivity|discriminate].
Qed.

Lemma utoa_unique l : canon l -> utoa (digits_val l) = l.
Proof.
  intros C. pose proof (canon_bounds l C) as B.
  assert (0 < digits_val l).
  { pose proof (zlen_nonneg l). destruct C as [_ [c [l' [-> _]]]].
    rewrite zlen_cons in B. replace (zlen l' + 1 - 1) with (zlen l') in B by lia.
    pose proof (zlen_nonneg l').
    assert (0 < 10 ^ zlen l') by (apply Z.pow_pos_nonneg; lia). lia. }
  apply canon_eq; [now apply utoa_canon|exact C|apply utoa_val; lia].
Qed.


Lemma digits_zeros k : digits (replicate k "0"%char).
Proof. apply Forall_replicate. reflexivity. Qed.

Lemma digits_val_zeros k : digits_val (replicate k "0"%char) = 0.
Proof.
  induction k as [|k IH]; [reflexivity|].
  cbn [replicate]. rewrite digits_val_cons, IH. reflexivity.
Qed.

Lemma digits_val_nines k : digits_val (replicate k "9"%char) = 10 ^ Z.of_nat k - 1.
Proof.
  induction k as [|k IH]; [reflexivity|].
  cbn [replicate]. rewrite digits_val_cons, IH, zlen_replicate.
  rewrite Nat2Z.inj_succ, Z.pow_succ_r by lia.
  change (digit_val "9") with 9. lia.
Qed.

Lemma utoa_len n : 0 < n -> 10 ^ (zlen (utoa n) - 1) <= n < 10 ^ zlen (utoa n).
Proof.
  intros Hn. pose proof (canon_bounds _ (utoa_canon n Hn)) as B.
  rewrite utoa_val in B by lia. exact B.
Qed.

Lemma canon_app l m : canon l -> digits m -> canon (l ++ m).
Proof.
  intros [Hd [c [l' [-> Hc]]]] Hm. split; [now apply Forall_app|].
  exists c, (l' ++ m)%list. split; [reflexivity|exact Hc].
Qed.

Lemma canon_pos l : canon l -> 0 < digits_val l.
Proof.
  intros C. pose proof (canon_bounds l C) as B. pose proof (zlen_nonneg l).
  destruct C as [_ [c [l' [-> _]]]]. rewrite zlen_cons in *.
  replace (zlen l' + 1 - 1) with (zlen l') in B by lia.
  pose proof (zlen_nonneg l').
  assert (0 < 10 ^ zlen l') by (apply Z.pow_pos_nonneg; lia). lia.
Qed.

(** Multiplying by a power of ten appends zeros. *)
Lemma utoa_shift a k :
  0 < a -> utoa (a * 10 ^ Z.of_nat k) = utoa a ++ replicate k "0"%char.
Proof.
  intros Ha.
  assert (C : canon (utoa a ++ replicate k "0"%char))
    by (apply canon_app; [now apply utoa_canon|apply digits_zeros]).
  rewrite <- (utoa_unique _ C). f_equal.
  rewrite digits_val_app, digits_val_zeros, zlen_replicate, utoa_val by lia. lia.
Qed.

Lemma rev_zeros k (c : ascii) : rev (replicate k c) = replicate k c.
Proof.
  induction k as [|k IH]; [reflexivity|].
  cbn [replicate rev]. rewrite IH. clear.
  induction k as [|k IH]; [reflexivity|]. cbn. now rewrite IH.
Qed.

Lemma trim_zeros_rev_zeros k l :
  trim_zeros_rev (replicate k "0"%char ++ l) = trim_zeros_rev l.
Proof. induction k as [|k IH]; [reflexivity|]. cbn. exact IH. Qed.

(** The loop that strips trailing zeros. *)
Lemma strip_app_zeros l k :
  strip_trailing_zeros (l ++ replicate k "0"%char) = strip_trailing_zeros l.
Proof.
  unfold strip_trailing_zeros. rewrite rev_app_distr, rev_zeros.
  now rewrite trim_zeros_rev_zeros.
Qed.

Lemma strip_snoc l c :
  c <> "0"%char -> strip_trailing_zeros (l ++ [c]) = l ++ [c].
Proof.
  intros Hc. unfold strip_trailing_zeros. rewrite rev_app_distr. cbn [rev app].
  cbn [trim_zeros_rev]. destruct (Ascii.eqb_spec c "0"); [contradiction|].
  cbn [rev]. now rewrite rev_involutive.
Qed.

Lemma strip_idem l :
  strip_trailing_zeros (strip_trailing_zeros l) = strip_trailing_zeros l.
Proof.
  destruct (strip_trailing_zeros_spec l) as [k Hk].
  rewrite Hk at 2. now rewrite strip_app_zeros.
Qed.

Lemma strip_canon l : canon l -> canon (strip_trailing_zeros l).
Proof.
  intros [Hd [c [l' [-> Hc]]]].
  destruct (strip_trailing_zeros_spec (c :: l')) as [k Hk].
  split; [now apply strip_trailing_zeros_digits|].
  destruct (strip_trailing_zeros (c :: l')) as [|c0 m].
  - exfalso. destruct k; [discriminate|]. cbn in Hk. injection Hk as -> _. now apply Hc.
  - exists c0, m. split; [reflexivity|]. cbn in Hk. injection Hk as -> _. exact Hc.
Qed.

(** The digits of a positive integer: the stripped mantissa and the
    zeros that were stripped. *)
Lemma utoa_split I :
  0 < I ->
  exists z,
    utoa I = strip_trailing_zeros (utoa I) ++ replicate z "0"%char /\
    canon (strip_trailing_zeros (utoa I)) /\
    I = digits_val (strip_trailing_zeros (utoa I)) * 10 ^ Z.of_nat z /\
    zlen (utoa I) = zlen (strip_trailing_zeros (utoa I)) + Z.of_nat z.
Proof.
  intros HI. destruct (strip_trailing_zeros_spec (utoa I)) as [z Hz].
  exists z. split; [exact Hz|]. split; [apply strip_canon, utoa_canon, HI|].
  split.
  - rewrite <- (utoa_val I) at 1 by lia. rewrite Hz at 1.
    rewrite digits_val_app, digits_val_zeros, zlen_replicate. lia.
  - rewrite Hz at 1. now rewrite zlen_app, zlen_replicate.
Qed.

(** Eighteen digits are the padded numeral of their value. *)
Lemma pad18_unique F :
  digits F -> length F = 18%nat -> pad18 (digits_val F) = F.
Proof.
  intros Hd Hl. pose proof (digits_val_bounds F Hd) as B.
  unfold zlen in B. rewrite Hl in B. change (Z.of_nat 18) with 18 in B.
  set (r := digits_val F) in *.
  assert (Hlen : (length (utoa r) <= 18)%nat).
  { destruct (Z.eq_dec r 0) as [->|Hne]; [cbn; lia|].
    pose proof (utoa_len r ltac:(lia)) as Hu.
    pose proof (zlen_nonneg (utoa r)).
    destruct (Z.le_gt_cases (zlen (utoa r)) 18) as [Hle|Hgt]; [unfold zlen in Hle; lia|].
    assert (10 ^ 18 <= 10 ^ (zlen (utoa r) - 1)) by (apply Z.pow_le_mono_r; lia). lia. }
  apply digits_val_inj.
  - unfold pad18. apply Forall_app. split; [apply digits_zeros|apply utoa_digits].
  - exact Hd.
  - unfold pad18. rewrite length_app, length_replicate. lia.
  - unfold pad18. rewrite digits_val_app, digits_val_zeros, utoa_val by lia. fold r. lia.
Qed.


(** [at] reads the mantissa as if the stripped zeros were still there. *)
Lemma dat_spec sU z e j :
  dat (mkDecimal sU e) j
  = if 0 <=? j then default "0"%char ((sU ++ replicate z "0"%char) !! Z.to_nat j)
    else "0"%char.
Proof.
  unfold dat. cbn [dmant]. unfold zlen.
  destruct (Z.leb_spec 0 j) as [Hj|Hj]; cbn [andb]; [|reflexivity].
  destruct (Z.ltb_spec j (Z.of_nat (length sU))) as [Hlt|Hge].
  - rewrite lookup_app_l by lia. reflexivity.
  - rewrite lookup_app_r by lia.
    destruct (replicate z "0"%char !! (Z.to_nat j - length sU)%nat) as [c|] eqn:E;
      [|reflexivity].
    apply lookup_replicate in E as [-> _]. reflexivity.
Qed.

Lemma take_padded (sU : list ascii) z k :
  (k <= length sU + z)%nat ->
  take (Nat.min (length sU) k) sU ++ replicate (k - Nat.min (length sU) k) "0"%char
  = take k (sU ++ replicate z "0"%char).
Proof.
  intros Hk. destruct (Nat.le_gt_cases k (length sU)) as [Hle|Hgt].
  - rewrite Nat.min_r by lia. replace (k - k)%nat with 0%nat by lia.
    cbn [replicate]. rewrite app_nil_r. now rewrite take_app_le by lia.
  - rewrite Nat.min_l by lia. rewrite take_ge by lia.
    rewrite take_app_ge by lia. rewrite take_replicate. f_equal. f_equal. lia.
Qed.

(** The eighteen fraction digits that [fmtF] reads through [at]. *)
Lemma fraction_digits sU z e :
  map (fun i => dat (mkDecimal sU e) (e + Z.of_nat i)) (seq 0 18)
  = take 18 (drop (Z.to_nat e) (replicate (Z.to_nat (- e)) "0"%char
                                 ++ sU ++ replicate z "0"%char)
             ++ replicate 18 "0"%char).
Proof.
  set (pad := replicate 18 "0"%char).
  assert (Hpad : forall j, (j < 18)%nat -> pad !! j = Some "0"%char)
    by (intros j Hj; apply lookup_replicate_2, Hj).
  apply list_eq. intros i.
  destruct (Nat.lt_ge_cases i 18) as [Hi|Hi].
  2: { rewrite lookup_ge_None_2 by (rewrite length_map, length_seq; lia).
       rewrite lookup_ge_None_2; [reflexivity|]. rewrite length_take. lia. }
  rewrite list_lookup_fmap, lookup_seq_lt by lia. cbn [fmap option_fmap option_map Nat.add].
  rewrite lookup_take_lt by lia. rewrite (dat_spec sU z).
  destruct (Z.leb_spec 0 (e + Z.of_nat i)) as [Hj|Hj].
  - destruct (Z.le_gt_cases 0 e) as [He|He].
    + replace (Z.to_nat (- e)) with 0%nat by lia. cbn [replicate app].
      set (U := sU ++ replicate z "0"%char).
      destruct (Nat.lt_ge_cases (Z.to_nat e + i) (length U)) as [Hin|Hout].
      * rewrite lookup_app_l by (rewrite length_drop; lia).
        rewrite lookup_drop. replace (Z.to_nat (e + Z.of_nat i)) with (Z.to_nat e + i)%nat by lia.
        destruct (lookup_lt_is_Some_2 U _ Hin) as [c Hc]. rewrite Hc. reflexivity.
      * rewrite lookup_app_r by (rewrite length_drop; lia).
        replace (Z.to_nat (e + Z.of_nat i)) with (Z.to_nat e + i)%nat by lia.
        rewrite (lookup_ge_None_2 U) by lia. cbn [default].
        rewrite Hpad; [reflexivity|]. rewrite length_drop. lia.
    + replace (Z.to_nat e) with 0%nat by lia. rewrite drop_0.
      set (U := sU ++ replicate z "0"%char).
      rewrite <- app_assoc.
      rewrite lookup_app_r by (rewrite length_replicate; lia).
      rewrite length_replicate.
      replace (i - Z.to_nat (- e))%nat with (Z.to_nat (e + Z.of_nat i)) by lia.
      destruct (Nat.lt_ge_cases (Z.to_nat (e + Z.of_nat i)) (length U)) as [Hin|Hout].
      * rewrite lookup_app_l by lia.
        destruct (lookup_lt_is_Some_2 U _ Hin) as [c Hc]. rewrite Hc. reflexivity.
      * rewrite lookup_app_r by lia. rewrite (lookup_ge_None_2 U) by lia.
        cbn [default]. rewrite Hpad; [reflexivity|]. lia.
  - assert (He : e < 0) by lia.
    replace (Z.to_nat e) with 0%nat by lia. rewrite drop_0.
    rewrite <- app_assoc. rewrite lookup_app_l by (rewrite length_replicate; lia).
    rewrite lookup_replicate_2; [reflexivity|lia].
Qed.

(** [fmtF] of a decimal whose digits all lie beyond the eighteenth
    place, and of the canonical decimal of [N / 10^18]. *)
Lemma fmtF_zero sU e :
  e + 18 <= 0 -> fmtF 18 (mkDecimal sU e) = fixed18_list 0.
Proof.
  intros He. unfold fmtF. cbn [dexp dmant].
  destruct (Z.ltb_spec 0 e); [lia|]. change (0 <? 18) with true. cbv iota.
  change (Z.to_nat 18) with 18%nat.
  rewrite (fraction_digits sU 0).
  set (pad := replicate 18 "0"%char).
  replace (Z.to_nat e) with 0%nat by lia. rewrite drop_0.
  rewrite <- app_assoc.
  rewrite take_app_le by (rewrite length_replicate; lia).
  rewrite take_replicate. replace (Nat.min 18 (Z.to_nat (- e))) with 18%nat by lia.
  reflexivity.
Qed.

Lemma fmtF_canon N :
  0 < N -> fmtF 18 (Dec N 18) = fixed18_list N.
Proof.
  intros HN. destruct (utoa_split N HN) as [z [HU [Hc [HNv Hz]]]].
  pose proof (utoa_canon N HN) as HcU.
  pose proof (utoa_len N HN) as HlenU.
  pose proof (utoa_val N ltac:(lia)) as HvU.
  set (U := utoa N) in *. set (sU := strip_trailing_zeros U) in *.
  unfold Dec. fold U sU. unfold fmtF. cbn [dexp dmant].
  change (0 <? 18) with true. cbv iota. change (Z.to_nat 18) with 18%nat.
  rewrite (fraction_digits sU z). rewrite <- HU.
  set (pad := replicate 18 "0"%char).
  unfold fixed18_list.
  pose proof (zlen_nonneg U) as HL0.
  destruct (Z.ltb_spec 0 (zlen U - 18)) as [Hbig|Hsmall].
  - (* more than eighteen digits *)
    set (k := Z.to_nat (zlen U - 18)).
    assert (Hk : (0 < k /\ k + 18 = length U)%nat) by (unfold k, zlen in *; lia).
    replace (Z.to_nat (- (zlen U - 18))) with 0%nat by lia. cbn [replicate app].
    assert (Hint : take (Z.to_nat (Z.min (zlen sU) (zlen U - 18))) sU
                   ++ replicate (Z.to_nat (zlen U - 18 - Z.min (zlen sU) (zlen U - 18))) "0"%char
                   = take k U).
    { transitivity (take k (sU ++ replicate z "0"%char)); [|now rewrite <- HU].
      rewrite <- (take_padded sU z k).
      - f_equal; [f_equal|f_equal]; unfold k, zlen; lia.
      - unfold zlen in Hz. lia. }
    rewrite Hint.
    assert (Hld : length (drop k U) = 18%nat) by (rewrite length_drop; lia).
    rewrite (take_app_le (drop k U) pad 18) by lia.
    rewrite (take_ge (drop k U)) by lia.
    assert (Hsplit : N = digits_val (take k U) * 10 ^ 18 + digits_val (drop k U)).
    { rewrite <- HvU. rewrite <- (take_drop k U) at 1. rewrite digits_val_app.
      unfold zlen. rewrite length_drop. f_equal. f_equal. f_equal. lia. }
    assert (Hdd : digits (drop k U)) by (apply Forall_drop, HcU).
    assert (Hdt : digits (take k U)) by (apply Forall_take, HcU).
    pose proof (digits_val_bounds _ Hdd) as Bd. unfold zlen in Bd.
    rewrite length_drop in Bd. replace (Z.of_nat (length U - k)) with 18 in Bd by lia.
    assert (Hq : N / 10 ^ 18 = digits_val (take k U)).
    { symmetry. apply (Z.div_unique_pos N (10 ^ 18) _ (digits_val (drop k U))); lia. }
    assert (Hr : N mod 10 ^ 18 = digits_val (drop k U)).
    { symmetry. apply (Z.mod_unique_pos N (10 ^ 18) (digits_val (take k U))); lia. }
    rewrite Hq, Hr. f_equal.
    + symmetry. apply utoa_unique. split; [exact Hdt|].
      destruct HcU as [_ [c [l' [HUc Hcne]]]]. exists c, (take (k - 1) l').
      split; [|exact Hcne]. rewrite HUc. destruct k; [lia|]. cbn. f_equal. f_equal. lia.
    + f_equal. symmetry. apply pad18_unique; [exact Hdd|]. rewrite length_drop. lia.
  - (* at most eighteen digits *)
    assert (HN18 : N < 10 ^ 18).
    { assert (10 ^ zlen U <= 10 ^ 18) by (apply Z.pow_le_mono_r; lia). lia. }
    rewrite Z.div_small, Z.mod_small by lia.
    replace (Z.to_nat (zlen U - 18)) with 0%nat by lia. rewrite drop_0.
    rewrite take_app_le
      by (rewrite length_app, length_replicate; unfold zlen in *; lia).
    rewrite take_ge by (rewrite length_app, length_replicate; unfold zlen in *; lia).
    unfold pad18. fold U. cbn [app]. f_equal. f_equal. f_equal. f_equal.
    unfold zlen. lia.
Qed.


Lemma digit_nine c :
  is_digit c = true -> 9 <= digit_val c -> c = "9"%char.
Proof.
  intros Hd H9. pose proof (digit_val_range c Hd).
  apply digit_val_inj. change (digit_val "9") with 9. lia.
Qed.

(** The loop of [roundUp] drops nines, and stops at a smaller digit. *)
Lemma drop_nines_spec l :
  digits l ->
  exists j, l = replicate j "9"%char ++ drop_nines_rev l /\
            match drop_nines_rev l with
            | [] => True
            | c :: _ => digit_val c <= 8
            end.
Proof.
  induction 1 as [|c l Hc Hl [j [IH1 IH2]]]; [exists 0%nat; split; [reflexivity|exact I]|].
  cbn [drop_nines_rev]. change (Z.of_N (N_of_ascii "9")) with 57.
  destruct (Z.leb_spec 57 (Z.of_N (N_of_ascii c))) as [H9|H9].
  - exists (S j). split; [|exact IH2]. cbn [replicate app]. f_equal; [|exact IH1].
    apply digit_nine; [exact Hc|unfold digit_val; lia].
  - exists 0%nat. split; [reflexivity|]. unfold digit_val. lia.
Qed.

Lemma digit_val_succ c :
  is_digit c = true -> digit_val c <= 8 ->
  digit_val (ascii_succ c) = digit_val c + 1 /\ is_digit (ascii_succ c) = true /\
  ascii_succ c <> "0"%char.
Proof.
  intros Hd H8. pose proof (digit_val_range c Hd) as Hr.
  unfold digit_val, ascii_succ, is_digit in *.
  apply andb_true_iff in Hd as [H1 H2]. apply N.leb_le in H1, H2.
  rewrite N_ascii_embedding by lia. split; [lia|]. split.
  - apply andb_true_iff. split; apply N.leb_le; lia.
  - intros E. apply (f_equal N_of_ascii) in E. rewrite N_ascii_embedding in E by lia.
    change (N_of_ascii "0") with 48%N in E. lia.
Qed.

Lemma canon_take sU n :
  canon sU -> (0 < n)%nat -> canon (take n sU).
Proof.
  intros [Hd [c [l' [-> Hc]]]] Hn. split; [now apply Forall_take|].
  destruct n; [lia|]. exists c, (take n l'). split; [reflexivity|exact Hc].
Qed.

(** [roundDown] keeps the first [n] digits; [roundUp] adds one to the
    number they denote. *)
Lemma roundDown_spec sU n :
  canon sU -> 0 <= n < zlen sU ->
  roundDown (mkDecimal sU (n - 18)) n
  = if n =? 0 then mkDecimal [] 0
    else Dec (digits_val (take (Z.to_nat n) sU)) 18.
Proof.
  intros Hc Hn. unfold roundDown. cbn [dmant dexp].
  destruct (Z.ltb_spec n 0); [lia|]. destruct (Z.leb_spec (zlen sU) n); [lia|].
  cbn [orb]. unfold trim. cbn [dmant dexp].
  destruct (Z.eqb_spec n 0) as [->|Hne]; [reflexivity|].
  assert (HcP : canon (take (Z.to_nat n) sU)) by (apply canon_take; [exact Hc|lia]).
  unfold Dec. rewrite (utoa_unique _ HcP).
  pose proof (strip_canon _ HcP) as [_ [c [l' [Hs _]]]].
  rewrite Hs. rewrite zlen_cons. pose proof (zlen_nonneg l').
  destruct (Z.eqb_spec (zlen l' + 1) 0); [lia|].
  f_equal. unfold zlen in *. rewrite length_take. lia.
Qed.

Lemma roundUp_spec sU n :
  canon sU -> 0 <= n < zlen sU ->
  roundUp (mkDecimal sU (n - 18)) n
  = Dec (digits_val (take (Z.to_nat n) sU) + 1) 18.
Proof.
  intros Hc Hn. unfold roundUp. cbn [dmant dexp].
  destruct (Z.ltb_spec n 0); [lia|]. destruct (Z.leb_spec (zlen sU) n); [lia|].
  cbn [orb].
  set (P := take (Z.to_nat n) sU).
  assert (HlP : length P = Z.to_nat n)
    by (unfold P, zlen in *; rewrite length_take; lia).
  assert (HdP : digits P) by (apply Forall_take, Hc).
  destruct (drop_nines_spec (rev P) ltac:(now apply Forall_rev)) as [j [Hj Hrest]].
  assert (HP : P = rev (drop_nines_rev (rev P)) ++ replicate j "9"%char).
  { rewrite <- (rev_involutive P) at 1. rewrite Hj at 1.
    now rewrite rev_app_distr, rev_zeros. }
  destruct (drop_nines_rev (rev P)) as [|c' l'] eqn:Hdn.
  - (* all nines *)
    cbn [rev app] in HP.
    assert (Hjn : j = Z.to_nat n)
      by (rewrite <- HlP, HP at 1; now rewrite length_replicate).
    rewrite HP, digits_val_nines.
    replace (10 ^ Z.of_nat j - 1 + 1) with (1 * 10 ^ Z.of_nat j) by lia.
    unfold Dec. rewrite utoa_shift by lia. change (utoa 1) with ["1"%char].
    rewrite strip_app_zeros. change (strip_trailing_zeros ["1"%char]) with ["1"%char].
    f_equal. rewrite zlen_app, zlen_replicate. change (zlen ["1"%char]) with 1. lia.
  - (* a digit below nine takes the carry *)
    cbn [rev] in HP.
    assert (HdX : digits (rev l' ++ [c'])).
    { rewrite HP in HdP. apply Forall_app in HdP. apply HdP. }
    apply Forall_app in HdX as [Hdl Hdc]. inversion Hdc as [|? ? Hdc' _]; subst.
    destruct (digit_val_succ c' Hdc' Hrest) as [Hsv [Hsd Hsn]].
    set (X := rev l' ++ [ascii_succ c']).
    assert (HcX : canon X).
    { split; [apply Forall_app; split; [exact Hdl|repeat constructor; exact Hsd]|].
      destruct (rev l') as [|h tl] eqn:Hrl.
      - exists (ascii_succ c'), []. split; [reflexivity|exact Hsn].
      - exists h, (tl ++ [ascii_succ c']). split; [reflexivity|].
        destruct Hc as [_ [c [sU' [HsU Hcne]]]].
        assert (Hh : P = c :: take (Z.to_nat n - 1) sU').
        { unfold P. rewrite HsU. destruct (Z.to_nat n) eqn:En.
          - rewrite HP in HlP. rewrite length_app in HlP. cbn in HlP. lia.
          - cbn. f_equal. f_equal. lia. }
        rewrite HP in Hh. cbn in Hh. injection Hh as -> _. exact Hcne. }
    assert (HvP : digits_val P + 1 = digits_val X * 10 ^ Z.of_nat j).
    { rewrite HP. rewrite digits_val_app, digits_val_nines, zlen_replicate.
      unfold X. rewrite !digits_val_app. change (zlen [c']) with 1.
      change (zlen [ascii_succ c']) with 1.
      change (digits_val [c']) with (0 * 10 + digit_val c').
      change (digits_val [ascii_succ c']) with (0 * 10 + digit_val (ascii_succ c')).
      rewrite Hsv. ring. }
    rewrite HvP. unfold Dec. rewrite utoa_shift by (now apply canon_pos).
    rewrite (utoa_unique _ HcX). rewrite strip_app_zeros.
    unfold X at 1. rewrite strip_snoc by exact Hsn.
    f_equal. rewrite zlen_app, zlen_replicate.
    assert (zlen X = zlen (rev l' ++ [c'])) by (unfold X; rewrite !zlen_app; reflexivity).
    rewrite HP in HlP. rewrite length_app, length_replicate in HlP.
    unfold zlen in *. lia.
Qed.

(** [shouldRoundUp] looks at the first dropped digit, and at a tie at the
    digit before it. *)
Lemma rounding_choice P c R e :
  digits (P ++ c :: R) ->
  let x := mkDecimal (P ++ c :: R) e in
  (shouldRoundUp x (zlen P) = true -> 5 <= digit_val c) /\
  (shouldRoundUp x (zlen P) = false ->
   digit_val c <= 4 \/ (digit_val c = 5 /\ R = [])).
Proof.
  intros Hd x. unfold shouldRoundUp.
  assert (Hat : dat x (zlen P) = c).
  { unfold x. rewrite (dat_spec _ 0). pose proof (zlen_nonneg P).
    destruct (Z.leb_spec 0 (zlen P)); [|lia]. unfold zlen. rewrite Nat2Z.id.
    rewrite app_nil_r. rewrite list_lookup_middle by reflexivity. reflexivity. }
  rewrite Hat. unfold x. cbn [dmant].
  change (Z.of_N (N_of_ascii "5")) with 53.
  destruct (Ascii.eqb_spec c "5") as [->|Hne]; cbn [andb].
  - destruct (Z.eqb_spec (zlen P + 1) (zlen (P ++ "5"%char :: R))) as [Hlast|Hmore].
    + change (digit_val "5") with 5. split; [lia|]. intros _. right. split; [reflexivity|].
      rewrite zlen_app, zlen_cons in Hlast. destruct R; [reflexivity|].
      rewrite zlen_cons in Hlast. pose proof (zlen_nonneg R). lia.
    + change (digit_val "5") with 5. split; [lia|].
      change (N_of_ascii "5") with 53%N. cbn. discriminate.
  - unfold digit_val. split; intros H.
    + apply Z.leb_le in H. lia.
    + apply Z.leb_gt in H. left. lia.
Qed.


(** Rounding the decimal of [I / 10^t] to eighteen fraction digits and
    printing it gives the text of an integer number [N] of units of
    [10^-18] that is within half a unit of [I / 10^t]. *)
Lemma dround_spec I t :
  0 < I ->
  exists N,
    0 <= N /\
    fmtF 18 (dround (Dec I t) (dexp (Dec I t) + 18)) = fixed18_list N /\
    2 * Z.abs (N * 10 ^ Z.max (t - 18) 0 - I * 10 ^ Z.max (18 - t) 0)
      <= 10 ^ Z.max (t - 18) 0.
Proof.
  intros HI. destruct (utoa_split I HI) as [z [HU [Hc [HIv Hz]]]].
  pose proof (utoa_len I HI) as HlenU.
  unfold Dec at 2. cbn [dexp].
  set (U := utoa I) in *. set (sU := strip_trailing_zeros U) in *.
  set (n := zlen U - t + 18).
  pose proof (zlen_nonneg U) as HL0. pose proof (zlen_nonneg sU) as HsL0.
  assert (HDec : Dec I t = mkDecimal sU (zlen U - t)) by reflexivity.
  destruct (Z.le_gt_cases t 18) as [Ht|Ht].
  - (* nothing to round: all digits are kept *)
    exists (I * 10 ^ (18 - t)). split; [|split].
    + apply Z.mul_nonneg_nonneg; [lia|apply Z.pow_nonneg; lia].
    + unfold dround. rewrite HDec. cbn [dmant dexp].
      destruct (Z.ltb_spec n 0); [unfold n in *; lia|].
      destruct (Z.leb_spec (zlen sU) n); [|unfold n in *; lia]. cbn [orb].
      rewrite <- (fmtF_canon (I * 10 ^ (18 - t)))
        by (apply Z.mul_pos_pos; [lia|apply Z.pow_pos_nonneg; lia]).
      f_equal. unfold Dec.
      replace (18 - t) with (Z.of_nat (Z.to_nat (18 - t))) by lia.
      rewrite utoa_shift by lia. fold U. rewrite strip_app_zeros. fold sU.
      f_equal. rewrite zlen_app, zlen_replicate. lia.
    + rewrite (Z.max_r (t - 18)) by lia. rewrite (Z.max_l (18 - t)) by lia.
      rewrite Z.pow_0_r.
      replace (I * 10 ^ (18 - t) * 1 - I * 10 ^ (18 - t)) with 0 by lia.
      change (Z.abs 0) with 0. lia.
  - set (e := t - 18). assert (He : 0 < e) by (unfold e; lia).
    rewrite (Z.max_l (t - 18)) by lia. rewrite (Z.max_r (18 - t)) by lia.
    rewrite Z.pow_0_r, Z.mul_1_r. fold e.
    assert (Hne : n = zlen U - e) by (unfold n, e; lia).
    assert (H10e : 0 < 10 ^ e) by (apply Z.pow_pos_nonneg; lia).
    destruct (Z.lt_ge_cases n 0) as [Hneg|Hn0].
    + (* too small to show *)
      exists 0. split; [lia|]. split.
      * unfold dround. rewrite HDec. cbn [dmant dexp].
        destruct (Z.ltb_spec n 0); [|lia]. cbn [orb].
        apply fmtF_zero. unfold n in Hneg. lia.
      * assert (10 ^ zlen U <= 10 ^ (e - 1)) by (apply Z.pow_le_mono_r; lia).
        assert (10 ^ e = 10 * 10 ^ (e - 1)).
        { replace e with (Z.succ (e - 1)) at 1 by lia. rewrite Z.pow_succ_r by lia. lia. }
        rewrite Z.mul_0_l, Z.sub_0_l, Z.abs_opp, Z.abs_eq by lia. lia.
    + destruct (Z.le_gt_cases (zlen sU) n) as [Hall|Hcut].
      * (* the dropped digits are all zeros *)
        set (k := Z.to_nat (Z.of_nat z - e)).
        assert (Hk : Z.of_nat z = Z.of_nat k + e) by (unfold k; lia).
        set (N := digits_val sU * 10 ^ Z.of_nat k).
        assert (HN : 0 < N)
          by (apply Z.mul_pos_pos; [now apply canon_pos|apply Z.pow_pos_nonneg; lia]).
        assert (HNI : N * 10 ^ e = I).
        { unfold N. rewrite <- Z.mul_assoc, <- Z.pow_add_r by lia.
          rewrite <- Hk. symmetry. exact HIv. }
        exists N. split; [lia|]. split.
        -- unfold dround. rewrite HDec. cbn [dmant dexp].
           destruct (Z.ltb_spec n 0); [lia|].
           destruct (Z.leb_spec (zlen sU) n); [|lia]. cbn [orb].
           rewrite <- (fmtF_canon N HN). f_equal. unfold Dec, N.
           rewrite utoa_shift by (now apply canon_pos).
           rewrite (utoa_unique _ Hc), strip_app_zeros.
           assert (Hidem : strip_trailing_zeros sU = sU) by (unfold sU; apply strip_idem).
           rewrite Hidem. f_equal.
           rewrite zlen_app, zlen_replicate. lia.
        -- rewrite HNI. replace (I - I) with 0 by lia. change (Z.abs 0) with 0. lia.
      * (* a digit is dropped: round *)
        assert (Hsplit : exists P c R, sU = P ++ c :: R /\ zlen P = n).
        { destruct (lookup_lt_is_Some_2 sU (Z.to_nat n)) as [c Hcn];
            [unfold zlen in *; lia|].
          exists (take (Z.to_nat n) sU), c, (drop (S (Z.to_nat n)) sU). split.
          - symmetry. now apply take_drop_middle.
          - unfold zlen in *. rewrite length_take. lia. }
        destruct Hsplit as [P [c [R [HsU HlP]]]].
        assert (HPt : take (Z.to_nat n) sU = P).
        { rewrite HsU. rewrite take_app_length'; [reflexivity|unfold zlen in HlP; lia]. }
        assert (Hd : digits (P ++ c :: R)) by (rewrite <- HsU; apply Hc).
        pose proof Hd as Hd'. apply Forall_app in Hd' as [HdP HdcR].
        apply Forall_cons in HdcR as [Hdc HdR].
        pose proof (digit_val_range c Hdc) as Hcr.
        pose proof (digits_val_bounds R HdR) as HRb.
        pose proof (digits_val_bounds P HdP) as HPb.
        pose proof (zlen_nonneg R) as Hr0.
        set (K := digits_val P) in *. set (r := zlen R) in *.
        assert (Hexp : e = 1 + r + Z.of_nat z).
        { rewrite HsU in Hz. rewrite zlen_app, zlen_cons in Hz. fold r in Hz. lia. }
        assert (HIK : I = K * 10 ^ e + (digit_val c * 10 ^ r + digits_val R) * 10 ^ Z.of_nat z).
        { rewrite HIv, HsU. rewrite digits_val_app, digits_val_cons, zlen_cons.
          fold K r. rewrite Hexp. rewrite !Z.pow_add_r by lia. change (10 ^ 1) with 10. ring. }
        assert (H10e' : 10 ^ e = 10 * 10 ^ r * 10 ^ Z.of_nat z).
        { rewrite Hexp. rewrite !Z.pow_add_r by lia. reflexivity. }
        assert (H10r : 0 < 10 ^ r) by (apply Z.pow_pos_nonneg; lia).
        assert (H10z : 0 < 10 ^ Z.of_nat z) by (apply Z.pow_pos_nonneg; lia).
        destruct (rounding_choice P c R (zlen U - t) Hd) as [Hup Hdown].
        rewrite <- HsU, HlP in Hup, Hdown.
        assert (Hexp18 : zlen U - t = n - 18) by (unfold n; lia).
        unfold dround. rewrite HDec. cbn [dmant dexp].
        destruct (Z.ltb_spec n 0); [lia|].
        destruct (Z.leb_spec (zlen sU) n); [lia|]. cbn [orb].
        destruct (shouldRoundUp (mkDecimal sU (zlen U - t)) n) eqn:Hs.
        -- specialize (Hup eq_refl). exists (K + 1). split; [lia|]. split.
           ++ rewrite Hexp18. rewrite roundUp_spec by (try exact Hc; lia).
              rewrite HPt. fold K. apply fmtF_canon. lia.
           ++ rewrite HIK, H10e'.
              set (A := 10 ^ r) in *. set (B := 10 ^ Z.of_nat z) in *.
              set (v := digits_val R) in *. set (dc := digit_val c) in *.
              replace ((K + 1) * (10 * A * B) - (K * (10 * A * B) + (dc * A + v) * B))
                with ((10 * A - dc * A - v) * B) by ring.
              assert (Hnn : 0 <= 10 * A - dc * A - v) by (clear - Hcr HRb H10r; nia).
              rewrite Z.abs_eq by (apply Z.mul_nonneg_nonneg; [exact Hnn|clear - H10z; lia]).
              assert (Hhalf : 2 * (10 * A - dc * A - v) <= 10 * A)
                by (clear - Hup HRb H10r; nia).
              rewrite Z.mul_assoc.
              apply Z.mul_le_mono_nonneg_r; [clear - H10z; lia|exact Hhalf].
        -- specialize (Hdown eq_refl). exists K. split; [lia|]. split.
           ++ rewrite Hexp18. rewrite roundDown_spec by (try exact Hc; lia).
              rewrite HPt. fold K.
              destruct (Z.eqb_spec n 0) as [En|En].
              ** assert (HP0 : P = [])
                   by (destruct P; [reflexivity|rewrite zlen_cons in HlP;
                                    pose proof (zlen_nonneg P); lia]).
                 assert (HK0 : K = 0) by (unfold K; rewrite HP0; reflexivity).
                 rewrite HK0. reflexivity.
              ** apply fmtF_canon.
                 assert (canon P) by (rewrite <- HPt; apply canon_take; [exact Hc|lia]).
                 now apply canon_pos.
           ++ rewrite HIK, H10e'.
              set (A := 10 ^ r) in *. set (B := 10 ^ Z.of_nat z) in *.
              set (v := digits_val R) in *. set (dc := digit_val c) in *.
              replace (K * (10 * A * B) - (K * (10 * A * B) + (dc * A + v) * B))
                with (- ((dc * A + v) * B)) by ring.
              assert (Hnn : 0 <= dc * A + v) by (clear - Hcr HRb H10r; nia).
              rewrite Z.abs_opp.
              rewrite Z.abs_eq by (apply Z.mul_nonneg_nonneg; [exact Hnn|clear - H10z; lia]).
              assert (Hhalf : 2 * (dc * A + v) <= 10 * A).
              { destruct Hdown as [H4|[H5 HR]].
                - clear - H4 HRb H10r Hcr. nia.
                - subst R. unfold v, A, r. change (digits_val []) with 0.
                  change (zlen []) with 0. rewrite H5. cbn. lia. }
              rewrite Z.mul_assoc.
              apply Z.mul_le_mono_nonneg_r; [clear - H10z; lia|exact Hhalf].
Qed.


Lemma pos_ctz_nonneg p : 0 <= pos_ctz p.
Proof. induction p; cbn [pos_ctz]; lia. Qed.

(** Trailing zero bits can be shifted out without loss. *)
Lemma pos_ctz_divides p : Z.pos p mod 2 ^ pos_ctz p = 0.
Proof.
  induction p as [p IH|p IH|]; cbn [pos_ctz]; try apply Z.mod_1_r.
  pose proof (pos_ctz_nonneg p).
  rewrite Z.pow_add_r by lia. change (2 ^ 1) with 2.
  change (Z.pos p~0) with (2 * Z.pos p).
  rewrite Z.mul_mod_distr_l; [lia|apply Z.pow_nonzero; lia|lia].
Qed.

Lemma shiftr_trailing_zeros M k :
  0 < M -> 0 <= k <= trailingZeroBits M ->
  M = Z.shiftr M k * 2 ^ k /\ 0 < Z.shiftr M k.
Proof.
  intros HM Hk. destruct M as [|p|p]; try lia. cbn [trailingZeroBits] in Hk.
  pose proof (pos_ctz_divides p) as Hdiv.
  assert (H2k : 0 < 2 ^ k) by (apply Z.pow_pos_nonneg; lia).
  assert (Hmod : Z.pos p mod 2 ^ k = 0).
  { apply Z.mod_divide; [lia|]. apply Z.mod_divide in Hdiv; [|apply Z.pow_nonzero; lia].
    destruct Hdiv as [q Hq]. exists (q * 2 ^ (pos_ctz p - k)).
    rewrite Hq. rewrite <- Z.mul_assoc, <- Z.pow_add_r by lia. f_equal. f_equal. lia. }
  rewrite Z.shiftr_div_pow2 by lia.
  pose proof (Z.div_mod (Z.pos p) (2 ^ k) ltac:(lia)) as Hdm. rewrite Hmod in Hdm.
  split; [lia|]. 
  destruct (Z.le_gt_cases (Z.pos p / 2 ^ k) 0) as [Hle|Hgt]; [|exact Hgt].
  exfalso. assert (2 ^ k * (Z.pos p / 2 ^ k) <= 0) by nia. lia.
Qed.

(** [decimal.init] converts without loss: the decimal holds
    [mant * 2^shift] as an integer [I] over a power of ten. *)
Lemma dinit_spec M sh :
  0 < M ->
  exists I t,
    0 < I /\ dinit M sh = Dec I t /\
    I * 2 ^ Z.max (- sh) 0 * 10 ^ Z.max (- t) 0
    = M * 2 ^ Z.max sh 0 * 10 ^ Z.max t 0.
Proof.
  intros HM. unfold dinit. destruct (Z.eqb_spec M 0); [lia|].
  destruct (Z.ltb_spec sh 0) as [Hneg|Hpos].
  - pose proof (trailingZeroBits_nonneg M) as Htz.
    set (s := Z.min (- sh) (trailingZeroBits M)).
    assert (Hs : 0 <= s <= trailingZeroBits M /\ s <= - sh) by (unfold s; lia).
    destruct (shiftr_trailing_zeros M s HM ltac:(lia)) as [HMs HM'].
    set (M' := Z.shiftr M s) in *.
    destruct (Z.ltb_spec 0 (sh + s)); [lia|].
    destruct (Z.ltb_spec (sh + s) 0) as [Hmore|Hdone].
    + (* a binary fraction is left: divide by the power of two *)
      set (s' := - (sh + s)). assert (Hs' : 0 < s') by (unfold s'; lia).
      destruct (utoa_split M' HM') as [z0 [HU [Hc [HMv Hz]]]].
      set (sM := strip_trailing_zeros (utoa M')) in *.
      set (D0 := digits_val sM) in *.
      assert (HD0 : 0 < D0) by (now apply canon_pos).
      set (I := D0 * 5 ^ s').
      assert (HI : 0 < I) by (apply Z.mul_pos_pos; [lia|apply Z.pow_pos_nonneg; lia]).
      exists I, (s' - Z.of_nat z0). split; [exact HI|]. split.
      * unfold shr. cbn [dmant dexp]. fold sM.
        pose proof (canon_bounds sM Hc) as Bc. pose proof (zlen_nonneg sM).
        destruct (Z.eqb_spec (zlen sM) 0) as [E|E].
        { exfalso. destruct Hc as [_ [c [l' [Hl _]]]]. rewrite Hl, zlen_cons in E.
          pose proof (zlen_nonneg l'). lia. }
        fold D0 I. unfold trim. cbn [dmant dexp]. unfold Dec.
        pose proof (strip_canon _ (utoa_canon I HI)) as [_ [c [l' [Hl _]]]].
        rewrite Hl at 2. rewrite zlen_cons. pose proof (zlen_nonneg l').
        destruct (Z.eqb_spec (zlen l' + 1) 0); [lia|].
        f_equal. lia.
      * rewrite (Z.max_l (- sh)) by lia. rewrite (Z.max_r sh) by lia.
        rewrite Z.pow_0_r, Z.mul_1_r.
        replace (- sh) with (s + s') by (unfold s'; lia).
        rewrite HMs at 1. rewrite HMv. fold D0. unfold I.
        rewrite (Z.pow_add_r 2 s s') by lia.
        assert (H10 : 5 ^ s' * 2 ^ s' = 10 ^ s')
          by (rewrite <- Z.pow_mul_l; reflexivity).
        assert (Hmax : 10 ^ s' * 10 ^ Z.max (- (s' - Z.of_nat z0)) 0
                       = 10 ^ Z.of_nat z0 * 10 ^ Z.max (s' - Z.of_nat z0) 0).
        { rewrite <- !Z.pow_add_r by lia. f_equal. lia. }
        transitivity (D0 * 2 ^ s * (5 ^ s' * 2 ^ s' * 10 ^ Z.max (- (s' - Z.of_nat z0)) 0));
          [ring|].
        rewrite H10, Hmax. ring.
    + (* an integer *)
      exists M', 0. split; [exact HM'|]. split.
      * unfold Dec. f_equal. lia.
      * rewrite (Z.max_l (- sh)) by lia. rewrite (Z.max_r sh) by lia.
        change (Z.max (- 0) 0) with 0. change (Z.max 0 0) with 0.
        rewrite !Z.pow_0_r, !Z.mul_1_r. replace (- sh) with s by lia. lia.
  - rewrite Z.shiftr_0_r. replace (sh + 0) with sh by lia.
    exists (M * 2 ^ sh), 0. split;
      [apply Z.mul_pos_pos; [lia|apply Z.pow_pos_nonneg; lia]|]. split.
    + destruct (Z.ltb_spec 0 sh) as [Hgt|Heq].
      * change (0 <? 0) with false. cbv iota. rewrite Z.shiftl_mul_pow2 by lia.
        unfold Dec. f_equal. lia.
      * assert (sh = 0) by lia. subst sh. change (0 <? 0) with false. cbv iota.
        rewrite Z.pow_0_r, Z.mul_1_r. unfold Dec. f_equal. lia.
    + rewrite (Z.max_r (- sh)) by lia. rewrite (Z.max_l sh) by lia.
      change (Z.max (- 0) 0) with 0. change (Z.max 0 0) with 0.
      rewrite !Z.pow_0_r, !Z.mul_1_r. reflexivity.
Qed.

(** [Text('f', 18)] of a positive finite [Float] is the text of an
    integer number [N] of units of [10^-18], and [N] is within half a
    unit of the value of the [Float]. *)
Lemma Text_f_rounds x :
  fform x = finite -> neg x = false -> 0 < mant x ->
  exists N,
    0 <= N /\ Text_f x 18 = fixed18 N /\
    2 * Z.abs (N * 2 ^ Z.max (- (exp x - bitLen (mant x))) 0
               - mant x * 2 ^ Z.max (exp x - bitLen (mant x)) 0 * 10 ^ 18)
    <= 2 ^ Z.max (- (exp x - bitLen (mant x))) 0.
Proof.
  intros Hf Hn HM. unfold Text_f. rewrite Hn, Hf. cbn [app].
  set (sh := exp x - bitLen (mant x)).
  destruct (dinit_spec (mant x) sh HM) as [I [t [HI [Hd Hlink]]]].
  rewrite Hd.
  destruct (dround_spec I t HI) as [N [HN [Htxt Hnear]]].
  exists N. split; [exact HN|]. split; [unfold fixed18; now rewrite Htxt|].
  set (S := 2 ^ Z.max (- sh) 0) in *. set (W := 2 ^ Z.max sh 0) in *.
  set (A := 10 ^ Z.max (- t) 0) in *. set (B := 10 ^ Z.max t 0) in *.
  set (C := 10 ^ Z.max (t - 18) 0) in *. set (D := 10 ^ Z.max (18 - t) 0) in *.
  assert (HS : 0 < S) by (apply Z.pow_pos_nonneg; lia).
  assert (HA : 0 < A) by (apply Z.pow_pos_nonneg; lia).
  assert (HC : 0 < C) by (apply Z.pow_pos_nonneg; lia).
  assert (HBD : B * D = 10 ^ 18 * (A * C)).
  { unfold A, B, C, D. rewrite <- !Z.pow_add_r by lia. f_equal. lia. }
  set (M := mant x) in *.
  set (E := N * S - M * W * 10 ^ 18). set (X := N * C - I * D) in *.
  assert (HEX : E * (A * C) = S * A * X).
  { unfold E, X.
    transitivity (N * S * (A * C) - M * W * (10 ^ 18 * (A * C))); [ring|].
    rewrite <- HBD.
    transitivity (N * S * (A * C) - M * W * B * D); [ring|].
    rewrite <- Hlink. ring. }
  assert (Habs : Z.abs E * (A * C) = S * A * Z.abs X).
  { rewrite <- (Z.abs_eq (A * C)) at 1 by (clear - HA HC; nia).
    rewrite <- Z.abs_mul, HEX, Z.abs_mul. f_equal.
    apply Z.abs_eq. clear - HS HA. nia. }
  assert (HAC : 0 < A * C) by (clear - HA HC; nia).
  apply (Z.mul_le_mono_pos_r _ _ (A * C) HAC).
  rewrite <- Z.mul_assoc, Habs.
  transitivity (S * A * C); [|clear; lia].
  replace (2 * (S * A * Z.abs X)) with (S * A * (2 * Z.abs X)) by ring.
  apply Z.mul_le_mono_nonneg_l; [clear - HS HA; nia|exact Hnear].
Qed.

(** ** Exact quotients *)

(** Dividing a multiple of [Y] by [Y] is exact. *)
Lemma Quo_multiple k Y :
  0 < k -> 0 < Y -> bitLen (k * Y) <= 2 ^ 20 ->
  Quo newFloat (SetInt newFloat (k * Y)) (SetInt newFloat Y)
  = Some (mkFloat (Z.max (bitLen (k * Y)) 64) false finite
            (k * 2 ^ ((Z.max (bitLen (k * Y)) 64 + 63) / 64 * 64 - bitLen k))
            (bitLen k)).
Proof.
  intros Hk HY HL.
  assert (Hb : 0 < k * Y) by (apply Z.mul_pos_pos; assumption).
  assert (HYb : Y <= k * Y) by nia.
  assert (Hkb : k <= k * Y) by nia.
  pose proof (bitLen_mono Y (k * Y) ltac:(lia)) as HLY.
  pose proof (bitLen_mono k (k * Y) ltac:(lia)) as HLk.
  pose proof (bitLen_nonneg (k * Y)) as H0.
  pose proof (bitLen_nonneg Y) as H0Y.
  pose proof (bitLen_nonneg k) as H0k.
  pose proof (nat_len_bounds (k * Y)) as Hl. unfold _W in Hl.
  pose proof (nat_len_bounds Y) as HlY. unfold _W in HlY.
  pose proof (nat_len_pos (k * Y) Hb) as Hlp.
  pose proof (nat_len_pos Y HY) as HlpY.
  rewrite (SetInt_pos (k * Y)) by (unfold MaxExp; lia).
  rewrite (SetInt_pos Y) by (unfold MaxExp; lia).
  set (b := k * Y) in *.
  set (L := bitLen b) in *. set (lx := nat_len b) in *.
  set (LY := bitLen Y) in *. set (ly := nat_len Y) in *.
  set (Lk := bitLen k) in *.
  set (p := Z.max L 64).
  unfold Quo, newFloat. cbn [prec mant exp fform neg form_eqb andb xorb].
  change (0 =? 0) with true. cbv iota.
  replace (Z.max p (Z.max LY 64)) with p by lia.
  f_equal. unfold uquo. cbn [prec mant exp fform neg].
  assert (HbX : bitLen (b * 2 ^ (lx * 64 - L)) = lx * 64)
    by (rewrite bitLen_shift by lia; fold L; lia).
  rewrite (nat_len_normal _ _ HbX).
  assert (HbY : bitLen (Y * 2 ^ (ly * 64 - LY)) = ly * 64)
    by (rewrite bitLen_shift by lia; fold LY; lia).
  rewrite (nat_len_normal _ _ HbY). unfold _W.
  set (n := p / 64 + 1).
  assert (Hn : p < n * 64 <= p + 64).
  { unfold n. pose proof (Z.div_mod p 64 ltac:(lia)).
    pose proof (Z.mod_pos_bound p 64 ltac:(lia)). lia. }
  assert (Hd : 0 < n - lx + ly) by lia.
  destruct (Z.ltb_spec 0 (n - lx + ly)); [|lia].
  rewrite Z.shiftl_mul_pow2 by lia.
  rewrite <- Z.mul_assoc, <- Z.pow_add_r by lia.
  set (t := lx * 64 - L + (n - lx + ly) * 64).
  assert (Ht : t = (n + ly) * 64 - L) by (unfold t; lia).
  assert (HbA : bitLen (b * 2 ^ t) = (n + ly) * 64)
    by (rewrite bitLen_shift by lia; fold L; lia).
  rewrite (nat_len_normal _ _ HbA).
  set (sy := ly * 64 - LY) in *.
  assert (Hq : b * 2 ^ t / (Y * 2 ^ sy) = k * 2 ^ (t - sy)).
  { unfold b. rewrite (pow2_split t sy) by lia.
    replace (k * Y * (2 ^ (t - sy) * 2 ^ sy)) with (k * 2 ^ (t - sy) * (Y * 2 ^ sy)) by ring.
    apply Z.div_mul. pose proof (Z.pow_pos_nonneg 2 sy ltac:(lia) ltac:(lia)). nia. }
  assert (Hr : (b * 2 ^ t) mod (Y * 2 ^ sy) = 0).
  { unfold b. rewrite (pow2_split t sy) by lia.
    replace (k * Y * (2 ^ (t - sy) * 2 ^ sy)) with (k * 2 ^ (t - sy) * (Y * 2 ^ sy)) by ring.
    apply Z.mod_mul. pose proof (Z.pow_pos_nonneg 2 sy ltac:(lia) ltac:(lia)). nia. }
  rewrite Hq, Hr.
  change (0 =? 0) with true. cbv iota.
  set (u := t - sy).
  assert (Hu : 0 <= u) by (unfold u; lia).
  assert (HbQ : bitLen (k * 2 ^ u) = Lk + u)
    by (rewrite bitLen_shift by lia; reflexivity).
  pose proof (nat_len_bounds (k * 2 ^ u)) as HlQ. unfold _W in HlQ.
  rewrite HbQ in HlQ.
  set (lq := nat_len (k * 2 ^ u)) in *.
  rewrite fnorm_pos by (apply Z.mul_pos_pos; [lia|apply Z.pow_pos_nonneg; lia]).
  fold lq. rewrite HbQ.
  rewrite <- Z.mul_assoc, <- Z.pow_add_r by lia.
  replace (u + (lq * 64 - (Lk + u))) with (lq * 64 - Lk) by lia.
  replace (L - LY - (n + ly - ly - lq) * 64 - (lq * 64 - (Lk + u))) with Lk
    by (unfold u; lia).
  unfold setExpAndRound, MinExp, MaxExp. cbn [prec mant exp fform neg].
  destruct (Z.ltb_spec Lk (-2147483648)); [lia|].
  destruct (Z.ltb_spec 2147483647 Lk); [lia|].
  rewrite (round_exact _ _ k _ _ lq) by (fold Lk; lia).
  fold Lk.
  destruct (Z.leb_spec (lq * 64) p) as [Hfit|Hbig]; [|reflexivity].
  exfalso.
  assert (HLprod : L <= Lk + LY).
  { apply bitLen_le_pow2; [|lia]. split; [lia|].
    pose proof (bitLen_bounds k Hk) as Bk. pose proof (bitLen_bounds Y HY) as BY.
    fold Lk in Bk. fold LY in BY. rewrite Z.pow_add_r by lia.
    unfold b. clear - Bk BY Hk HY. nia. }
  unfold u, sy in HlQ. clear - HlQ Hfit Hn Ht HLprod. lia.
Qed.

(** X1. A whole number of tokens is printed without rounding error, for
    every [decimals]: a balance of [k * 10^decimals] in the [uint256]
    range is printed as [k], a point and eighteen zeros. The division by
    [10^decimals] is exact whenever the balance is a multiple of it. *)
Theorem whole_amounts_print_without_error k dec :
  0 <= k -> k * Int_Exp 10 (int64_of_uint8 dec) < 2 ^ 256 ->
  balanceText (k * Int_Exp 10 (int64_of_uint8 dec)) dec
  = Some (Int_String k ++ ".000000000000000000")%string.
Proof.
  intros Hk Hb. pose proof (ten_pow_bounds dec) as [HY0 HY1].
  set (Y := Int_Exp 10 (int64_of_uint8 dec)) in *.
  pose proof (bitLen_le_pow2 Y 1024 ltac:(lia) ltac:(lia)) as HLY.
  unfold balanceText, daiBalanceFloat. fold Y.
  destruct (Z.eq_dec k 0) as [->|Hne].
  - rewrite Z.mul_0_l. rewrite (SetInt_pos Y) by (unfold MaxExp; lia).
    reflexivity.
  - assert (0 <= k * Y) by nia.
    pose proof (bitLen_le_pow2 (k * Y) 256 ltac:(lia) ltac:(lia)) as HL.
    rewrite Quo_multiple by lia. cbn [fmap option_fmap option_map].
    rewrite Text_f_integer; [reflexivity|lia|].
    pose proof (bitLen_mono k (k * Y) ltac:(nia)).
    pose proof (Z.div_mod (Z.max (bitLen (k * Y)) 64 + 63) 64 ltac:(lia)).
    pose proof (Z.mod_pos_bound (Z.max (bitLen (k * Y)) 64 + 63) 64 ltac:(lia)). lia.
Qed.

Lemma whole_amounts_witness :
  balanceText (1500 * Int_Exp 10 (int64_of_uint8 (uint8 18))) (uint8 18)
  = Some (Int_String 1500 ++ ".000000000000000000")%string.
Proof.
  apply (whole_amounts_print_without_error 1500 (uint8 18)).
  - lia.
  - reflexivity.
Defined.

(** ** The text is the rounded quotient *)

(** The division of line 165 never panics: the divisor is a power of
    ten, neither zero nor infinite. *)
Lemma daiBalanceFloat_some b dec : daiBalanceFloat b dec <> None.
Proof.
  unfold daiBalanceFloat.
  pose proof (ten_pow_bounds dec) as [HY0 HY1].
  pose proof (bitLen_le_pow2 (Int_Exp 10 (int64_of_uint8 dec)) 1024
                ltac:(lia) ltac:(lia)) as HLY.
  rewrite (SetInt_pos (Int_Exp 10 (int64_of_uint8 dec))) by (unfold MaxExp; lia).
  unfold Quo. cbn [fform form_eqb andb orb].
  destruct (fform (SetInt newFloat b)); cbn; discriminate.
Qed.

Lemma balanceText_zero dec :
  balanceText 0 dec = Some "0.000000000000000000"%string.
Proof.
  pose proof (ten_pow_bounds dec) as [HY0 HY1].
  pose proof (bitLen_le_pow2 (Int_Exp 10 (int64_of_uint8 dec)) 1024
                ltac:(lia) ltac:(lia)) as HLY.
  unfold balanceText, daiBalanceFloat.
  rewrite (SetInt_pos (Int_Exp 10 (int64_of_uint8 dec))) by (unfold MaxExp; lia).
  reflexivity.
Qed.

Lemma Text_f_near x :
  fform x = finite -> neg x = false -> 0 < mant x ->
  exists N, 0 <= N /\ Text_f x 18 = fixed18 N /\ Text_near x N = true.
Proof.
  intros Hf Hn HM. destruct (Text_f_rounds x Hf Hn HM) as [N [HN [Ht Hb]]].
  exists N. split; [exact HN|]. split; [exact Ht|].
  unfold Text_near. rewrite Hf. cbv zeta.
  set (sh := exp x - bitLen (mant x)) in *.
  destruct (Z.leb_spec 0 sh) as [Hsh|Hsh].
  - rewrite (Z.max_r (- sh)) in Hb by lia. rewrite (Z.max_l sh) in Hb by lia.
    rewrite Z.pow_0_r, Z.mul_1_r in Hb. apply Z.eqb_eq. lia.
  - rewrite (Z.max_l (- sh)) in Hb by lia. rewrite (Z.max_r sh) in Hb by lia.
    rewrite Z.pow_0_r, Z.mul_1_r in Hb. apply Z.leb_le. exact Hb.
Qed.

(** X2. For every balance of the [uint256] range and every [decimals],
    the printed balance is the quotient of line 165 rounded to eighteen
    decimal places: it is [fixed18 N] for an integer number [N] of units
    of [10^-18] that lies within half a unit of the value of the
    [big.Float]. *)
Theorem balance_text_is_the_rounded_quotient b dec :
  0 <= b < 2 ^ 256 ->
  exists q N,
    daiBalanceFloat b dec = Some q /\
    balanceText b dec = Some (fixed18 N) /\
    0 <= N /\ Text_near q N = true.
Proof.
  intros [Hb0 Hb1]. pose proof (ten_pow_bounds dec) as [HY0 HY1].
  set (Y := Int_Exp 10 (int64_of_uint8 dec)) in *.
  destruct (Z.eq_dec b 0) as [->|Hne].
  - pose proof (bitLen_le_pow2 Y 1024 ltac:(lia) ltac:(lia)) as HLY.
    pose proof (balanceText_zero dec) as Hz. unfold balanceText in *.
    unfold daiBalanceFloat in *. fold Y in Hz |- *.
    rewrite (SetInt_pos Y) in Hz |- * by (unfold MaxExp; lia).
    eexists _, 0. split; [reflexivity|]. split; [exact Hz|]. split; [lia|reflexivity].
  - pose proof (bitLen_le_pow2 b 256 ltac:(lia) ltac:(lia)) as HLb.
    pose proof (bitLen_le_pow2 Y 1024 ltac:(lia) ltac:(lia)) as HLY.
    destruct (Quo_rounded b Y ltac:(lia) ltac:(lia) ltac:(lia) ltac:(lia))
      as [X [e [Hq [HX _]]]].
    cbv zeta in Hq, HX.
    set (p := Z.max (Z.max (bitLen b) 64) (Z.max (bitLen Y) 64)) in *.
    set (q := mkFloat p false finite (X * 2 ^ ((p + 63) / 64 * 64 - p)) e) in *.
    assert (Hp : 64 <= p) by (unfold p; lia).
    assert (HM : 0 < mant q).
    { unfold q. cbn [mant].
      assert (0 < 2 ^ (p - 1)) by (apply Z.pow_pos_nonneg; lia).
      apply Z.mul_pos_pos; [lia|]. apply Z.pow_pos_nonneg; [lia|].
      pose proof (Z.div_mod (p + 63) 64 ltac:(lia)).
      pose proof (Z.mod_pos_bound (p + 63) 64 ltac:(lia)). lia. }
    destruct (Text_f_near q eq_refl eq_refl HM) as [N [HN [Ht Hn]]].
    exists q, N. unfold balanceText, daiBalanceFloat. fold Y. rewrite Hq.
    cbn [fmap option_fmap option_map]. rewrite Ht. auto.
Qed.

Lemma balance_text_rounded_witness :
  exists q N,
    daiBalanceFloat 18446744073709551615 (uint8 18) = Some q /\
    balanceText 18446744073709551615 (uint8 18) = Some (fixed18 N) /\
    0 <= N /\ Text_near q N = true.
Proof.
  apply (balance_text_is_the_rounded_quotient 18446744073709551615 (uint8 18)).
  split; [discriminate|reflexivity].
Defined.

(** X3. Balances below sixteen tokens are printed exactly: for
    [decimals <= 18] and a balance below [16 * 10^decimals], the text is
    the exact decimal expansion of [balance / 10^decimals] to eighteen
    places. The bound is sharp for 18 decimals: one base unit above sixteen
    tokens the last printed digit is 2 where the exact expansion has 1. *)
Theorem small_balances_print_exactly :
  (forall b dec,
     int64_of_uint8 dec <= 18 ->
     0 <= b < 16 * 10 ^ int64_of_uint8 dec ->
     balanceText b dec = Some (fixed18 (b * 10 ^ (18 - int64_of_uint8 dec)))) /\
  balanceText 16000000000000000001 (uint8 18)
  = Some "16.000000000000000002"%string /\
  fixed18 16000000000000000001 = "16.000000000000000001"%string.
Proof.
  split; [|split; vm_compute; reflexivity].
  intros b dec Hd [Hb0 Hb1].
  assert (Hd0 : 0 <= int64_of_uint8 dec) by (unfold int64_of_uint8; lia).
  set (d := int64_of_uint8 dec) in *.
  destruct (Z.eq_dec b 0) as [->|Hne]; [rewrite balanceText_zero; reflexivity|].
  assert (HYe : Int_Exp 10 d = 10 ^ d).
  { unfold Int_Exp. destruct (Z.leb_spec d 0); [|reflexivity].
    replace d with 0 by lia. reflexivity. }
  set (Y := 10 ^ d) in *. set (Z10 := 10 ^ (18 - d)).
  assert (HYZ : Y * Z10 = 10 ^ 18)
    by (unfold Y, Z10; rewrite <- Z.pow_add_r by lia; f_equal; lia).
  assert (HY : 1 <= Y <= 10 ^ 18).
  { unfold Y. split.
    - assert (0 < 10 ^ d) by (apply Z.pow_pos_nonneg; lia). lia.
    - apply Z.pow_le_mono_r; lia. }
  assert (HZ : 1 <= Z10).
  { unfold Z10. assert (0 < 10 ^ (18 - d)) by (apply Z.pow_pos_nonneg; lia). lia. }
  change (10 ^ 18) with 1000000000000000000 in HY.
  assert (HLb : bitLen b <= 64).
  { apply bitLen_le_pow2; [|lia]. change (2 ^ 64) with 18446744073709551616.
    clear - Hb0 Hb1 HY. lia. }
  assert (HLY : bitLen Y <= 64).
  { apply bitLen_le_pow2; [|lia]. change (2 ^ 64) with 18446744073709551616.
    clear - HY. lia. }
  pose proof (bitLen_nonneg b) as HLb0. pose proof (bitLen_nonneg Y) as HLY0.
  destruct (Quo_rounded b Y ltac:(lia) ltac:(lia) ltac:(lia) ltac:(lia))
    as [X [e [Hq [HX Hnear]]]].
  cbv zeta in Hq, HX, Hnear.
  replace (Z.max (Z.max (bitLen b) 64) (Z.max (bitLen Y) 64)) with 64
    in Hq, HX, Hnear by lia.
  change ((64 + 63) / 64 * 64 - 64) with 0 in Hq, Hnear.
  rewrite Z.pow_0_r, Z.mul_1_r in Hq, Hnear.
  change (2 ^ (64 - 1)) with 9223372036854775808 in HX.
  change (2 ^ 64) with 18446744073709551616 in HX.
  set (q := mkFloat 64 false finite X e) in *.
  unfold balanceText, daiBalanceFloat. fold d. rewrite HYe. fold Y. rewrite Hq.
  cbn [fmap option_fmap option_map]. f_equal.
  destruct (Text_f_rounds q eq_refl eq_refl ltac:(cbn; lia)) as [N [HN [Ht Hb]]].
  rewrite Ht. f_equal.
  assert (HbX : bitLen X = 64) by (apply bitLen_exact; [lia|cbn; lia]).
  unfold q in Hb, Hnear. unfold Float_near in Hnear. cbn [fform neg mant exp prec] in Hb, Hnear.
  rewrite HbX in Hb, Hnear. change (2 ^ (64 - 64)) with 1 in Hnear.
  set (sh := e - 64) in *.
  destruct (Z.leb_spec 0 sh) as [Hsh|Hsh].
  { exfalso. apply Z.leb_le in Hnear.
    assert (HP : 1 <= 2 ^ sh) by (assert (0 < 2 ^ sh) by (apply Z.pow_pos_nonneg; lia); lia).
    set (P := 2 ^ sh) in *.
    assert (H2 : Y <= P * Y) by (clear - HP HY; nia).
    assert (H1 : 9223372036854775808 * (P * Y) <= X * P * Y)
      by (rewrite <- (Z.mul_assoc X); apply Z.mul_le_mono_nonneg_r; [clear - H2 HY|clear - HX]; lia).
    rewrite <- (Z.mul_assoc 1) in Hnear.
    clear - Hnear H1 H2 Hb1 HY Hb0. lia. }
  apply Z.leb_le in Hnear. rewrite Z.mul_1_l in Hnear.
  rewrite (Z.max_l (- sh)) in Hb by lia. rewrite (Z.max_r sh) in Hb by lia.
  rewrite Z.pow_0_r, Z.mul_1_r in Hb.
  set (s := - sh) in *.
  assert (Hs60 : 60 <= s).
  { destruct (Z.le_gt_cases 60 s) as [H|H]; [exact H|exfalso].
    assert (HPs : 0 < 2 ^ s) by (apply Z.pow_pos_nonneg; lia).
    destruct (Z.eq_dec s 59) as [E|E].
    - rewrite E in Hnear. change (2 ^ 59) with 576460752303423488 in Hnear.
      assert (H2 : 9223372036854775808 * Y <= X * Y) by (clear - HX HY; nia).
      clear - Hnear H2 Hb1 HY Hb0. lia.
    - assert (HP58 : 2 ^ s <= 2 ^ 58) by (apply Z.pow_le_mono_r; lia).
      change (2 ^ 58) with 288230376151711744 in HP58.
      set (P := 2 ^ s) in *.
      assert (H1 : b * P <= 16 * Y * 288230376151711744) by (clear - Hb1 Hb0 HP58 HPs HY; nia).
      assert (H2 : 9223372036854775808 * Y <= X * Y) by (clear - HX HY; nia).
      clear - Hnear H1 H2 HY. lia. }
  assert (HP : 1000000000000000000 < 2 ^ s).
  { apply Z.lt_le_trans with (2 ^ 60); [reflexivity|apply Z.pow_le_mono_r; lia]. }
  change (10 ^ 18) with 1000000000000000000 in Hb, HYZ.
  set (P := 2 ^ s) in *.
  set (a1 := N * P - X * 1000000000000000000) in *.
  set (a2 := X * 1000000000000000000 - b * Z10 * P).
  assert (Ha2 : 2 * Z.abs a2 <= 1000000000000000000).
  { assert (E : a2 = Z10 * (X * Y - b * P)) by (unfold a2; rewrite <- HYZ; ring).
    rewrite E, Z.abs_mul, (Z.abs_eq Z10) by lia. rewrite <- HYZ.
    replace (Y * Z10) with (Z10 * Y) by ring.
    rewrite Z.mul_assoc, (Z.mul_comm 2 Z10), <- Z.mul_assoc.
    apply Z.mul_le_mono_nonneg_l; [lia|exact Hnear]. }
  assert (Hsum : (N - b * Z10) * P = a1 + a2) by (unfold a1, a2; ring).
  pose proof (Z.abs_triangle a1 a2) as Htri. rewrite <- Hsum in Htri.
  rewrite Z.abs_mul, (Z.abs_eq P) in Htri by lia.
  destruct (Z.eq_dec N (b * Z10)) as [E|E]; [exact E|exfalso].
  assert (1 <= Z.abs (N - b * Z10)) by lia.
  assert (P <= Z.abs (N - b * Z10) * P) by (clear - H HP; nia).
  clear - H0 Htri Hb Ha2 HP. lia.
Qed.

Lemma small_balances_witness :
  balanceText 1234567890123456789 (uint8 18)
  = Some (fixed18 (1234567890123456789 * 10 ^ (18 - int64_of_uint8 (uint8 18)))).
Proof.
  apply (proj1 small_balances_print_exactly 1234567890123456789 (uint8 18)).
  - discriminate.
  - split; [discriminate|reflexivity].
Defined.

(** What [fixed18] writes: digits, a point and eighteen digits, and the
    digits read as one numeral denote [N]. *)
Lemma fixed18_value N :
  0 <= N ->
  exists ip fp,
    fixed18_list N = ip ++ "."%char :: fp /\
    digits ip /\ digits fp /\ length fp = 18%nat /\
    digits_val (ip ++ fp) = N.
Proof.
  intros HN. unfold fixed18_list.
  assert (H18 : 0 < 10 ^ 18) by reflexivity.
  pose proof (Z.mod_pos_bound N (10 ^ 18) H18) as Hr.
  assert (Hq : 0 <= N / 10 ^ 18) by (apply Z.div_pos; lia).
  set (r := N mod 10 ^ 18) in *.
  assert (Hlen : (length (utoa r) <= 18)%nat).
  { destruct (Z.eq_dec r 0) as [->|Hne]; [cbn; lia|].
    pose proof (utoa_len r ltac:(lia)) as Hu.
    pose proof (zlen_nonneg (utoa r)).
    destruct (Z.le_gt_cases (zlen (utoa r)) 18) as [Hle|Hgt]; [unfold zlen in Hle; lia|].
    assert (10 ^ 18 <= 10 ^ (zlen (utoa r) - 1)) by (apply Z.pow_le_mono_r; lia). lia. }
  exists (utoa (N / 10 ^ 18)), (pad18 r).
  split; [reflexivity|]. split; [apply utoa_digits|]. split; [|split].
  - unfold pad18. apply Forall_app. split; [apply digits_zeros|apply utoa_digits].
  - unfold pad18. rewrite length_app, length_replicate. lia.
  - rewrite digits_val_app, utoa_val by lia.
    unfold pad18 at 2. rewrite digits_val_app, digits_val_zeros, utoa_val by lia.
    assert (Hz : zlen (pad18 r) = 18)
      by (unfold zlen, pad18; rewrite length_app, length_replicate; lia).
    rewrite Hz. pose proof (Z.div_mod N (10 ^ 18) ltac:(lia)). fold r in H. lia.
Qed.

(** X4. The numerals of the block number and decimals lines read back:
    for every [n >= 0], [Int.String] writes digits only, a single 0 for
    zero and no leading zero otherwise, and the digits denote [n]. *)
Theorem printed_integers_read_back n :
  0 <= n ->
  exists ds,
    Int_String n = string_of_list_ascii ds /\
    digits ds /\ digits_val ds = n /\
    (n = 0 -> ds = ["0"%char]) /\ (0 < n -> canon ds).
Proof.
  intros Hn. exists (utoa n). unfold Int_String.
  destruct (Z.ltb_spec n 0); [lia|]. rewrite Z.abs_eq by lia. cbn [app].
  split; [reflexivity|]. split; [apply utoa_digits|].
  split; [now apply utoa_val|]. split.
  - intros ->. reflexivity.
  - apply utoa_canon.
Qed.

Lemma printed_integers_witness :
  exists ds,
    Int_String 12345678 = string_of_list_ascii ds /\
    digits ds /\ digits_val ds = 12345678 /\
    (12345678 = 0 -> ds = ["0"%char]) /\ (0 < 12345678 -> canon ds).
Proof. apply (printed_integers_read_back 12345678). lia. Defined.

(** X14. The printed balance is accurate for every balance of the
    [uint256] range and every [decimals]: the printed number [N / 10^18]
    differs from the exact [balance / 10^decimals] by at most half a unit
    of the eighteenth decimal place plus a relative error of
    [1 / (2^64 - 1)], the two roundings of line 165 and line 171 taken
    together. Both sides are scaled to integers. *)
Theorem printed_balance_is_accurate b dec :
  0 <= b < 2 ^ 256 ->
  exists N,
    0 <= N /\
    balanceText b dec = Some (fixed18 N) /\
    2 * (2 ^ 64 - 1) * Z.abs (N * Int_Exp 10 (int64_of_uint8 dec) - b * 10 ^ 18)
    <= (2 ^ 64 - 1) * Int_Exp 10 (int64_of_uint8 dec) + 2 * b * 10 ^ 18.
Proof.
  intros [Hb0 Hb1]. pose proof (ten_pow_bounds dec) as [HY0 HY1].
  set (Y := Int_Exp 10 (int64_of_uint8 dec)) in *.
  change (2 ^ 64 - 1) with 18446744073709551615.
  change (10 ^ 18) with 1000000000000000000.
  destruct (Z.eq_dec b 0) as [->|Hne].
  { exists 0. split; [lia|]. split; [apply balanceText_zero|].
    change (Z.abs (0 * Y - 0 * 1000000000000000000)) with (Z.abs (0 * Y - 0)).
    rewrite Z.mul_0_l. cbn. lia. }
  pose proof (bitLen_le_pow2 b 256 ltac:(lia) ltac:(lia)) as HLb.
  pose proof (bitLen_le_pow2 Y 1024 ltac:(lia) ltac:(lia)) as HLY.
  destruct (Quo_rounded b Y ltac:(lia) ltac:(lia) ltac:(lia) ltac:(lia))
    as [X [e [Hq [HX Hnear]]]].
  cbv zeta in Hq, HX, Hnear.
  set (p := Z.max (Z.max (bitLen b) 64) (Z.max (bitLen Y) 64)) in *.
  assert (Hp : 64 <= p) by (unfold p; lia).
  set (ntz := (p + 63) / 64 * 64 - p) in *.
  assert (Hntz : 0 <= ntz).
  { unfold ntz. pose proof (Z.div_mod (p + 63) 64 ltac:(lia)).
    pose proof (Z.mod_pos_bound (p + 63) 64 ltac:(lia)). lia. }
  assert (H2p1 : 0 < 2 ^ (p - 1)) by (apply Z.pow_pos_nonneg; lia).
  assert (HXc : 18446744073709551616 <= 2 * X).
  { assert (2 ^ 63 <= 2 ^ (p - 1)) by (apply Z.pow_le_mono_r; lia).
    change (2 ^ 63) with 9223372036854775808 in H. clear - H HX. lia. }
  assert (HG : 0 < 2 ^ ntz) by (apply Z.pow_pos_nonneg; lia).
  assert (HbM : bitLen (X * 2 ^ ntz) = p + ntz).
  { rewrite bitLen_shift by lia. rewrite (bitLen_exact X p) by lia. reflexivity. }
  set (q := mkFloat p false finite (X * 2 ^ ntz) e) in *.
  assert (HM : 0 < mant q) by (unfold q; cbn [mant]; apply Z.mul_pos_pos; lia).
  destruct (Text_f_rounds q eq_refl eq_refl HM) as [N [HN [Ht Hb]]].
  exists N. split; [exact HN|]. split.
  { unfold balanceText, daiBalanceFloat. fold Y. rewrite Hq.
    cbn [fmap option_fmap option_map]. now rewrite Ht. }
  unfold q in Hb, Hnear. unfold Float_near in Hnear.
  cbn [fform neg mant exp prec] in Hb, Hnear. rewrite HbM in Hb, Hnear.
  replace (p + ntz - p) with ntz in Hnear by lia.
  change (10 ^ 18) with 1000000000000000000 in Hb.
  set (G := 2 ^ ntz) in *. set (sh := e - (p + ntz)) in *.
  set (c := 18446744073709551615). set (E18 := 1000000000000000000) in *.
  destruct (Z.leb_spec 0 sh) as [Hsh|Hsh]; apply Z.leb_le in Hnear.
  - rewrite (Z.max_r (- sh)) in Hb by lia. rewrite (Z.max_l sh) in Hb by lia.
    rewrite Z.pow_0_r, Z.mul_1_r in Hb.
    assert (HP : 0 < 2 ^ sh) by (apply Z.pow_pos_nonneg; lia).
    set (P := 2 ^ sh) in *.
    assert (HNe : N = X * G * P * E18) by (clear - Hb; lia).
    set (V := X * G * P * Y) in *.
    set (W := G * P * Y) in *.
    assert (HW : 0 < W) by (unfold W; clear - HG HP HY0; nia).
    assert (HV : V = X * W) by (unfold V, W; ring).
    assert (HcW : c * W <= 2 * b).
    { assert (2 * V - W <= 2 * b) by (clear - Hnear; lia).
      rewrite HV in H. unfold c. clear - H HXc HW. nia. }
    assert (HT : N * Y - b * E18 = E18 * (V - b)) by (rewrite HNe; unfold V; ring).
    rewrite HT, Z.abs_mul, (Z.abs_eq E18) by (unfold E18; lia).
    assert (Habs : 2 * Z.abs (V - b) <= W) by exact Hnear.
    assert (H1 : 2 * c * (E18 * Z.abs (V - b)) = c * E18 * (2 * Z.abs (V - b))) by ring.
    rewrite H1.
    assert (H2 : c * E18 * (2 * Z.abs (V - b)) <= c * E18 * W)
      by (apply Z.mul_le_mono_nonneg_l; [unfold c, E18; lia|exact Habs]).
    assert (H3 : c * E18 * W = E18 * (c * W)) by ring.
    assert (H4 : E18 * (c * W) <= E18 * (2 * b))
      by (apply Z.mul_le_mono_nonneg_l; [unfold E18; lia|exact HcW]).
    assert (0 <= c * Y) by (unfold c; clear - HY0; lia).
    clear - H2 H3 H4 H. lia.
  - rewrite (Z.max_l (- sh)) in Hb by lia. rewrite (Z.max_r sh) in Hb by lia.
    rewrite Z.pow_0_r, Z.mul_1_r in Hb.
    set (s := - sh) in *.
    assert (HP : 0 < 2 ^ s) by (apply Z.pow_pos_nonneg; unfold s; lia).
    set (P := 2 ^ s) in *.
    set (A1 := N * P - X * G * E18) in *.
    set (A2 := X * G * Y - b * P) in *.
    assert (HGY : 0 < G * Y) by (clear - HG HY0; nia).
    assert (HcG : c * (G * Y) <= 2 * (b * P)).
    { assert (2 * (X * G * Y) - G * Y <= 2 * (b * P)) by (unfold A2 in Hnear; clear - Hnear; lia).
      replace (X * G * Y) with (X * (G * Y)) in H by ring.
      unfold c. clear - H HXc HGY. nia. }
    assert (HT : (N * Y - b * E18) * P = Y * A1 + E18 * A2) by (unfold A1, A2; ring).
    assert (Htri : Z.abs (N * Y - b * E18) * P <= Y * Z.abs A1 + E18 * Z.abs A2).
    { rewrite <- (Z.abs_eq P) at 1 by lia. rewrite <- Z.abs_mul, HT.
      eapply Z.le_trans; [apply Z.abs_triangle|].
      rewrite !Z.abs_mul, (Z.abs_eq Y), (Z.abs_eq E18) by (unfold E18; lia). lia. }
    assert (H1 : 2 * (Y * Z.abs A1) <= Y * P)
      by (replace (2 * (Y * Z.abs A1)) with (Y * (2 * Z.abs A1)) by ring;
          apply Z.mul_le_mono_nonneg_l; [lia|exact Hb]).
    assert (H2 : 2 * (E18 * Z.abs A2) <= E18 * (G * Y))
      by (replace (2 * (E18 * Z.abs A2)) with (E18 * (2 * Z.abs A2)) by ring;
          apply Z.mul_le_mono_nonneg_l; [unfold E18; lia|exact Hnear]).
    assert (H3 : c * (E18 * (G * Y)) <= E18 * (2 * (b * P))).
    { replace (c * (E18 * (G * Y))) with (E18 * (c * (G * Y))) by ring.
      apply Z.mul_le_mono_nonneg_l; [unfold E18; lia|exact HcG]. }
    apply (Z.mul_le_mono_pos_r _ _ P HP).
    set (T := Z.abs (N * Y - b * E18)) in *.
    assert (H4 : 2 * c * T * P = c * (2 * (T * P))) by ring.
    rewrite H4.
    assert (H5 : c * (2 * (T * P)) <= c * (Y * P + E18 * (G * Y))).
    { apply Z.mul_le_mono_nonneg_l; [unfold c; lia|]. clear - Htri H1 H2. lia. }
    assert (H6 : (c * Y + 2 * b * E18) * P = c * (Y * P) + E18 * (2 * (b * P))) by ring.
    rewrite H6. clear - H5 H3. lia.
Qed.

Lemma printed_balance_accuracy_witness :
  exists N,
    0 <= N /\
    balanceText 18446744073709551615 (uint8 18) = Some (fixed18 N) /\
    2 * (2 ^ 64 - 1)
      * Z.abs (N * Int_Exp 10 (int64_of_uint8 (uint8 18))
               - 18446744073709551615 * 10 ^ 18)
    <= (2 ^ 64 - 1) * Int_Exp 10 (int64_of_uint8 (uint8 18))
       + 2 * 18446744073709551615 * 10 ^ 18.
Proof.
  apply (printed_balance_is_accurate 18446744073709551615 (uint8 18)).
  split; [discriminate|reflexivity].
Defined.

End Rendering.

(** * The pipeline *)

Section Pipeline.

Implicit Types (w : World) (e : Event).

(** Unfold [main] and the monad down to the collaborators' calls. *)
Ltac unfold_run :=
  unfold run, run_main, main, main_aggregate, main_display, orFatal,
    log_Fatal, log_Println, fmt_Printf, index, bind, emit, defer, stop, ret.

Lemma getenv_absent w :
  environ w !! "MAINNET_RPC_URL" = None ->
  (forall file, dotenv w = Ok file -> file !! "MAINNET_RPC_URL" = None) ->
  os_Getenv (godotenv_Load w) "MAINNET_RPC_URL" = "".
Proof.
  intros Henv Hfile. unfold os_Getenv, godotenv_Load.
  destruct (dotenv w) as [file|err] eqn:Hd.
  - rewrite (proj2 (lookup_union_None _ _ _)); [reflexivity|].
    split; [exact Henv | exact (Hfile file eq_refl)].
  - now rewrite Henv.
Qed.

(** C5. When [MAINNET_RPC_URL] is set neither in the process environment
    nor in the [.env] file, the process exits with status 1 after logging
    that the variable is required; its trace holds no [Dial] and no
    [CallContract]: only log lines. *)
Theorem missing_url_exits_before_network w :
  environ w !! "MAINNET_RPC_URL" = None ->
  (forall file, dotenv w = Ok file -> file !! "MAINNET_RPC_URL" = None) ->
  status (run w) = 1 /\
  status (run w) <> 0 /\
  Forall (fun e => is_network e = false) (events (run w)) /\
  last (events (run w)) =
    Some (EvLog "MAINNET_RPC_URL environment variable is required").
Proof.
  intros Henv Hfile.
  pose proof (getenv_absent w Henv Hfile) as Hget.
  unfold_run. rewrite Hget. cbn [String.eqb].
  destruct (dotenv w); cbn; repeat split; try lia; repeat constructor.
Qed.

Lemma missing_url_witness :
  status (run unconfigured) = 1 /\
  status (run unconfigured) <> 0 /\
  Forall (fun e => is_network e = false) (events (run unconfigured)) /\
  last (events (run unconfigured)) =
    Some (EvLog "MAINNET_RPC_URL environment variable is required").
Proof.
  apply (missing_url_exits_before_network unconfigured).
  - reflexivity.
  - intros file H. discriminate H.
Defined.

Ltac open_stages :=
  unfold decoded, packed, prepared, parsed, connected, configured, batch,
    callMsg in *;
  destruct_and?.

(** Replace the collaborators' calls by their known answers, in program
    order, consuming the hypotheses. *)
Ltac use_answers :=
  repeat first
  [ progress cbv beta iota zeta delta [fst snd]
  | match goal with
    | H : _ = Ok _ |- _ => rewrite H; clear H
    | H : _ = Err _ |- _ => rewrite H; clear H
    | H : _ = Some _ |- _ => rewrite H; clear H
    | H : _ = @None _ |- _ => rewrite H; clear H
    | H : os_Getenv _ _ = _ |- _ => rewrite H; clear H
    | H : ?u <> ""%string |- _ =>
        rewrite (proj2 (String.eqb_neq u "") H); clear H
    end ].

(** Each failure point of [Fatal] ends the process there: the trace is the
    one of the relation, the status is 1, nothing is deferred-run. *)
Lemma fatal_run w evs : Fatal w evs -> run w = mkOutcome evs 1 None.
Proof.
  destruct 1; unfold called, dialled, loadlog in *; open_stages;
    unfold_run; destruct (dotenv w); cbn [app]; use_answers; reflexivity.
Qed.

Lemma success_run w evs : Success w evs -> run w = mkOutcome evs 0 None.
Proof.
  destruct 1; unfold called, dialled, loadlog, output in *; open_stages;
    unfold_run; destruct (dotenv w); cbn [app]; use_answers; reflexivity.
Qed.

Ltac close_stage :=
  unfold decoded, packed, prepared, parsed, connected, configured, batch,
    callMsg; cbn; repeat split; first [eassumption | reflexivity].

Ltac fatal_at w C :=
  let HF := fresh "HF" in
  assert (HF : Fatal w _) by (eapply C; first [eassumption | close_stage]);
  rewrite (fatal_run w _ HF); right; left; split; [reflexivity | exact HF].

(** Every run is a success, one of the fatal exits, or a panic on a short
    [ReturnData] (or on the division); a panic prints nothing. *)
Lemma run_cases w :
  (status (run w) = 0 /\ Success w (events (run w))) \/
  (status (run w) = 1 /\ Fatal w (events (run w))) \/
  (status (run w) = 2 /\ panic (run w) <> None /\
   Forall (fun e => is_print e = false) (events (run w))).
Proof.
  pose (A0 := mkABI []). pose (R0 := mkAggregateResult 0 []).
  destruct (os_Getenv (godotenv_Load w) "MAINNET_RPC_URL") as [|ch url'] eqn:Hurl.
  { fatal_at w (fatal_config w). }
  set (url := String ch url') in *.
  assert (Hne : url <> ""%string) by discriminate.
  destruct (ethclient_Dial w url) as [c|err] eqn:Hdial.
  2: { fatal_at w (fatal_dial w (mkLocals url 0%nat A0 A0 [] [] [] [] [] R0) err). }
  destruct (abi_JSON w multicall3ABI) as [mc|err] eqn:Hmc.
  2: { fatal_at w (fatal_parse_multicall w (mkLocals url c A0 A0 [] [] [] [] [] R0) err). }
  destruct (abi_JSON w daiABI) as [dai|err] eqn:Hdai.
  2: { fatal_at w (fatal_parse_dai w (mkLocals url c mc A0 [] [] [] [] [] R0) err). }
  destruct (abi_Pack w dai "symbol" []) as [sd|err] eqn:Hsd.
  2: { fatal_at w (fatal_pack_symbol w (mkLocals url c mc dai [] [] [] [] [] R0) err). }
  destruct (abi_Pack w dai "decimals" []) as [dd|err] eqn:Hdd.
  2: { fatal_at w (fatal_pack_decimals w (mkLocals url c mc dai sd [] [] [] [] R0) err). }
  destruct (abi_Pack w dai "balanceOf" [ArgAddress vitalikAddress]) as [bd|err] eqn:Hbd.
  2: { fatal_at w (fatal_pack_balanceOf w (mkLocals url c mc dai sd dd [] [] [] R0) err). }
  destruct (abi_Pack w mc "aggregate" [ArgCalls (batch sd dd bd)]) as [data|err] eqn:Hdata.
  2: { fatal_at w (fatal_pack_multicall w (mkLocals url c mc dai sd dd bd [] [] R0) err). }
  destruct (client_CallContract w c (callMsg data) None) as [raw|err] eqn:Hraw.
  2: { fatal_at w (fatal_execute w (mkLocals url c mc dai sd dd bd data [] R0) err). }
  destruct (unpack_AggregateResult w mc "aggregate" raw) as [agg|err] eqn:Hagg.
  2: { fatal_at w (fatal_unpack_result w (mkLocals url c mc dai sd dd bd data raw R0) err). }
  set (l := mkLocals url c mc dai sd dd bd data raw agg).
  assert (Hdec : decoded w l) by close_stage.
  assert (Hpanic : forall o : Outcome,
            run w = o -> status o = 2 -> panic o <> None ->
            Forall (fun e => is_print e = false) (events o) ->
            (status (run w) = 0 /\ Success w (events (run w))) \/
            (status (run w) = 1 /\ Fatal w (events (run w))) \/
            (status (run w) = 2 /\ panic (run w) <> None /\
             Forall (fun e => is_print e = false) (events (run w)))).
  { intros o -> ? ? ?. right; right; auto. }
  assert (Hrun : forall k,
            main_display w dai agg
              (mkState (loadlog w ++ [EvDial url; EvCallContract c (callMsg data) None])
                       [EvClose c]) = k ->
            run w = run_main (fun _ => k)).
  { intros k <-. unfold loadlog. unfold_run. destruct (dotenv w); cbn [app];
      unfold batch, callMsg in *; fold url; use_answers; reflexivity. }
  destruct (ReturnData agg !! 0%nat) as [r0|] eqn:Hr0.
  2: { eapply Hpanic; [apply Hrun; unfold main_display, index, bind; rewrite Hr0; reflexivity | ..];
       cbn; [reflexivity | discriminate |].
       unfold loadlog; destruct (dotenv w); repeat constructor. }
  destruct (unpack_string w dai "symbol" r0) as [sym|err] eqn:Hsym.
  2: { fatal_at w (fatal_unpack_symbol w l r0 err). }
  destruct (ReturnData agg !! 1%nat) as [r1|] eqn:Hr1.
  2: { eapply Hpanic; [apply Hrun; unfold main_display, index, bind, orFatal, ret;
                       rewrite Hr0, Hsym, Hr1; reflexivity | ..];
       cbn; [reflexivity | discriminate |].
       unfold loadlog; destruct (dotenv w); repeat constructor. }
  destruct (unpack_uint8 w dai "decimals" r1) as [dec|err] eqn:Hdc.
  2: { fatal_at w (fatal_unpack_decimals w l r0 sym r1 err). }
  destruct (ReturnData agg !! 2%nat) as [r2|] eqn:Hr2.
  2: { eapply Hpanic; [apply Hrun; unfold main_display, index, bind, orFatal, ret;
                       rewrite Hr0, Hsym, Hr1, Hdc, Hr2; reflexivity | ..];
       cbn; [reflexivity | discriminate |].
       unfold loadlog; destruct (dotenv w); repeat constructor. }
  destruct (unpack_bigInt w dai "balanceOf" r2) as [bal|err] eqn:Hbal.
  2: { fatal_at w (fatal_unpack_balance w l r0 sym r1 dec r2 err). }
  destruct (daiBalanceFloat bal dec) as [f|] eqn:Hf.
  2: { eapply Hpanic; [apply Hrun; unfold main_display, index, bind, orFatal, ret, stop;
                       rewrite Hr0, Hsym, Hr1, Hdc, Hr2, Hbal, Hf; reflexivity | ..];
       cbn; [reflexivity | discriminate |].
       unfold loadlog; destruct (dotenv w); repeat constructor. }
  assert (HS : Success w _) by (eapply (success_all w l r0 sym r1 dec r2 bal f); eassumption).
  rewrite (success_run w _ HS). left. split; [reflexivity | exact HS].
Qed.

Lemma loadlog_no_print w : Forall (fun e => is_print e = false) (loadlog w).
Proof. unfold loadlog. destruct (dotenv w); repeat constructor. Qed.

Lemma fatal_shape w evs :
  Fatal w evs ->
  Forall (fun e => is_print e = false) evs /\
  Forall (fun e => is_close e = false) evs /\
  exists line, last evs = Some (EvLog line).
Proof.
  destruct 1; unfold called, dialled, loadlog; destruct (dotenv w); cbn;
    (split; [repeat constructor | split; [repeat constructor | eexists; reflexivity]]).
Qed.

Lemma success_inv w : status (run w) = 0 -> Success w (events (run w)).
Proof.
  intros H. destruct (run_cases w) as [[_ HS]|[[H1 _]|[H2 _]]]; [exact HS|lia|lia].
Qed.

(** C10. In a run that completes, the batch is the three calls to the DAI
    address packed from [symbol()], [decimals()] and
    [balanceOf(vitalikAddress)], in that order, and the trace holds exactly
    one remote call: to the Multicall3 address, with no value, with the
    packed batch as data, and with a nil block number. *)
Theorem submitted_batch_is_fixed w :
  status (run w) = 0 ->
  exists c dai mc symbolData decimalsData balanceData multicallData,
    abi_JSON w daiABI = Ok dai /\
    abi_JSON w multicall3ABI = Ok mc /\
    abi_Pack w dai "symbol" [] = Ok symbolData /\
    abi_Pack w dai "decimals" [] = Ok decimalsData /\
    abi_Pack w dai "balanceOf" [ArgAddress vitalikAddress] = Ok balanceData /\
    abi_Pack w mc "aggregate"
      [ArgCalls [mkCall daiAddress symbolData;
                 mkCall daiAddress decimalsData;
                 mkCall daiAddress balanceData]] = Ok multicallData /\
    List.filter is_call (events (run w)) =
      [EvCallContract c
         (mkCallMsg 0 (Some multicall3Address) 0 None multicallData) None].
Proof.
  intros H. pose proof (success_inv w H) as HS.
  remember (events (run w)) as evs eqn:Hev.
  destruct HS as [l r0 sym r1 dec r2 bal f Hd Hr0 Hsym Hr1 Hdec Hr2 Hbal Hf].
  exists (client l), (daiABIParsed l), (multicallABI l), (symbolData l),
    (decimalsData l), (balanceData l), (multicallData l).
  unfold decoded, packed, prepared, parsed, batch in Hd.
  destruct Hd as [[[[_ [Hmc Hdai]] [Hsd [Hdd Hbd]]] Hdata] _].
  repeat (split; [assumption|]).
  unfold called, dialled, loadlog, callMsg.
  destruct (dotenv w); reflexivity.
Qed.

Lemma submitted_batch_witness :
  exists c dai mc symbolData decimalsData balanceData multicallData,
    abi_JSON happy daiABI = Ok dai /\
    abi_JSON happy multicall3ABI = Ok mc /\
    abi_Pack happy dai "symbol" [] = Ok symbolData /\
    abi_Pack happy dai "decimals" [] = Ok decimalsData /\
    abi_Pack happy dai "balanceOf" [ArgAddress vitalikAddress] = Ok balanceData /\
    abi_Pack happy mc "aggregate"
      [ArgCalls [mkCall daiAddress symbolData;
                 mkCall daiAddress decimalsData;
                 mkCall daiAddress balanceData]] = Ok multicallData /\
    List.filter is_call (events (run happy)) =
      [EvCallContract c
         (mkCallMsg 0 (Some multicall3Address) 0 None multicallData) None].
Proof. apply (submitted_batch_is_fixed happy). vm_compute. reflexivity. Defined.

(** C6, as stated, fails: an error of [godotenv.Load] is an error of the
    configuration step and it is recovered. In [happy] the load fails and
    the run still completes with status 0. *)
Lemma load_error_is_recovered :
  ~ (forall w, is_ok (dotenv w) = false -> status (run w) <> 0).
Proof.
  intros H. apply (H happy); vm_compute; reflexivity.
Qed.

(** C6, amended. Every error after [godotenv.Load] is fatal: at each
    failure point of [Fatal] (the empty URL, and an error from the dial,
    from either ABI parse, from each of the four packs, from the remote
    call and from each of the four unpacks) the process stops there with
    status 1, its last event is the log line of that step, and nothing was
    printed; in particular a failing or reverting remote call ends the run
    with "Failed to execute multicall" and no output line. No error is
    recovered: a run with status 0 had every one of these steps succeed,
    and a run with any other status printed nothing. *)
Theorem errors_after_load_are_fatal w :
  (forall evs, Fatal w evs ->
     run w = mkOutcome evs 1 None /\
     Forall (fun e => is_print e = false) evs /\
     exists line, last evs = Some (EvLog line)) /\
  (forall l err,
     packed w l ->
     client_CallContract w (client l) (callMsg (multicallData l)) None = Err err ->
     run w = mkOutcome
               (called w l ++ [EvLog ("Failed to execute multicall: " ++ err)%string])
               1 None /\
     List.filter is_print (events (run w)) = []) /\
  (status (run w) = 0 -> Success w (events (run w))) /\
  (status (run w) <> 0 -> Forall (fun e => is_print e = false) (events (run w))).
Proof.
  split; [|split; [|split]].
  - intros evs HF. split; [apply fatal_run; exact HF|].
    destruct (fatal_shape w evs HF) as [Hp [_ Hl]]. split; assumption.
  - intros l err Hp He.
    pose proof (fatal_execute w l err Hp He) as HF.
    rewrite (fatal_run w _ HF). split; [reflexivity|].
    unfold called, dialled, loadlog. destruct (dotenv w); reflexivity.
  - apply success_inv.
  - intros Hne. destruct (run_cases w) as [[H0 _]|[[_ HF]|[_ [_ Hp]]]].
    + contradiction.
    + apply (fatal_shape w _ HF).
    + exact Hp.
Qed.

Lemma reverting_packed : packed reverting reverting_locals.
Proof. unfold packed, prepared, parsed, connected, configured.
  repeat split; try reflexivity. discriminate. Qed.

Lemma errors_after_load_witness :
  run reverting =
    mkOutcome
      (called reverting reverting_locals ++
       [EvLog "Failed to execute multicall: execution reverted: Multicall3: call failed"])
      1 None /\
  List.filter is_print (events (run reverting)) = [].
Proof.
  apply (proj1 (proj2 (errors_after_load_are_fatal reverting))
           reverting_locals
           "execution reverted: Multicall3: call failed").
  - exact reverting_packed.
  - reflexivity.
Defined.

(** C7: what the code does when the remote call fails after a successful
    dial. The connection is opened, the run ends through [log.Fatalf] with
    status 1, and the trace holds no [Close]: [os.Exit] does not run the
    deferred [client.Close()]. *)
Theorem fatal_exit_skips_close :
  ethclient_Dial reverting "https://rpc.example" = Ok 1%nat /\
  run reverting =
    mkOutcome
      [ EvDial "https://rpc.example";
        EvCallContract 1%nat (callMsg (bytes_of_string "aggregate")) None;
        EvLog "Failed to execute multicall: execution reverted: Multicall3: call failed" ]
      1 None /\
  Forall (fun e => is_close e = false) (events (run reverting)).
Proof. split; [reflexivity|]. split; [vm_compute; reflexivity|]. vm_compute. repeat constructor. Qed.

(** The same on every fatal exit: none releases the connection, while a
    completed run and a panic do. *)
Lemma fatal_never_closes w evs :
  Fatal w evs -> Forall (fun e => is_close e = false) (events (run w)).
Proof.
  intros HF. rewrite (fatal_run w _ HF). apply (fatal_shape w evs HF).
Qed.

Lemma success_closes w evs :
  Success w evs -> exists c, last (events (run w)) = Some (EvClose c).
Proof.
  intros HS. rewrite (success_run w _ HS). destruct HS.
  eexists. cbn [events]. rewrite !app_assoc. apply last_snoc.
Qed.

Lemma short_undecodable_decoded :
  decoded short_undecodable (short_locals (mkAggregateResult 12345678 [[]])).
Proof. unfold decoded, packed, prepared, parsed, connected, configured.
  repeat split; try reflexivity. discriminate. Qed.

Lemma short_decodable_decoded :
  decoded short_decodable
    (short_locals (mkAggregateResult 12345678 [[x0a]; [x0b]])).
Proof. unfold decoded, packed, prepared, parsed, connected, configured.
  repeat split; try reflexivity. discriminate. Qed.

(** C8, as stated, fails: a decoded response with fewer than three
    entries does not always end in a panic. In [short_undecodable] the
    list has one entry, entry 0 is in range and does not decode as a
    string, and the run ends through [log.Fatalf] before index 1 is
    touched. *)
Lemma short_list_without_panic :
  ~ (forall w l, decoded w l ->
       (length (ReturnData (aggregateResult l)) < 3)%nat ->
       panic (run w) <> None).
Proof.
  intros H.
  apply (H short_undecodable _ short_undecodable_decoded).
  - cbn. lia.
  - vm_compute. reflexivity.
Qed.

(** C8, amended. The three accesses are unguarded. When the decoded list
    has fewer than three entries and every entry that is present decodes
    under the method of its position, the run panics with an index out of
    range at the first missing entry: status 2, nothing printed, the
    deferred [Close] run, and no log line of the error path. The accesses
    at 0, 1 and 2 are all in range exactly when the list has at least
    three entries, and then no run ends in that panic. *)
Theorem short_return_data_panics w l :
  decoded w l ->
  ((length (ReturnData (aggregateResult l)) < 3)%nat ->
   (forall i r, ReturnData (aggregateResult l) !! i = Some r ->
                entry_decodes w (daiABIParsed l) i r = true) ->
   run w = mkOutcome (called w l ++ [EvClose (client l)]) 2
                     (Some "index out of range"%string)) /\
  ((forall i, (i < 3)%nat -> is_Some (ReturnData (aggregateResult l) !! i)) <->
   (3 <= length (ReturnData (aggregateResult l)))%nat) /\
  ((3 <= length (ReturnData (aggregateResult l)))%nat ->
   panic (run w) <> Some "index out of range"%string).
Proof.
  intros Hd. split; [|split].
  - intros Hlen Hdecodes.
    assert (Hrun : forall k,
              main_display w (daiABIParsed l) (aggregateResult l)
                (mkState (called w l) [EvClose (client l)]) = k ->
              run w = run_main (fun _ => k)).
    { intros k <-. unfold called, dialled, loadlog. open_stages. unfold_run.
      destruct (dotenv w); cbn [app]; use_answers; reflexivity. }
    destruct (ReturnData (aggregateResult l)) as [|r0 [|r1 [|r2 rest]]] eqn:HR;
      cbn in Hlen; try lia.
    + erewrite Hrun; [|unfold main_display, index, bind; rewrite HR; reflexivity].
      reflexivity.
    + pose proof (Hdecodes 0%nat r0 eq_refl) as H0. cbn in H0.
      destruct (unpack_string w (daiABIParsed l) "symbol" r0) eqn:Hs; [|discriminate].
      erewrite Hrun;
        [|unfold main_display, index, bind, orFatal, ret; rewrite HR; cbn;
          rewrite Hs; reflexivity].
      reflexivity.
    + pose proof (Hdecodes 0%nat r0 eq_refl) as H0. cbn in H0.
      pose proof (Hdecodes 1%nat r1 eq_refl) as H1. cbn in H1.
      destruct (unpack_string w (daiABIParsed l) "symbol" r0) eqn:Hs; [|discriminate].
      destruct (unpack_uint8 w (daiABIParsed l) "decimals" r1) eqn:Hu; [|discriminate].
      erewrite Hrun;
        [|unfold main_display, index, bind, orFatal, ret; rewrite HR; cbn;
          rewrite Hs, Hu; reflexivity].
      reflexivity.
  - split.
    + intros H. destruct (H 2%nat ltac:(lia)) as [r Hr].
      apply lookup_lt_Some in Hr. lia.
    + intros H i Hi. apply lookup_lt_is_Some. lia.
  - intros Hlen.
    destruct (ReturnData (aggregateResult l)) as [|r0 [|r1 [|r2 rest]]] eqn:HR;
      cbn in Hlen; try lia.
    assert (Hrun : forall k,
              main_display w (daiABIParsed l) (aggregateResult l)
                (mkState (called w l) [EvClose (client l)]) = k ->
              run w = run_main (fun _ => k)).
    { intros k <-. unfold called, dialled, loadlog. open_stages. unfold_run.
      destruct (dotenv w); cbn [app]; use_answers; reflexivity. }
    erewrite Hrun; [|reflexivity].
    unfold main_display, index, bind, orFatal, ret, log_Fatal, stop, emit,
      fmt_Printf, run_main. rewrite HR. cbn.
    destruct (unpack_string _ _ _ _); [|cbn; discriminate].
    destruct (unpack_uint8 _ _ _ _); [|cbn; discriminate].
    destruct (unpack_bigInt _ _ _ _); [|cbn; discriminate].
    destruct (daiBalanceFloat _ _); cbn; discriminate.
Qed.

Lemma short_return_data_witness :
  run short_decodable =
    mkOutcome
      (called short_decodable
         (short_locals (mkAggregateResult 12345678 [[x0a]; [x0b]]))
       ++ [EvClose 1%nat]) 2 (Some "index out of range"%string).
Proof.
  apply (proj1 (short_return_data_panics short_decodable _ short_decodable_decoded)).
  - cbn. lia.
  - intros [|[|i]] r H; reflexivity.
Defined.

(** The aggregation contract answers call by call. *)
Lemma aggregate_pointwise exec bn calls agg :
  aggregate exec bn calls = Some agg ->
  BlockNumber agg = bn /\
  Forall2 (fun c r => exec c = Some r) calls (ReturnData agg).
Proof.
  unfold aggregate. intros H.
  destruct (mapM exec calls) as [rs|] eqn:Hm; [|discriminate].
  injection H as <-. split; [reflexivity|]. now apply mapM_Some.
Qed.

Lemma aggregate_reorder exec bn calls agg positions calls' :
  aggregate exec bn calls = Some agg ->
  reorder positions calls = Some calls' ->
  exists outs',
    reorder positions (ReturnData agg) = Some outs' /\
    aggregate exec bn calls' = Some (mkAggregateResult bn outs').
Proof.
  intros Ha Hr. apply aggregate_pointwise in Ha as [_ Hfa].
  unfold reorder in *. apply mapM_Some in Hr.
  induction Hr as [|i c positions calls' Hic Hr IH].
  - exists []. split; reflexivity.
  - destruct IH as [outs' [Ho Hagg]].
    destruct (Forall2_lookup_l _ _ _ _ _ Hfa Hic) as [r [Hir Hex]].
    exists (r :: outs'). split.
    + apply mapM_Some. constructor; [exact Hir|]. now apply mapM_Some.
    + unfold aggregate in *. cbn. rewrite Hex. cbn.
      destruct (mapM exec calls') as [rs|]; [|discriminate].
      cbn in *. congruence.
Qed.

(** C1. Order is the correlation key. In every run that completes, entry
    [i] of the batch submitted through [Pack("aggregate", calls)] is the
    call packed from the [i]-th method (symbol, decimals, balanceOf), entry
    [i] of the decoded [ReturnData] is decoded under that same method, and
    the printed values are these decodes. The aggregation contract returns
    one entry per call, the [i]-th being the answer to the [i]-th call, and
    answers a reordered list of calls with the identically reordered list
    of entries. Put together: when the node runs the aggregation contract,
    the printed symbol, decimals and balance are the decodes of the answers
    to the symbol, decimals and balanceOf calls, in that order. *)
Theorem batch_order_is_the_correlation_key :
  (forall w, status (run w) = 0 ->
     exists l r0 r1 r2 symbol decimals daiBalance f,
       abi_Pack w (multicallABI l) "aggregate"
         [ArgCalls (batch (symbolData l) (decimalsData l) (balanceData l))]
         = Ok (multicallData l) /\
       List.filter is_call (events (run w)) =
         [EvCallContract (client l) (callMsg (multicallData l)) None] /\
       unpack_AggregateResult w (multicallABI l) "aggregate" (result_ l)
         = Ok (aggregateResult l) /\
       (forall i, (i < 3)%nat -> exists c r,
          batch (symbolData l) (decimalsData l) (balanceData l) !! i = Some c /\
          abi_Pack w (daiABIParsed l) (shape_name i) (call_args i)
            = Ok (CallData c) /\
          ReturnData (aggregateResult l) !! i = Some r /\
          entry_decodes w (daiABIParsed l) i r = true) /\
       ReturnData (aggregateResult l) !! 0%nat = Some r0 /\
       ReturnData (aggregateResult l) !! 1%nat = Some r1 /\
       ReturnData (aggregateResult l) !! 2%nat = Some r2 /\
       unpack_string w (daiABIParsed l) "symbol" r0 = Ok symbol /\
       unpack_uint8 w (daiABIParsed l) "decimals" r1 = Ok decimals /\
       unpack_bigInt w (daiABIParsed l) "balanceOf" r2 = Ok daiBalance /\
       daiBalanceFloat daiBalance decimals = Some f /\
       List.filter is_print (events (run w)) =
         output (BlockNumber (aggregateResult l)) symbol decimals (Text_f f 18)) /\
  (forall exec bn calls agg,
     aggregate exec bn calls = Some agg ->
     length (ReturnData agg) = length calls /\
     forall i c, calls !! i = Some c ->
       exists r, ReturnData agg !! i = Some r /\ exec c = Some r) /\
  (forall exec bn calls agg positions calls',
     aggregate exec bn calls = Some agg ->
     reorder positions calls = Some calls' ->
     exists outs',
       reorder positions (ReturnData agg) = Some outs' /\
       aggregate exec bn calls' = Some (mkAggregateResult bn outs')) /\
  (forall w exec bn,
     node_runs_aggregate w exec bn -> status (run w) = 0 ->
     exists l r0 r1 r2 symbol decimals daiBalance f,
       prepared w l /\
       exec (mkCall daiAddress (symbolData l)) = Some r0 /\
       exec (mkCall daiAddress (decimalsData l)) = Some r1 /\
       exec (mkCall daiAddress (balanceData l)) = Some r2 /\
       unpack_string w (daiABIParsed l) "symbol" r0 = Ok symbol /\
       unpack_uint8 w (daiABIParsed l) "decimals" r1 = Ok decimals /\
       unpack_bigInt w (daiABIParsed l) "balanceOf" r2 = Ok daiBalance /\
       daiBalanceFloat daiBalance decimals = Some f /\
       List.filter is_print (events (run w)) =
         output bn symbol decimals (Text_f f 18)).
Proof.
  split; [|split; [|split]].
  - intros w H. pose proof (success_inv w H) as HS.
    remember (events (run w)) as evs eqn:Hev.
    destruct HS as [l r0 sym r1 dec r2 bal f Hd Hr0 Hsym Hr1 Hdec Hr2 Hbal Hf].
    exists l, r0, r1, r2, sym, dec, bal, f.
    unfold decoded, packed, prepared, parsed in Hd.
    destruct Hd as [[[[_ [Hmc Hdai]] [Hsd [Hdd Hbd]]] Hdata] [Hraw Hagg]].
    split; [exact Hdata|]. split.
    { unfold called, dialled, loadlog. destruct (dotenv w); reflexivity. }
    split; [exact Hagg|]. split.
    { intros [|[|[|i]]] Hi; try lia; eexists _, _;
        (split; [reflexivity|]); cbn [shape_name call_args CallData entry_decodes];
        (split; [eassumption|]); (split; [eassumption|]).
      - now rewrite Hsym.
      - now rewrite Hdec.
      - now rewrite Hbal. }
    repeat (split; [assumption|]).
    unfold called, dialled, loadlog. destruct (dotenv w); reflexivity.
  - intros exec bn calls agg Ha.
    apply aggregate_pointwise in Ha as [_ Hfa]. split.
    + symmetry. eapply Forall2_length, Hfa.
    + intros i c Hc. eapply Forall2_lookup_l in Hfa as [r [? ?]]; eauto.
  - apply aggregate_reorder.
  - intros w exec bn Hnode H. pose proof (success_inv w H) as HS.
    remember (events (run w)) as evs eqn:Hev.
    destruct HS as [l r0 sym r1 dec r2 bal f Hd Hr0 Hsym Hr1 Hdec Hr2 Hbal Hf].
    destruct Hd as [[Hprep Hdata] [Hraw Hagg]].
    specialize (Hnode (client l) (multicallABI l) _ _ Hdata).
    unfold aggregate, batch in Hnode. cbn [mapM] in Hnode.
    destruct (exec (mkCall daiAddress (symbolData l))) as [a0|] eqn:E0;
      [|destruct Hnode as [err He]; cbn in He; congruence].
    destruct (exec (mkCall daiAddress (decimalsData l))) as [a1|] eqn:E1;
      [|destruct Hnode as [err He]; cbn in He; congruence].
    destruct (exec (mkCall daiAddress (balanceData l))) as [a2|] eqn:E2;
      [|destruct Hnode as [err He]; cbn in He; congruence].
    cbn in Hnode. destruct Hnode as [raw [Hraw' Hagg']].
    rewrite Hraw in Hraw'. injection Hraw' as <-.
    rewrite Hagg in Hagg'. injection Hagg' as Hagg'.
    rewrite Hagg' in *. cbn in Hr0, Hr1, Hr2.
    injection Hr0 as <-. injection Hr1 as <-. injection Hr2 as <-.
    exists l, a0, a1, a2, sym, dec, bal, f.
    repeat (split; [assumption || reflexivity|]).
    unfold called, dialled, loadlog. destruct (dotenv w); reflexivity.
Qed.

Lemma bytes_eqb_eq a b : bytes_eqb a b = true -> a = b.
Proof.
  revert b. induction a as [|x a IH]; intros [|y b] H; try discriminate;
    [reflexivity|].
  cbn in H. apply andb_true_iff in H as [Hx Hr].
  apply Byte.byte_dec_bl in Hx. f_equal; auto.
Qed.

Lemma calls_eqb_eq a b : calls_eqb a b = true -> a = b.
Proof.
  revert b. induction a as [|x a IH]; intros [|y b] H; try discriminate;
    [reflexivity|].
  cbn in H. apply andb_true_iff in H as [Hx Hr].
  unfold call_eqb in Hx. apply andb_true_iff in Hx as [Ht Hd].
  apply Z.eqb_eq in Ht. apply bytes_eqb_eq in Hd.
  destruct x, y; cbn in *; subst. f_equal. auto.
Qed.

Lemma echo_node_runs_aggregate : node_runs_aggregate echo_node echo_exec 12345678.
Proof.
  intros c mc calls data H. cbn in H.
  destruct (calls_eqb calls echo_batch) eqn:E; [|discriminate].
  apply calls_eqb_eq in E. subst calls.
  eexists. split; reflexivity.
Qed.

Lemma batch_order_witness :
  exists l r0 r1 r2 symbol decimals daiBalance f,
    prepared echo_node l /\
    echo_exec (mkCall daiAddress (symbolData l)) = Some r0 /\
    echo_exec (mkCall daiAddress (decimalsData l)) = Some r1 /\
    echo_exec (mkCall daiAddress (balanceData l)) = Some r2 /\
    unpack_string echo_node (daiABIParsed l) "symbol" r0 = Ok symbol /\
    unpack_uint8 echo_node (daiABIParsed l) "decimals" r1 = Ok decimals /\
    unpack_bigInt echo_node (daiABIParsed l) "balanceOf" r2 = Ok daiBalance /\
    daiBalanceFloat daiBalance decimals = Some f /\
    List.filter is_print (events (run echo_node)) =
      output 12345678 symbol decimals (Text_f f 18).
Proof.
  apply (proj2 (proj2 (proj2 batch_order_is_the_correlation_key))
           echo_node echo_exec 12345678).
  - exact echo_node_runs_aggregate.
  - vm_compute. reflexivity.
Defined.

(** ** What every run does *)

(** Each panic point of [Panics] ends the run there: the deferred
    [Close] runs while the panic unwinds, the status is 2. *)
Lemma panics_run w evs :
  Panics w evs -> run w = mkOutcome evs 2 (Some "index out of range").
Proof.
  destruct 1; unfold called, dialled, loadlog in *; open_stages;
    unfold_run; destruct (dotenv w); cbn [app]; use_answers; reflexivity.
Qed.

Ltac fatal_here w C :=
  let HF := fresh "HF" in
  assert (HF : Fatal w _) by (eapply C; first [eassumption | close_stage]);
  right; left; eexists; split; [exact HF | apply fatal_run, HF].

Ltac panics_here w C :=
  let HP := fresh "HP" in
  assert (HP : Panics w _) by (eapply C; eassumption);
  right; right; eexists; split; [exact HP | apply panics_run, HP].

(** Every run is a success, one of the fatal exits or one of the
    panics, with the trace of the relation. *)
Lemma run_outcomes w :
  (exists evs, Success w evs /\ run w = mkOutcome evs 0 None) \/
  (exists evs, Fatal w evs /\ run w = mkOutcome evs 1 None) \/
  (exists evs, Panics w evs /\
               run w = mkOutcome evs 2 (Some "index out of range")).
Proof.
  pose (A0 := mkABI []). pose (R0 := mkAggregateResult 0 []).
  destruct (os_Getenv (godotenv_Load w) "MAINNET_RPC_URL") as [|ch url'] eqn:Hurl.
  { fatal_here w (fatal_config w). }
  set (url := String ch url') in *.
  assert (Hne : url <> ""%string) by discriminate.
  destruct (ethclient_Dial w url) as [c|err] eqn:Hdial.
  2: { fatal_here w (fatal_dial w (mkLocals url 0%nat A0 A0 [] [] [] [] [] R0) err). }
  destruct (abi_JSON w multicall3ABI) as [mc|err] eqn:Hmc.
  2: { fatal_here w (fatal_parse_multicall w (mkLocals url c A0 A0 [] [] [] [] [] R0) err). }
  destruct (abi_JSON w daiABI) as [dai|err] eqn:Hdai.
  2: { fatal_here w (fatal_parse_dai w (mkLocals url c mc A0 [] [] [] [] [] R0) err). }
  destruct (abi_Pack w dai "symbol" []) as [sd|err] eqn:Hsd.
  2: { fatal_here w (fatal_pack_symbol w (mkLocals url c mc dai [] [] [] [] [] R0) err). }
  destruct (abi_Pack w dai "decimals" []) as [dd|err] eqn:Hdd.
  2: { fatal_here w (fatal_pack_decimals w (mkLocals url c mc dai sd [] [] [] [] R0) err). }
  destruct (abi_Pack w dai "balanceOf" [ArgAddress vitalikAddress]) as [bd|err] eqn:Hbd.
  2: { fatal_here w (fatal_pack_balanceOf w (mkLocals url c mc dai sd dd [] [] [] R0) err). }
  destruct (abi_Pack w mc "aggregate" [ArgCalls (batch sd dd bd)]) as [data|err] eqn:Hdata.
  2: { fatal_here w (fatal_pack_multicall w (mkLocals url c mc dai sd dd bd [] [] R0) err). }
  destruct (client_CallContract w c (callMsg data) None) as [raw|err] eqn:Hraw.
  2: { fatal_here w (fatal_execute w (mkLocals url c mc dai sd dd bd data [] R0) err). }
  destruct (unpack_AggregateResult w mc "aggregate" raw) as [agg|err] eqn:Hagg.
  2: { fatal_here w (fatal_unpack_result w (mkLocals url c mc dai sd dd bd data raw R0) err). }
  set (l := mkLocals url c mc dai sd dd bd data raw agg).
  assert (Hdec : decoded w l) by close_stage.
  destruct (ReturnData agg !! 0%nat) as [r0|] eqn:Hr0.
  2: { panics_here w (panics_at_0 w l). }
  destruct (unpack_string w dai "symbol" r0) as [sym|err] eqn:Hsym.
  2: { fatal_here w (fatal_unpack_symbol w l r0 err). }
  destruct (ReturnData agg !! 1%nat) as [r1|] eqn:Hr1.
  2: { panics_here w (panics_at_1 w l r0 sym). }
  destruct (unpack_uint8 w dai "decimals" r1) as [dec|err] eqn:Hdc.
  2: { fatal_here w (fatal_unpack_decimals w l r0 sym r1 err). }
  destruct (ReturnData agg !! 2%nat) as [r2|] eqn:Hr2.
  2: { panics_here w (panics_at_2 w l r0 sym r1 dec). }
  destruct (unpack_bigInt w dai "balanceOf" r2) as [bal|err] eqn:Hbal.
  2: { fatal_here w (fatal_unpack_balance w l r0 sym r1 dec r2 err). }
  destruct (daiBalanceFloat bal dec) as [f|] eqn:Hf.
  2: { destruct (daiBalanceFloat_some bal dec Hf). }
  assert (HS : Success w _) by (eapply (success_all w l r0 sym r1 dec r2 bal f); eassumption).
  left. eexists. split; [exact HS | apply success_run, HS].
Qed.


(** Compute on the trace of a stage. *)
Ltac trace_of w :=
  unfold called, dialled, loadlog, output; destruct (dotenv w); cbn.

(** X5. Every run uses the network at most twice, in a fixed order and
    without retry: no network event at all when the URL is empty; or
    exactly one [Dial], of the configured URL, in a run that then exits
    with status 1; or that [Dial] followed by exactly one [CallContract],
    on the client that the dial returned, with the packed batch as data
    and a nil block number. *)
Theorem one_dial_then_one_call w :
  (os_Getenv (godotenv_Load w) "MAINNET_RPC_URL" = "" /\
   List.filter is_network (events (run w)) = []) \/
  (exists l, configured w l /\ status (run w) = 1 /\
     List.filter is_network (events (run w)) = [EvDial (rpcURL l)]) \/
  (exists l, packed w l /\
     List.filter is_network (events (run w)) =
       [EvDial (rpcURL l);
        EvCallContract (client l) (callMsg (multicallData l)) None]).
Proof.
  destruct (run_outcomes w) as [[evs [H ->]]|[[evs [H ->]]|[evs [H ->]]]];
    cbn [events status]; destruct H;
    try (right; right; exists l; split; [open_stages; close_stage | trace_of w; reflexivity]);
    try (right; left; exists l; split; [open_stages; close_stage |
           split; [reflexivity | trace_of w; reflexivity]]).
  left. split; [assumption | trace_of w; reflexivity].
Qed.

(** X6. The deferred [client.Close()] runs exactly when [main] returns
    or panics, and then once, as the last event, on the dialled client and
    after the one remote call; a run that exits with status 1 closes
    nothing. *)
Theorem close_runs_unless_fatal w :
  (status (run w) = 1 /\ List.filter is_close (events (run w)) = []) \/
  (status (run w) <> 1 /\
   exists l evs,
     decoded w l /\
     events (run w) = (evs ++ [EvClose (client l)])%list /\
     List.filter is_close evs = [] /\
     List.filter is_call evs =
       [EvCallContract (client l) (callMsg (multicallData l)) None]).
Proof.
  destruct (run_outcomes w) as [[evs [H ->]]|[[evs [H ->]]|[evs [H ->]]]];
    cbn [events status].
  - right. split; [discriminate|]. destruct H. eexists l, _.
    split; [assumption|]. split; [rewrite app_assoc; reflexivity|].
    split; trace_of w; reflexivity.
  - left. split; [reflexivity|]. destruct H; trace_of w; reflexivity.
  - right. split; [discriminate|]. destruct H; eexists l, _;
      (split; [assumption|]); (split; [reflexivity|]);
      split; trace_of w; reflexivity.
Qed.

(** X7. The exit status is 0, 1 or 2, and a run panics only by indexing
    a decoded [ReturnData] of fewer than three entries: the message is
    always index out of range, and the division of line 165 never panics. *)
Theorem index_out_of_range_is_the_only_panic w :
  (status (run w) = 0 /\ panic (run w) = None) \/
  (status (run w) = 1 /\ panic (run w) = None) \/
  (status (run w) = 2 /\ panic (run w) = Some "index out of range" /\
   exists l, decoded w l /\
             (length (ReturnData (aggregateResult l)) < 3)%nat).
Proof.
  destruct (run_outcomes w) as [[evs [H ->]]|[[evs [H ->]]|[evs [H ->]]]];
    cbn [status panic]; [left; split; reflexivity | right; left; split; reflexivity |].
  right; right. split; [reflexivity|]. split; [reflexivity|].
  destruct H as [l Hd Hr|l r0 sym Hd _ _ Hr|l r0 sym r1 dec Hd _ _ _ _ Hr];
    exists l; (split; [exact Hd|]); apply lookup_ge_None in Hr; lia.
Qed.

(** X8. The log holds at most two lines: the notice of a failed
    [godotenv.Load], first, and one fatal line, which is then the last
    event, in the runs that exit with status 1 and only in them. A run
    that completes or panics logs nothing else. *)
Theorem log_is_the_load_notice_and_the_fatal_line w :
  (status (run w) = 1 /\
   exists line, List.filter is_log (events (run w)) = (loadlog w ++ [EvLog line])%list /\
                last (events (run w)) = Some (EvLog line)) \/
  (status (run w) <> 1 /\ List.filter is_log (events (run w)) = loadlog w).
Proof.
  destruct (run_outcomes w) as [[evs [H ->]]|[[evs [H ->]]|[evs [H ->]]]];
    cbn [events status].
  - right. split; [discriminate|]. destruct H. trace_of w; reflexivity.
  - left. split; [reflexivity|]. destruct H; eexists; trace_of w; split; reflexivity.
  - right. split; [discriminate|]. destruct H; trace_of w; reflexivity.
Qed.

(** The URL that [os.Getenv] returns, when not empty, is dialled, once. *)
Lemma dial_of_url w u :
  os_Getenv (godotenv_Load w) "MAINNET_RPC_URL" = u -> u <> "" ->
  List.filter is_dial (events (run w)) = [EvDial u].
Proof.
  intros Hu Hne.
  destruct (run_outcomes w) as [[evs [H ->]]|[[evs [H ->]]|[evs [H ->]]]];
    cbn [events]; destruct H; try congruence;
    open_stages; replace u with (rpcURL l) by congruence;
    trace_of w; reflexivity.
Qed.

(** X9. A non-empty [MAINNET_RPC_URL] of the process environment is the
    URL that is dialled, whatever the [.env] file holds: [godotenv.Load]
    does not override a variable that is already set. *)
Theorem environment_wins_over_dotenv w u :
  environ w !! "MAINNET_RPC_URL" = Some u -> u <> "" ->
  List.filter is_dial (events (run w)) = [EvDial u].
Proof.
  intros He Hne. apply dial_of_url; [|exact Hne].
  unfold os_Getenv, godotenv_Load. destruct (dotenv w) as [file|err].
  - now rewrite (lookup_union_Some_l _ _ _ _ He).
  - now rewrite He.
Qed.

Lemma environment_wins_witness :
  List.filter is_dial (events (run both_set)) = [EvDial "https://env.example"].
Proof.
  apply (environment_wins_over_dotenv both_set "https://env.example").
  - reflexivity.
  - discriminate.
Defined.

(** X10. When the process environment does not set [MAINNET_RPC_URL]
    and the [.env] file loads and gives it a non-empty value, that value
    is the URL that is dialled. *)
Theorem dotenv_fills_an_unset_variable w file u :
  environ w !! "MAINNET_RPC_URL" = None ->
  dotenv w = Ok file -> file !! "MAINNET_RPC_URL" = Some u -> u <> "" ->
  List.filter is_dial (events (run w)) = [EvDial u].
Proof.
  intros He Hd Hf Hne. apply dial_of_url; [|exact Hne].
  unfold os_Getenv, godotenv_Load. rewrite Hd.
  now rewrite (lookup_union_r _ _ _ He), Hf.
Qed.

Lemma dotenv_fills_witness :
  List.filter is_dial (events (run file_only)) = [EvDial "https://file.example"].
Proof.
  apply (dotenv_fills_an_unset_variable file_only
           {[ "MAINNET_RPC_URL" := "https://file.example" ]} "https://file.example").
  - reflexivity.
  - reflexivity.
  - reflexivity.
  - discriminate.
Defined.

(** X11. A [MAINNET_RPC_URL] that the process environment sets to the
    empty string counts as missing even when the [.env] file holds a URL:
    the file does not override it, and the run stops at the check of line
    82 with status 1, before any network use. *)
Theorem empty_variable_hides_dotenv w :
  environ w !! "MAINNET_RPC_URL" = Some "" ->
  run w = mkOutcome
            (loadlog w ++ [EvLog "MAINNET_RPC_URL environment variable is required"])
            1 None.
Proof.
  intros He. apply fatal_run. apply fatal_config.
  unfold os_Getenv, godotenv_Load. destruct (dotenv w) as [file|err].
  - now rewrite (lookup_union_Some_l _ _ _ _ He).
  - now rewrite He.
Qed.

Lemma empty_variable_witness :
  run shadowed = mkOutcome
            (loadlog shadowed ++ [EvLog "MAINNET_RPC_URL environment variable is required"])
            1 None.
Proof. apply (empty_variable_hides_dotenv shadowed). reflexivity. Defined.



(** X13. The happy path is total: when the URL is set, the dial, both
    parses, the four packs, the remote call and the four unpacks succeed
    and [ReturnData] has its three entries, the run prints the four lines
    with the decoded values, in order, releases the client and exits with
    status 0. Nothing else is needed: the division cannot fail. *)
Theorem answered_run_completes w l r0 symbol r1 decimals r2 daiBalance :
  decoded w l ->
  ReturnData (aggregateResult l) !! 0%nat = Some r0 ->
  unpack_string w (daiABIParsed l) "symbol" r0 = Ok symbol ->
  ReturnData (aggregateResult l) !! 1%nat = Some r1 ->
  unpack_uint8 w (daiABIParsed l) "decimals" r1 = Ok decimals ->
  ReturnData (aggregateResult l) !! 2%nat = Some r2 ->
  unpack_bigInt w (daiABIParsed l) "balanceOf" r2 = Ok daiBalance ->
  exists text,
    balanceText daiBalance decimals = Some text /\
    run w = mkOutcome
              (called w l
               ++ output (BlockNumber (aggregateResult l)) symbol decimals text
               ++ [EvClose (client l)])
              0 None.
Proof.
  intros Hd Hr0 Hsym Hr1 Hdec Hr2 Hbal.
  destruct (daiBalanceFloat daiBalance decimals) as [f|] eqn:Hf;
    [|destruct (daiBalanceFloat_some _ _ Hf)].
  exists (Text_f f 18). split.
  - unfold balanceText. rewrite Hf. reflexivity.
  - apply success_run.
    eapply (success_all w l r0 symbol r1 decimals r2 daiBalance f); eassumption.
Qed.

Lemma answered_run_witness :
  exists text,
    balanceText 1234567890123456789 (uint8 18) = Some text /\
    run happy =
      mkOutcome
        (called happy (short_locals (mkAggregateResult 12345678 [[x0a]; [x0b]; [x0c]]))
         ++ output 12345678 "DAI" (uint8 18) text
         ++ [EvClose 1%nat])
        0 None.
Proof.
  apply (answered_run_completes happy
           (short_locals (mkAggregateResult 12345678 [[x0a]; [x0b]; [x0c]]))
           [x0a] "DAI" [x0b] (uint8 18) [x0c] 1234567890123456789);
    try reflexivity.
  unfold decoded, packed, prepared, parsed, connected, configured.
  repeat split; try reflexivity. discriminate.
Defined.

End Pipeline.
